(** * pattern-viz: the two gallery generators, embedded and verified

    [generate_gallery.py] (pipeline 1) and [generate_gallery_resnet50.py]
    (pipeline 2) read a directory tree below [PROJECT_ROOT] and write one
    static HTML table.  The file system is an explicit value, a [pathlib.Path]
    is the list of its parts below [PROJECT_ROOT], and a Python exception is
    the [Err] branch of [result].  The functions of the two files come
    first, as they run while every file name fits [NAME_MAX]; the modules
    [Os], [GalleryOs] and [ResNet50Os] further down are the same functions
    with the [OSError] that [Path.exists()] raises for a longer name. *)

From Stdlib Require Import List String Ascii Bool Arith Lia.
From Stdlib Require Import Permutation Sorted DecimalString OrderedTypeEx FinFun.
Import ListNotations.

Local Open Scope string_scope.
Local Open Scope list_scope.
Set Warnings "-register-all".

(** ** Exceptions *)

Inductive exn : Type :=
| NotADirectoryError
| FileNotFoundError
| IsADirectoryError
| IndexError
| OSError_ENAMETOOLONG.

Inductive result (A : Type) : Type :=
| Ok (a : A)
| Err (e : exn).

Arguments Ok {A} a.
Arguments Err {A} e.

Definition bind {A B : Type} (m : result A) (k : A -> result B) : result B :=
  match m with
  | Ok a => k a
  | Err e => Err e
  end.

Notation "x <- m ;; k" := (bind m (fun x => k))
  (at level 61, m at next level, right associativity).

(** ** Python strings

    A [str] is modelled by the bytes of its UTF-8 encoding: byte-wise
    comparison orders such strings like code-point comparison does. *)

Module Str.

Definition dot : ascii := "."%char.
Definition slash : ascii := "/"%char.

(** [str.lower], on the ASCII letters.  No other character lowers to a
    letter of an allowed extension. *)
Definition lower_char (c : ascii) : ascii :=
  let n := nat_of_ascii c in
  if Nat.leb 65 n && Nat.leb n 90 then ascii_of_nat (n + 32) else c.

Fixpoint lower (s : string) : string :=
  match s with
  | EmptyString => EmptyString
  | String c s' => String (lower_char c) (lower s')
  end.

(** [s.rfind('.')]: the index of the last dot, [None] for Python's -1. *)
Fixpoint rfind_dot (s : string) : option nat :=
  match s with
  | EmptyString => None
  | String c s' =>
      match rfind_dot s' with
      | Some i => Some (S i)
      | None => if Ascii.eqb c dot then Some 0 else None
      end
  end.

Fixpoint contains (c : ascii) (s : string) : bool :=
  match s with
  | EmptyString => false
  | String c' s' => Ascii.eqb c c' || contains c s'
  end.

(** [s.split('/')]: never the empty list. *)
Fixpoint split_slash (s : string) : list string :=
  match s with
  | EmptyString => [EmptyString]
  | String c s' =>
      if Ascii.eqb c slash then EmptyString :: split_slash s'
      else match split_slash s' with
           | [] => [String c EmptyString]
           | w :: ws => String c w :: ws
           end
  end.

(** ['/'.join(parts)] *)
Definition join_slash (parts : list string) : string :=
  String.concat "/" parts.

(** [str(n)] for a natural number. *)
Definition of_nat (n : nat) : string :=
  NilEmpty.string_of_uint (Nat.to_uint n).

End Str.

(** ** The file system below [PROJECT_ROOT]

    A directory lists its entries in the order [os.scandir] reports them, which
    the operating system is free to choose. *)

Inductive node : Type :=
| File (data : string)
| Dir (entries : list (string * node)).

Fixpoint lookup_entry (x : string) (es : list (string * node)) : option node :=
  match es with
  | [] => None
  | (y, n) :: es' => if String.eqb x y then Some n else lookup_entry x es'
  end.

(** A name a directory can hold: not empty, not a dot entry, no separator. *)
Definition valid_name (x : string) : bool :=
  negb (String.eqb x "") && negb (String.eqb x ".") && negb (String.eqb x "..")
  && negb (Str.contains Str.slash x).

Fixpoint nodupb (l : list string) : bool :=
  match l with
  | [] => true
  | x :: l' => negb (existsb (String.eqb x) l') && nodupb l'
  end.

(** Names are valid and unique in every directory of the tree. *)
Fixpoint wf_node (n : node) : bool :=
  match n with
  | File _ => true
  | Dir es =>
      forallb valid_name (map fst es) && nodupb (map fst es)
      && forallb (fun e => wf_node (snd e)) es
  end.

(** Name resolution as the kernel does it, one component at a time.  A cursor
    is the node reached and the directories passed on the way, innermost
    first; the root is its own parent. *)
Definition cursor : Type := (list node * node)%type.

Definition step (c : cursor) (x : string) : option cursor :=
  match snd c with
  | File _ => None
  | Dir es =>
      if String.eqb x "." then Some c
      else if String.eqb x ".." then
        match fst c with
        | [] => Some c
        | a :: anc => Some (anc, a)
        end
      else
        match lookup_entry x es with
        | Some n => Some (snd c :: fst c, n)
        | None => None
        end
  end.

Fixpoint walk (c : cursor) (p : list string) : option cursor :=
  match p with
  | [] => Some c
  | x :: p' =>
      match step c x with
      | Some c' => walk c' p'
      | None => None
      end
  end.

(** ** pathlib *)

(** A [Path] below [PROJECT_ROOT]: its parts, outermost first.
    [relative_to(PROJECT_ROOT)] is then the identity. *)
Definition path : Type := list string.

Module Path.

Definition stat (fs : node) (p : path) : option node :=
  option_map snd (walk ([], fs) p).

(** [Path.exists()]: true for an entry of any kind; a missing entry or a
    regular file in the middle of the path gives [False], not an error.
    This, [is_file] and [is_dir] are the calls on a path whose components
    fit [NAME_MAX]; beyond it Python 3.12 and 3.13 raise [OSError], which is
    [Os.exists_] below. *)
Definition exists_ (fs : node) (p : path) : bool :=
  match stat fs p with
  | Some _ => true
  | None => false
  end.

Definition is_file (fs : node) (p : path) : bool :=
  match stat fs p with
  | Some (File _) => true
  | _ => false
  end.

Definition is_dir (fs : node) (p : path) : bool :=
  match stat fs p with
  | Some (Dir _) => true
  | _ => false
  end.

(** [Path.iterdir()]: the children in listing order. *)
Definition iterdir (fs : node) (p : path) : result (list path) :=
  match stat fs p with
  | Some (Dir es) => Ok (map (fun e => p ++ [fst e]) es)
  | Some (File _) => Err NotADirectoryError
  | None => Err FileNotFoundError
  end.

(** The parts a string argument contributes to a path: split at the
    separator, empty and ["."] parts dropped.  (An argument that starts with
    the separator would make the path absolute; a BaseKey, a section and a
    method name never do.) *)
Definition parse_parts (s : string) : list string :=
  filter (fun x => negb (String.eqb x "") && negb (String.eqb x "."))
         (Str.split_slash s).

(** [p / s] *)
Definition joinpath (p : path) (s : string) : path := p ++ parse_parts s.

(** [Path.name] *)
Definition name (p : path) : string := last p "".

(** [PurePath.suffix] and [PurePath.stem] of a name (Python 3.12, 3.13):
    [i = name.rfind('.')], split there if [0 < i < len(name) - 1]. *)
Definition split_at_suffix (nm : string) : option nat :=
  match Str.rfind_dot nm with
  | Some i => if Nat.ltb 0 i && Nat.ltb i (String.length nm - 1) then Some i else None
  | None => None
  end.

Definition suffix_of (nm : string) : string :=
  match split_at_suffix nm with
  | Some i => String.substring i (String.length nm - i) nm
  | None => ""
  end.

Definition stem_of (nm : string) : string :=
  match split_at_suffix nm with
  | Some i => String.substring 0 i nm
  | None => nm
  end.

Definition suffix (p : path) : string := suffix_of (name p).
Definition stem (p : path) : string := stem_of (name p).

(** [Path.as_posix()] *)
Definition as_posix (p : path) : string := Str.join_slash p.

(** [p < q] on paths: Python compares the lists of parts. *)
Fixpoint ltb (p q : path) : bool :=
  match p, q with
  | [], [] => false
  | [], _ :: _ => true
  | _ :: _, [] => false
  | x :: p', y :: q' => if String.eqb x y then ltb p' q' else String.ltb x y
  end.

End Path.

(** [sorted(l)]: a stable sort that only asks [<]. *)
Fixpoint insert_sorted (x : path) (l : list path) : list path :=
  match l with
  | [] => [x]
  | y :: l' => if Path.ltb y x then y :: insert_sorted x l' else x :: l
  end.

Definition sorted (l : list path) : list path :=
  fold_right insert_sorted [] l.

(** ** Code shared by both generators *)

Definition ALLOWED_EXTS : list string := [".png"; ".jpg"; ".jpeg"; ".webp"].

Definition in_set (s : string) (l : list string) : bool :=
  existsb (String.eqb s) l.

Definition image_filter (fs : node) (p : path) : bool :=
  Path.is_file fs p
  && in_set (Str.lower (Path.suffix p)) ALLOWED_EXTS
  && negb (String.prefix "._" (Path.name p)).

Definition list_images (fs : node) (directory : path) : result (list path) :=
  if negb (Path.exists_ fs directory) then Ok []
  else
    ps <- Path.iterdir fs directory ;;
    Ok (sorted (filter (image_filter fs) ps)).

(** ** The [html] module and string literals *)

Module Html.

Local Open Scope string_scope.

Definition nl : string := String (ascii_of_nat 10) "".
Definition dquote : ascii := ascii_of_nat 34.
Definition squote : ascii := "'"%char.

(** [s.replace(c, r)] for a one-character [c]. *)
Fixpoint replace_char (c : ascii) (r s : string) : string :=
  match s with
  | EmptyString => EmptyString
  | String c' s' =>
      if Ascii.eqb c' c then r ++ replace_char c r s'
      else String c' (replace_char c r s')
  end.

(** [html.escape(s)], with its default [quote=True]: five replacements, the
    ampersand first. *)
Definition escape (s : string) : string :=
  let s := replace_char "&" "&amp;" s in
  let s := replace_char "<" "&lt;" s in
  let s := replace_char ">" "&gt;" s in
  let s := replace_char dquote "&quot;" s in
  replace_char squote "&#x27;" s.

(** The literals below write a back quote where the source has a double
    quote; [q] puts the double quotes back. *)
Fixpoint q (s : string) : string :=
  match s with
  | EmptyString => EmptyString
  | String c s' => String (if Ascii.eqb c "`" then dquote else c) (q s')
  end.

(** A literal that spans several source lines. *)
Definition text (ls : list string) : string := String.concat nl ls.

(** Truth value of a [str | None]: [None] and the empty string are false. *)
Definition truthy (p : option string) : bool :=
  match p with
  | Some s => negb (String.eqb s "")
  | None => false
  end.

(** The number of places at which [pat] occurs in [s]. *)
Fixpoint count (pat s : string) : nat :=
  match s with
  | EmptyString => 0
  | String _ s' => (if String.prefix pat s then 1 else 0) + count pat s'
  end.

(** The first table cell of a row, the same f-string in both generators;
    [b] is the BaseKey, escaped by the caller. *)
Definition src_cell (b chinese_img : string) : string :=
  text [ "";
         "          <td>";
         q "            <div class=`row-title`>" ++ b ++ "</div>";
         q "            <img class=`thumb` src=`" ++ escape chinese_img
           ++ q "` alt=`" ++ b ++ q "`>";
         "          </td>";
         "        " ].

Definition tail : string :=
  text [ "";
         "    </tbody>";
         "  </table>";
         "</body>";
         "</html>";
         "" ].

End Html.

(** [OUTPUT_HTML.write_text(data)]: create or truncate the file.  The text
    is stored as it is: its encoding to UTF-8, which raises
    [UnicodeEncodeError] for a document that holds a file name that is not
    UTF-8, is not part of the model. *)
Fixpoint set_entry (x : string) (n : node) (es : list (string * node))
    : list (string * node) :=
  match es with
  | [] => [(x, n)]
  | (y, m) :: es' =>
      if String.eqb x y then (y, n) :: es' else (y, m) :: set_entry x n es'
  end.

Fixpoint write_text (fs : node) (p : path) (data : string) : result node :=
  match p with
  | [] =>
      match fs with
      | File _ => Ok (File data)
      | Dir _ => Err IsADirectoryError
      end
  | x :: p' =>
      match fs with
      | File _ => Err NotADirectoryError
      | Dir es =>
          match lookup_entry x es with
          | Some c =>
              c' <- write_text c p' data ;;
              Ok (Dir (set_entry x c' es))
          | None =>
              match p' with
              | [] => Ok (Dir (set_entry x (File data) es))
              | _ :: _ => Err FileNotFoundError
              end
          end
      end
  end.

(** [list_dirs] of pipeline 1: the names of the sub-directories, a Python
    [set] of which only membership is ever asked. *)
Definition list_dirs (fs : node) (directory : path) : result (list string) :=
  if negb (Path.exists_ fs directory) then Ok []
  else
    ps <- Path.iterdir fs directory ;;
    Ok (map Path.name (filter (Path.is_dir fs) ps)).

Definition PROJECT_ROOT : path := [].
Definition CHINESE_DIR : path := Path.joinpath PROJECT_ROOT "Chinese".

(** The extensions in the order both resolvers try them. *)
Definition EXTS : list string := [".png"; ".jpg"; ".jpeg"; ".webp"].

(** The three file-name templates of a BaseKey and a method. *)
Definition roots_of (base method : string) : list string :=
  [ (base ++ "_" ++ method ++ "_cam")%string;
    (base ++ "_" ++ method ++ "_cam_gb")%string;
    (base ++ "_" ++ method ++ "_gb")%string ].

(** The inner loop of both resolvers,
    [for ext in (".png", ".jpg", ".jpeg", ".webp")]: it leaves at the first
    candidate that exists. *)
Fixpoint probe_exts (fs : node) (dir_path : path) (root : string)
    (exts : list string) : option string :=
  match exts with
  | [] => None
  | ext :: exts' =>
      let candidate := Path.joinpath dir_path (root ++ ext)%string in
      if Path.exists_ fs candidate
      then Some (Path.as_posix candidate)
      else probe_exts fs dir_path root exts'
  end.

(** ** Pipeline 1: generate_gallery.py *)

Module Gallery.

Definition LAYERCAM_DIR : path := Path.joinpath PROJECT_ROOT "layercam".
Definition SCORECAM_DIR : path := Path.joinpath PROJECT_ROOT "scorecam".
Definition HIRESCAM_DIR : path := Path.joinpath PROJECT_ROOT "hirescam".
Definition OUTPUT_HTML : path := Path.joinpath PROJECT_ROOT "index.html".

(** [for root in roots: ... results.append(chosen)] *)
Fixpoint pick_loop (fs : node) (dir_path : path) (roots : list string)
    (results : list (option string)) : list (option string) :=
  match roots with
  | [] => results
  | root :: roots' =>
      let chosen := probe_exts fs dir_path root EXTS in
      pick_loop fs dir_path roots' (results ++ [chosen])
  end.

Definition pick_method_images (fs : node) (dir_path : path)
    (base method : string) : list (option string) :=
  if negb (Path.exists_ fs dir_path) then [None; None; None]
  else pick_loop fs dir_path (roots_of base method) [].

Record row : Type := mkRow {
  base : string;
  chinese : string;
  layercam3 : list (option string);
  hirescam3 : list (option string);
  scorecam3 : list (option string)
}.

(** The three slots of one method, guarded by [base in <method>_dirs]. *)
Definition method_slots (fs : node) (dirs : list string) (method_dir : path)
    (b method : string) : list (option string) :=
  if in_set b dirs
  then pick_method_images fs (Path.joinpath method_dir b) b method
  else [None; None; None].

(** The body of [for src in chinese_images]. *)
Definition build_row (fs : node) (layer_dirs score_dirs hires_dirs : list string)
    (src : path) : row :=
  let b := Path.stem src in
  let chinese_rel := Path.as_posix src in
  let layer_imgs3 := method_slots fs layer_dirs LAYERCAM_DIR b "layercam" in
  let score_imgs3 := method_slots fs score_dirs SCORECAM_DIR b "scorecam" in
  let hires_imgs3 := method_slots fs hires_dirs HIRESCAM_DIR b "hirescam" in
  {| base := b;
     chinese := chinese_rel;
     layercam3 := layer_imgs3;
     hirescam3 := hires_imgs3;
     scorecam3 := score_imgs3 |}.

Definition build_rows (fs : node) : result (list row) :=
  chinese_images <- list_images fs CHINESE_DIR ;;
  layer_dirs <- list_dirs fs LAYERCAM_DIR ;;
  score_dirs <- list_dirs fs SCORECAM_DIR ;;
  hires_dirs <- list_dirs fs HIRESCAM_DIR ;;
  Ok (map (build_row fs layer_dirs score_dirs hires_dirs) chinese_images).

(** *** Rendering *)

Import Html.
Local Open Scope string_scope.

Definition css : string :=
  text [ "";
         "    body { font-family: system-ui, -apple-system, Segoe UI, Roboto, Arial, sans-serif; margin: 16px; }";
         "    h1 { font-size: 20px; margin: 0 0 12px; }";
         "    .meta { color: #666; font-size: 12px; margin-bottom: 16px; }";
         "    table { border-collapse: collapse; width: 100%; table-layout: fixed; }";
         "    thead th { position: sticky; top: 0; background: #fafafa; z-index: 1; }";
         "    th, td { border: 1px solid #e5e5e5; vertical-align: top; padding: 6px; }";
         "    td:first-child, th:first-child { width: 240px; }";
         "    img.thumb { max-width: 100%; height: auto; display: block; }";
         "    .row-title { font-weight: 600; font-size: 12px; color: #333; margin-bottom: 6px; word-break: break-all; min-height: 1em; }";
         "    .scroller { max-height: 480px; overflow: auto; }";
         "    " ].

(** The f-string [head], cut in two after the line that holds [len(rows)]:
    what precedes the table, and the table's opening with its header row. *)
Definition preamble (rows : list row) : string :=
  text [ "<!doctype html>";
         q "<html lang=`en`>";
         "<head>";
         q "  <meta charset=`utf-8`>";
         q "  <meta name=`viewport` content=`width=device-width, initial-scale=1`>";
         "  <title>Pattern Viz Grid</title>";
         "  <style>" ++ css ++ "</style>";
         "</head>";
         "<body>";
         "  <h1>Pattern Viz Grid</h1>";
         q "  <div class=`meta`>Column 1: Chinese source. Then LayerCAM images. Then ScoreCAM images. Total rows: "
           ++ Str.of_nat (List.length rows) ++ "</div>";
         "" ].

Definition thead : string :=
  text [ "  <table>";
         "    <thead>";
         "      <tr>";
         "        <th>Source (Chinese)</th>";
         "        <th>LayerCAM 1</th>";
         "        <th>LayerCAM 2</th>";
         "        <th>LayerCAM 3</th>";
         "        <th>HiresCAM 1</th>";
         "        <th>HiresCAM 2</th>";
         "        <th>HiresCAM 3</th>";
         "        <th>ScoreCAM 1</th>";
         "        <th>ScoreCAM 2</th>";
         "        <th>ScoreCAM 3</th>";
         "      </tr>";
         "    </thead>";
         "    <tbody>";
         "" ].

Definition head (rows : list row) : string := preamble rows ++ thead.

(** One cell of [for p in <method>_imgs3]; the three loops of the source
    differ in the method label only.  [b] is the escaped BaseKey. *)
Definition method_cell (label b : string) (p : option string) : string :=
  match p with
  | Some s =>
      if negb (String.eqb s "")
      then q "<td><div class=`row-title`></div><img class=`thumb` src=`"
             ++ escape s ++ q "` alt=`" ++ b ++ " " ++ label ++ q "`></td>"
      else q "<td><div class=`row-title`></div></td>"
  | None => q "<td><div class=`row-title`></div></td>"
  end.

(** The list [cells] at the end of the loop body. *)
Definition row_cells (r : row) : list string :=
  let b := escape (base r) in
  ([src_cell b (chinese r)]
     ++ map (method_cell "LayerCAM" b) (layercam3 r)
     ++ map (method_cell "HiresCAM" b) (hirescam3 r)
     ++ map (method_cell "ScoreCAM" b) (scorecam3 r))%list.

Definition row_html (r : row) : string :=
  "<tr>" ++ nl ++ String.concat nl (row_cells r) ++ nl ++ "</tr>".

Definition render_html (rows : list row) : string :=
  head rows ++ String.concat nl (map row_html rows) ++ tail.

(** [main]: the new file system and the line printed; [root] is
    [str(PROJECT_ROOT)], for a project root other than [/] (there [str]
    writes one slash, not two). *)
Definition main (root : string) (fs : node) : result (node * string) :=
  rows <- build_rows fs ;;
  let html_str := render_html rows in
  fs' <- write_text fs OUTPUT_HTML html_str ;;
  Ok (fs', "Wrote " ++ root ++ "/" ++ Path.as_posix OUTPUT_HTML).

End Gallery.

(** ** Pipeline 2: generate_gallery_resnet50.py *)

Module ResNet50.

Definition BASE_DIR : path := Path.joinpath PROJECT_ROOT "12.17_ResNet50".
Definition SECTIONS : list string :=
  [ "nopretrain_singlecrop";
    "nopretrain_multicrop";
    "pretrain_singlecrop";
    "pretrain_multicrop" ].
Definition OUTPUT_HTML : path := Path.joinpath PROJECT_ROOT "index_resnet50.html".

(** [for root in roots: for ext in ...: if candidate.exists(): return ...] *)
Fixpoint single_loop (fs : node) (dir_path : path) (roots : list string)
    : option string :=
  match roots with
  | [] => None
  | root :: roots' =>
      match probe_exts fs dir_path root EXTS with
      | Some found => Some found
      | None => single_loop fs dir_path roots'
      end
  end.

Definition pick_single_image (fs : node) (dir_path : path)
    (base method : string) : option string :=
  if negb (Path.exists_ fs dir_path) then None
  else single_loop fs dir_path (roots_of base method).

Definition section_entry : Type := (string * option string * option string)%type.

Record row : Type := mkRow {
  base : string;
  chinese : string;
  sections : list section_entry
}.

(** The body of [for section in SECTIONS]. *)
Definition build_section (fs : node) (b : string) (section : string)
    : section_entry :=
  let layer_dir :=
    Path.joinpath (Path.joinpath (Path.joinpath BASE_DIR section) "layercam") b in
  let score_dir :=
    Path.joinpath (Path.joinpath (Path.joinpath BASE_DIR section) "scorecam") b in
  let layer_img := pick_single_image fs layer_dir b "layercam" in
  let score_img := pick_single_image fs score_dir b "scorecam" in
  (section, layer_img, score_img).

Definition build_row (fs : node) (src : path) : row :=
  let b := Path.stem src in
  let chinese_rel := Path.as_posix src in
  {| base := b;
     chinese := chinese_rel;
     sections := map (build_section fs b) SECTIONS |}.

Definition build_rows (fs : node) : result (list row) :=
  chinese_images <- list_images fs CHINESE_DIR ;;
  Ok (map (build_row fs) chinese_images).

(** *** Rendering *)

Import Html.
Local Open Scope string_scope.

Definition css : string :=
  text [ "";
         "    body { font-family: system-ui, -apple-system, Segoe UI, Roboto, Arial, sans-serif; margin: 16px; }";
         "    h1 { font-size: 20px; margin: 0 0 12px; }";
         "    .meta { color: #666; font-size: 12px; margin-bottom: 16px; }";
         "    table { border-collapse: collapse; width: 100%; table-layout: fixed; }";
         "    thead th { position: sticky; top: 0; background: #fafafa; z-index: 1; }";
         "    th, td { border: 1px solid #e5e5e5; vertical-align: top; padding: 6px; }";
         "    td:first-child, th:first-child { width: 220px; }";
         "    img.thumb { max-width: 100%; height: auto; display: block; }";
         "    .row-title { font-weight: 600; font-size: 12px; color: #333; margin-bottom: 6px; word-break: break-all; min-height: 1em; }";
         "    .section-label { font-size: 11px; color: #555; margin-bottom: 4px; }";
         "    " ].

(** [rows[0]]: an [IndexError] on the empty list. *)
Definition first_row (rows : list row) : result row :=
  match nth_error rows 0 with
  | Some r => Ok r
  | None => Err IndexError
  end.

Definition nonempty (rows : list row) : bool :=
  match rows with
  | [] => false
  | _ :: _ => true
  end.

(** [[s for s, _, _ in rows[0]['sections']]] *)
Definition first_row_labels (rows : list row) : result (list string) :=
  r0 <- first_row rows ;;
  Ok (map (fun e => fst (fst e)) (sections r0)).

(** The first expression embedded in the header:
    [''.join(f'<th colspan="2">...</th>' for section in ...) if rows else ''] *)
Definition header_sections (rows : list row) : result string :=
  if nonempty rows then
    labels <- first_row_labels rows ;;
    Ok (String.concat ""
          (map (fun section => q "<th colspan=`2`>" ++ escape section ++ "</th>")
               labels))
  else Ok "".

(** The second one:
    [''.join('<th>LayerCAM</th><th>ScoreCAM</th>' for _ in (... if rows else []))] *)
Definition header_methods (rows : list row) : result string :=
  labels <- (if nonempty rows then first_row_labels rows else Ok []) ;;
  Ok (String.concat "" (map (fun _ => "<th>LayerCAM</th><th>ScoreCAM</th>") labels)).

Definition head (rows : list row) : result string :=
  hs <- header_sections rows ;;
  hm <- header_methods rows ;;
  Ok (text [ "<!doctype html>";
             q "<html lang=`en`>";
             "<head>";
             q "  <meta charset=`utf-8`>";
             q "  <meta name=`viewport` content=`width=device-width, initial-scale=1`>";
             "  <title>Pattern Viz Grid (ResNet50)</title>";
             "  <style>" ++ css ++ "</style>";
             "</head>";
             "<body>";
             "  <h1>Pattern Viz Grid (ResNet50)</h1>";
             q "  <div class=`meta`>Source column: Chinese image. Then 4 sections (nopretrain_singlecrop, nopretrain_multicrop, pretrain_singlecrop, pretrain_multicrop), each with two columns: LayerCAM and ScoreCAM. Total rows: "
               ++ Str.of_nat (List.length rows) ++ "</div>";
             "  <table>";
             "    <thead>";
             "      <tr>";
             "        <th>Source (Chinese)</th>";
             "        " ++ hs;
             "      </tr>";
             "      <tr>";
             "        <th></th>";
             "        " ++ hm;
             "      </tr>";
             "    </thead>";
             "    <tbody>";
             "" ]).

(** One of the two cells of a section; [b] is the escaped BaseKey. *)
Definition section_cell (label b section : string) (img : option string)
    : string :=
  match img with
  | Some s =>
      if negb (String.eqb s "")
      then q "<td><img class=`thumb` src=`" ++ escape s ++ q "` alt=`"
             ++ b ++ " " ++ escape section ++ " " ++ label ++ q "`></td>"
      else "<td></td>"
  | None => "<td></td>"
  end.

(** [for section, layer_img, score_img in sections]: two cells each. *)
Definition section_cells (b : string) (e : section_entry) : list string :=
  let '(section, layer_img, score_img) := e in
  [ section_cell "LayerCAM" b section layer_img;
    section_cell "ScoreCAM" b section score_img ].

Definition row_cells (r : row) : list string :=
  let b := escape (base r) in
  src_cell b (chinese r) :: flat_map (section_cells b) (sections r).

Definition row_html (r : row) : string :=
  "<tr>" ++ nl ++ String.concat nl (row_cells r) ++ nl ++ "</tr>".

Definition render_html (rows : list row) : result string :=
  h <- head rows ;;
  Ok (h ++ String.concat nl (map row_html rows) ++ tail).

Definition main (root : string) (fs : node) : result (node * string) :=
  rows <- build_rows fs ;;
  html_str <- render_html rows ;;
  fs' <- write_text fs OUTPUT_HTML html_str ;;
  Ok (fs', "Wrote " ++ root ++ "/" ++ Path.as_posix OUTPUT_HTML).

End ResNet50.

(** * Vocabulary of the properties *)

(** [p <= q] and [p < q] as Python decides them. *)
Definition path_le (p q : path) : Prop := Path.ltb q p = false.
Definition path_lt (p q : path) : Prop := Path.ltb p q = true.

(** A cursor all of whose nodes are well formed. *)
Definition wf_cursor (c : cursor) : Prop :=
  wf_node (snd c) = true /\ Forall (fun n => wf_node n = true) (fst c).

(** "Lexicographic by filename", strictly: a directory holds a name once. *)
Definition name_lt (p q : path) : Prop :=
  String.ltb (Path.name p) (Path.name q) = true.

(** The extension of a name is allowed, letter case ignored. *)
Definition allowed_name (n : string) : Prop :=
  In (Str.lower (Path.suffix_of n)) ALLOWED_EXTS.

(** A small project tree: two source images next to files the enumerator
    skips, variants for one of them in both pipelines. *)
Definition example_fs : node :=
  Dir [ ("Chinese",
         Dir [ ("b_02.PNG", File "");
               ("A_0001.png", File "");
               ("._A_0001.png", File "");
               ("notes.txt", File "");
               ("old.png", Dir []) ]);
        ("layercam",
         Dir [ ("A_0001", Dir [ ("A_0001_layercam_cam.jpg", File "") ]);
               ("b_02", Dir [ ("b_02_layercam_gb.webp", File "") ]) ]);
        ("scorecam", Dir []);
        ("12.17_ResNet50",
         Dir [ ("pretrain_multicrop",
                Dir [ ("layercam",
                       Dir [ ("A_0001",
                              Dir [ ("A_0001_layercam_gb.png", File "");
                                    ("A_0001_layercam_cam_gb.jpeg", File "") ]) ]) ]) ]) ].

(** The candidate path the resolvers probe for a template and an extension. *)
Definition candidate (d : path) (root ext : string) : path :=
  Path.joinpath d (root ++ ext)%string.







(** [s.endswith(suf)] *)
Definition endswith (s suf : string) : bool :=
  String.eqb
    (String.substring (String.length s - String.length suf) (String.length suf) s)
    suf.

(** A document from the doctype to the closing [html] tag. *)
Definition complete_document (doc : string) : Prop :=
  String.prefix "<!doctype html>" doc = true
  /\ endswith doc ("</html>" ++ Html.nl)%string = true.

(** The section labels of a row of pipeline 2. *)
Definition labels (r : ResNet50.row) : list string :=
  map (fun e => fst (fst e)) (ResNet50.sections r).

(** [html.escape] character by character: the five characters it replaces,
    each by its reference. *)
Definition escape_char (c : ascii) : string :=
  if Ascii.eqb c "&" then "&amp;"
  else if Ascii.eqb c "<" then "&lt;"
  else if Ascii.eqb c ">" then "&gt;"
  else if Ascii.eqb c Html.dquote then "&quot;"
  else if Ascii.eqb c Html.squote then "&#x27;"
  else String c "".

Fixpoint escape_chars (s : string) : string :=
  match s with
  | EmptyString => EmptyString
  | String c s' => (escape_char c ++ escape_chars s')%string
  end.

(** The characters that delimit tags and attribute values. *)
Definition markup (c : ascii) : bool :=
  Ascii.eqb c "<" || Ascii.eqb c ">" || Ascii.eqb c Html.dquote
  || Ascii.eqb c Html.squote.

(** The markup skeleton of a document: its delimiters, in order. *)
Fixpoint skeleton (s : string) : string :=
  match s with
  | EmptyString => EmptyString
  | String c s' => if markup c then String c (skeleton s') else skeleton s'
  end.

(** Every ampersand of [s] starts one of the five references that
    [html.escape] writes. *)
Fixpoint amp_ok (s : string) : bool :=
  match s with
  | EmptyString => true
  | String c s' =>
      (if Ascii.eqb c "&"
       then String.prefix "amp;" s' || String.prefix "lt;" s'
            || String.prefix "gt;" s' || String.prefix "quot;" s'
            || String.prefix "#x27;" s'
       else true)
      && amp_ok s'
  end.

(** The shape of a row: which of its slots show an image. *)
Definition shape1 (r : Gallery.row)
    : list bool * list bool * list bool :=
  (map Html.truthy (Gallery.layercam3 r),
   map Html.truthy (Gallery.hirescam3 r),
   map Html.truthy (Gallery.scorecam3 r)).

Definition shape2 (r : ResNet50.row) : list (bool * bool) :=
  map (fun e => (Html.truthy (snd (fst e)), Html.truthy (snd e)))
      (ResNet50.sections r).

(** A row of pipeline 1 with the three slots per method of the data model. *)
Definition three_slots (r : Gallery.row) : Prop :=
  List.length (Gallery.layercam3 r) = 3
  /\ List.length (Gallery.hirescam3 r) = 3
  /\ List.length (Gallery.scorecam3 r) = 3.

(** The cells of a piece of the table body. *)
Definition td_count (s : string) : nat := Html.count "<td" s.

(** A piece of text that can be put in front of any other without breaking
    a character reference. *)
Definition amp_closed (s : string) : Prop :=
  forall r, amp_ok (s ++ r)%string = amp_ok r.

(** [os.path.isabs] on POSIX. *)
Definition isabs (s : string) : bool := String.prefix "/" s.

(** A part that [Path] keeps as it is: not empty, not ["."], no separator. *)
Definition clean (x : string) : bool :=
  negb (String.eqb x "") && negb (String.eqb x ".")
  && negb (Str.contains Str.slash x).

(** The slots that hold a reference. *)
Fixpoint present (l : list (option string)) : list string :=
  match l with
  | [] => []
  | Some s :: l' => s :: present l'
  | None :: l' => present l'
  end.

(** The image references of a row: its source and its resolved variants. *)
Definition refs1 (r : Gallery.row) : list string :=
  Gallery.chinese r
  :: present (Gallery.layercam3 r ++ Gallery.hirescam3 r ++ Gallery.scorecam3 r).

Definition refs2 (r : ResNet50.row) : list string :=
  ResNet50.chinese r
  :: present (flat_map (fun e => [snd (fst e); snd e]) (ResNet50.sections r)).

(** A reference is relative and, read from the directory of the output
    document, which is [PROJECT_ROOT], leads to an entry of the tree. *)
Definition resolves_from_output (fs : node) (ref : string) : Prop :=
  isabs ref = false
  /\ Path.exists_ fs (Path.joinpath PROJECT_ROOT ref) = true.

(** A tree whose only variant files spell their extension in capitals. *)
Definition capitals_fs : node :=
  Dir [ ("Chinese", Dir [ ("A_0001.PNG", File "") ]);
        ("layercam",
         Dir [ ("A_0001", Dir [ ("A_0001_layercam_cam.PNG", File "") ]) ]);
        ("12.17_ResNet50",
         Dir [ ("pretrain_multicrop",
                Dir [ ("layercam",
                       Dir [ ("A_0001",
                              Dir [ ("A_0001_layercam_cam.PNG", File "") ]) ]) ]) ]) ].

(** A reference that a resolver returns: the text of a candidate of the
    BaseKey and method that exists, its extension one of the four spellings
    of [EXTS] as they are written there. *)
Definition probed_ref (fs : node) (d : path) (b m ref : string) : Prop :=
  exists root ext,
    In root (roots_of b m) /\ In ext EXTS
    /\ ref = Path.as_posix (candidate d root ext)
    /\ Path.exists_ fs (candidate d root ext) = true.

(** Two trees are the same state of the file system when they hold the same
    entries with the same contents; the order in which a directory lists its
    entries is not part of the state. *)
Fixpoint same_state (a b : node) : bool :=
  match a, b with
  | File x, File y => String.eqb x y
  | Dir es, Dir es' =>
      forallb (fun e =>
                 match lookup_entry (fst e) es' with
                 | Some n' => same_state (snd e) n'
                 | None => false
                 end) es
      && forallb (fun e' =>
                    match lookup_entry (fst e') es with
                    | Some _ => true
                    | None => false
                    end) es'
  | _, _ => false
  end.

(** Cursors that went the same way through two trees in the same state. *)
Definition same_cursor (c c' : cursor) : Prop :=
  same_state (snd c) (snd c') = true
  /\ Forall2 (fun a a' => same_state a a' = true) (fst c) (fst c').

Definition same_result (o o' : option node) : Prop :=
  match o, o' with
  | Some n, Some n' => same_state n n' = true
  | None, None => True
  | _, _ => False
  end.

(** The documents the two generators compute from a file system. *)
Definition document1 (fs : node) : result string :=
  rows <- Gallery.build_rows fs ;; Ok (Gallery.render_html rows).

Definition document2 (fs : node) : result string :=
  rows <- ResNet50.build_rows fs ;; ResNet50.render_html rows.

(** [example_fs] with every directory listed in another order. *)
Definition example_fs_reordered : node :=
  Dir [ ("12.17_ResNet50",
         Dir [ ("pretrain_multicrop",
                Dir [ ("layercam",
                       Dir [ ("A_0001",
                              Dir [ ("A_0001_layercam_cam_gb.jpeg", File "");
                                    ("A_0001_layercam_gb.png", File "") ]) ]) ]) ]);
        ("scorecam", Dir []);
        ("Chinese",
         Dir [ ("old.png", Dir []);
               ("A_0001.png", File "");
               ("notes.txt", File "");
               ("b_02.PNG", File "");
               ("._A_0001.png", File "") ]);
        ("layercam",
         Dir [ ("b_02", Dir [ ("b_02_layercam_gb.webp", File "") ]);
               ("A_0001", Dir [ ("A_0001_layercam_cam.jpg", File "") ]) ]) ].

(** * Vocabulary of the further properties *)

(** The first slot that holds a reference. *)
Fixpoint first_present (l : list (option string)) : option string :=
  match l with
  | [] => None
  | Some s :: _ => Some s
  | None :: l' => first_present l'
  end.

(** The three slots pipeline 1 gives a method directory [md] and a BaseKey
    [b]: resolved in [md/b] when [b] names a sub-directory of [md], absent
    otherwise. *)
Definition guarded_slots (fs : node) (md : path) (b m : string)
    : list (option string) :=
  if valid_name b && Path.is_dir fs (md ++ [b])
  then Gallery.pick_method_images fs (Path.joinpath md b) b m
  else [None; None; None].

(** How a source reference is made of its BaseKey: the source directory,
    the BaseKey, and an extension that is allowed once lowered.  The BaseKey
    is not empty, holds no separator and does not start with ["._"]. *)
Definition source_of_basekey (b ref : string) : Prop :=
  exists ext,
    ref = ("Chinese/" ++ b ++ ext)%string
    /\ In (Str.lower ext) ALLOWED_EXTS
    /\ b <> ""
    /\ Str.contains Str.slash b = false
    /\ String.prefix "._" b = false.

(** [ref < ref'] on the text of two references. *)
Definition ref_lt (ref ref' : string) : Prop := String.ltb ref ref' = true.

(** A path that, read from a directory [depth] levels below the root, never
    climbs back to the root. *)
Fixpoint descends (depth : nat) (q : list string) : bool :=
  match q with
  | [] => true
  | x :: q' =>
      if String.eqb x "." then descends depth q'
      else if String.eqb x ".." then
        match depth with
        | S (S d) => descends (S d) q'
        | _ => false
        end
      else descends (S depth) q'
  end.

(** Two cursors below the roots of two trees, at the same node, the
    directories passed being the same up to the root itself. *)
Definition below (root root1 : node) (c c1 : cursor) : Prop :=
  snd c = snd c1
  /\ exists anc, fst c = anc ++ [root] /\ fst c1 = anc ++ [root1].


(** [s] holds [k] occurrences of [pat], wherever it is put in front of
    another text: none of them runs over the end of [s]. *)
Definition counts (pat s : string) (k : nat) : Prop :=
  forall r, Html.count pat (s ++ r)%string = k + Html.count pat r.

(** What a reader of HTML makes of a text in which the five references of
    [html.escape] stand for their characters; [skip] characters of a
    reference just read are still to be passed over. *)
Fixpoint decode_from (skip : nat) (s : string) : string :=
  match s with
  | EmptyString => EmptyString
  | String c s' =>
      match skip with
      | S k => decode_from k s'
      | 0 =>
          if Ascii.eqb c "&" then
            if String.prefix "amp;" s' then String "&" (decode_from 4 s')
            else if String.prefix "lt;" s' then String "<" (decode_from 3 s')
            else if String.prefix "gt;" s' then String ">" (decode_from 3 s')
            else if String.prefix "quot;" s'
                 then String Html.dquote (decode_from 5 s')
            else if String.prefix "#x27;" s'
                 then String Html.squote (decode_from 5 s')
            else String c (decode_from 0 s')
          else String c (decode_from 0 s')
      end
  end.

Definition decode (s : string) : string := decode_from 0 s.

(** A slot is shown as an image exactly when it holds a reference. *)
Definition shown_iff_resolved (p : option string) : Prop :=
  Html.truthy p = match p with Some _ => true | None => false end.

(** * The same calls with the errors the operating system adds

    [Path.exists()], [is_file()] and [is_dir()] of Python 3.12 and 3.13
    answer [False] for [ENOENT] and [ENOTDIR] and re-raise every other
    [OSError].  Name resolution fails with [ENAMETOOLONG] when it is to look
    up, in a directory, a component longer than [NAME_MAX] bytes.  The
    functions above are the code on paths whose components fit; the ones
    below add the raise, and are equal to them on such paths.  (The length
    of the whole path is taken to stay below [PATH_MAX].) *)

Module Os.

(** [NAME_MAX] of ext4, XFS, Btrfs, tmpfs, APFS. *)
Definition NAME_MAX : nat := 255.

Definition too_long (x : string) : bool := Nat.ltb NAME_MAX (String.length x).

Fixpoint walk (c : cursor) (p : list string) : result (option cursor) :=
  match p with
  | [] => Ok (Some c)
  | x :: p' =>
      match snd c with
      | File _ => Ok None
      | Dir _ =>
          if too_long x then Err OSError_ENAMETOOLONG
          else match step c x with
               | Some c' => walk c' p'
               | None => Ok None
               end
      end
  end.

Definition stat (fs : node) (p : path) : result (option node) :=
  o <- walk ([], fs) p ;; Ok (option_map snd o).

Definition exists_ (fs : node) (p : path) : result bool :=
  o <- stat fs p ;;
  Ok (match o with Some _ => true | None => false end).

Definition is_file (fs : node) (p : path) : result bool :=
  o <- stat fs p ;;
  Ok (match o with Some (File _) => true | _ => false end).

Definition is_dir (fs : node) (p : path) : result bool :=
  o <- stat fs p ;;
  Ok (match o with Some (Dir _) => true | _ => false end).

Definition iterdir (fs : node) (p : path) : result (list path) :=
  o <- stat fs p ;;
  match o with
  | Some (Dir es) => Ok (map (fun e => p ++ [fst e]) es)
  | Some (File _) => Err NotADirectoryError
  | None => Err FileNotFoundError
  end.

(** [[x for x in l if f(x)]] with an [f] that can raise. *)
Fixpoint filter_ {A : Type} (f : A -> result bool) (l : list A) : result (list A) :=
  match l with
  | [] => Ok []
  | x :: l' =>
      keep <- f x ;;
      rest <- filter_ f l' ;;
      Ok (if keep then x :: rest else rest)
  end.

(** [for x in l: rows.append(f(x))] with an [f] that can raise. *)
Fixpoint for_each {A B : Type} (f : A -> result B) (l : list A) : result (list B) :=
  match l with
  | [] => Ok []
  | x :: l' =>
      y <- f x ;;
      ys <- for_each f l' ;;
      Ok (y :: ys)
  end.

(** [p.is_file() and p.suffix.lower() in ALLOWED_EXTS and not ...]: the
    test that can raise comes first. *)
Definition image_filter (fs : node) (p : path) : result bool :=
  f <- is_file fs p ;;
  Ok (f && in_set (Str.lower (Path.suffix p)) ALLOWED_EXTS
        && negb (String.prefix "._" (Path.name p))).

Definition list_images (fs : node) (directory : path) : result (list path) :=
  found <- exists_ fs directory ;;
  if negb found then Ok []
  else
    ps <- iterdir fs directory ;;
    files <- filter_ (image_filter fs) ps ;;
    Ok (sorted files).

Definition list_dirs (fs : node) (directory : path) : result (list string) :=
  found <- exists_ fs directory ;;
  if negb found then Ok []
  else
    ps <- iterdir fs directory ;;
    dirs <- filter_ (is_dir fs) ps ;;
    Ok (map Path.name dirs).

Fixpoint probe_exts (fs : node) (dir_path : path) (root : string)
    (exts : list string) : result (option string) :=
  match exts with
  | [] => Ok None
  | ext :: exts' =>
      let candidate := Path.joinpath dir_path (root ++ ext)%string in
      found <- exists_ fs candidate ;;
      if found then Ok (Some (Path.as_posix candidate))
      else probe_exts fs dir_path root exts'
  end.

End Os.

Module GalleryOs.

Fixpoint pick_loop (fs : node) (dir_path : path) (roots : list string)
    (results : list (option string)) : result (list (option string)) :=
  match roots with
  | [] => Ok results
  | root :: roots' =>
      chosen <- Os.probe_exts fs dir_path root EXTS ;;
      pick_loop fs dir_path roots' (results ++ [chosen])
  end.

Definition pick_method_images (fs : node) (dir_path : path)
    (base method : string) : result (list (option string)) :=
  found <- Os.exists_ fs dir_path ;;
  if negb found then Ok [None; None; None]
  else pick_loop fs dir_path (roots_of base method) [].

Definition method_slots (fs : node) (dirs : list string) (method_dir : path)
    (b method : string) : result (list (option string)) :=
  if in_set b dirs
  then pick_method_images fs (Path.joinpath method_dir b) b method
  else Ok [None; None; None].

Definition build_row (fs : node) (layer_dirs score_dirs hires_dirs : list string)
    (src : path) : result Gallery.row :=
  let b := Path.stem src in
  let chinese_rel := Path.as_posix src in
  layer_imgs3 <- method_slots fs layer_dirs Gallery.LAYERCAM_DIR b "layercam" ;;
  score_imgs3 <- method_slots fs score_dirs Gallery.SCORECAM_DIR b "scorecam" ;;
  hires_imgs3 <- method_slots fs hires_dirs Gallery.HIRESCAM_DIR b "hirescam" ;;
  Ok {| Gallery.base := b;
        Gallery.chinese := chinese_rel;
        Gallery.layercam3 := layer_imgs3;
        Gallery.hirescam3 := hires_imgs3;
        Gallery.scorecam3 := score_imgs3 |}.

Definition build_rows (fs : node) : result (list Gallery.row) :=
  chinese_images <- Os.list_images fs CHINESE_DIR ;;
  layer_dirs <- Os.list_dirs fs Gallery.LAYERCAM_DIR ;;
  score_dirs <- Os.list_dirs fs Gallery.SCORECAM_DIR ;;
  hires_dirs <- Os.list_dirs fs Gallery.HIRESCAM_DIR ;;
  Os.for_each (build_row fs layer_dirs score_dirs hires_dirs) chinese_images.

End GalleryOs.

Module ResNet50Os.

Fixpoint single_loop (fs : node) (dir_path : path) (roots : list string)
    : result (option string) :=
  match roots with
  | [] => Ok None
  | root :: roots' =>
      chosen <- Os.probe_exts fs dir_path root EXTS ;;
      match chosen with
      | Some found => Ok (Some found)
      | None => single_loop fs dir_path roots'
      end
  end.

Definition pick_single_image (fs : node) (dir_path : path)
    (base method : string) : result (option string) :=
  found <- Os.exists_ fs dir_path ;;
  if negb found then Ok None
  else single_loop fs dir_path (roots_of base method).

Definition build_section (fs : node) (b : string) (section : string)
    : result ResNet50.section_entry :=
  let layer_dir :=
    Path.joinpath (Path.joinpath (Path.joinpath ResNet50.BASE_DIR section) "layercam") b in
  let score_dir :=
    Path.joinpath (Path.joinpath (Path.joinpath ResNet50.BASE_DIR section) "scorecam") b in
  layer_img <- pick_single_image fs layer_dir b "layercam" ;;
  score_img <- pick_single_image fs score_dir b "scorecam" ;;
  Ok (section, layer_img, score_img).

Definition build_row (fs : node) (src : path) : result ResNet50.row :=
  let b := Path.stem src in
  let chinese_rel := Path.as_posix src in
  section_images <- Os.for_each (build_section fs b) ResNet50.SECTIONS ;;
  Ok {| ResNet50.base := b;
        ResNet50.chinese := chinese_rel;
        ResNet50.sections := section_images |}.

Definition build_rows (fs : node) : result (list ResNet50.row) :=
  chinese_images <- Os.list_images fs CHINESE_DIR ;;
  Os.for_each (build_row fs) chinese_images.

End ResNet50Os.

(** A path whose components fit [NAME_MAX]. *)
Definition fits (p : list string) : bool :=
  forallb (fun x => negb (Os.too_long x)) p.

(** A tree a file system can hold: no entry name beyond [NAME_MAX]. *)
Fixpoint names_fit (n : node) : bool :=
  match n with
  | File _ => true
  | Dir es =>
      forallb (fun e => negb (Os.too_long (fst e)) && names_fit (snd e)) es
  end.

(** Every node a cursor holds is a tree whose names fit. *)
Definition names_fit_cursor (c : cursor) : Prop :=
  names_fit (snd c) = true /\ Forall (fun n => names_fit n = true) (fst c).

Definition METHODS : list string := ["layercam"; "scorecam"; "hirescam"].

(** The file names the resolvers probe for a BaseKey. *)
Definition candidate_names (b : string) : list string :=
  flat_map (fun m =>
              flat_map (fun root => map (fun ext => (root ++ ext)%string) EXTS)
                       (roots_of b m))
           METHODS.

(** None of them is beyond [NAME_MAX]: the BaseKey has at most 234 bytes. *)
Definition candidates_fit (src : path) : bool :=
  fits (candidate_names (Path.stem src)).

(** A tree in which [layercam] is a regular file. *)
Definition method_file_fs : node :=
  Dir [ ("Chinese", Dir [ ("A.png", File "") ]);
        ("layercam", File "") ].

(** A BaseKey of 240 bytes, and a tree with a source image of that BaseKey
    and its candidate directory for [layercam] in both pipelines, empty. *)
Definition long_key : string := String.concat "" (repeat "n" 240).

Definition long_name_fs : node :=
  Dir [ ("Chinese", Dir [ ((long_key ++ ".png")%string, File "") ]);
        ("layercam", Dir [ (long_key, Dir []) ]);
        ("12.17_ResNet50",
         Dir [ ("nopretrain_singlecrop",
                Dir [ ("layercam", Dir [ (long_key, Dir []) ]) ]) ]) ].

(** * What a reader of HTML takes for the images of a document

    A reader goes through the document character by character: it is in the
    text between tags, inside a tag where it reads the name of an attribute,
    behind the [=] of an attribute, or inside the double-quoted value of one,
    which ends at the next double quote.  The [src] attributes of a document
    are the values it reads for attributes of that name, in order, character
    references still in them.  (Both generators write every attribute as
    [name="value"].) *)

Inductive lexer : Type :=
| InText
| InTag (name : string)
| AfterEq (name : string)
| InValue (name value : string).

Definition is_space (c : ascii) : bool :=
  Ascii.eqb c " " || Ascii.eqb c (ascii_of_nat 9) || Ascii.eqb c (ascii_of_nat 10)
  || Ascii.eqb c (ascii_of_nat 12) || Ascii.eqb c (ascii_of_nat 13).

(** One character: the new state and the values completed by it. *)
Definition lex (st : lexer) (c : ascii) : lexer * list string :=
  match st with
  | InText => (if Ascii.eqb c "<" then InTag "" else InText, [])
  | InTag name =>
      if Ascii.eqb c ">" then (InText, [])
      else if Ascii.eqb c "=" then (AfterEq name, [])
      else if is_space c then (InTag "", [])
      else (InTag (name ++ String c ""), [])
  | AfterEq name =>
      if Ascii.eqb c Html.dquote then (InValue name "", [])
      else if Ascii.eqb c ">" then (InText, [])
      else if is_space c then (AfterEq name, [])
      else (InTag "", [])
  | InValue name value =>
      if Ascii.eqb c Html.dquote
      then (InTag "", if String.eqb (Str.lower name) "src" then [value] else [])
      else (InValue name (value ++ String c ""), [])
  end.

Fixpoint run (st : lexer) (s : string) : list string * lexer :=
  match s with
  | EmptyString => ([], st)
  | String c s' =>
      let (st1, out) := lex st c in
      let (outs, st2) := run st1 s' in
      (out ++ outs, st2)
  end.

Definition src_attributes (doc : string) : list string := fst (run InText doc).

(** Reading [s] in state [st] completes the values [outs] and ends in [st']. *)
Definition reads (st : lexer) (s : string) (outs : list string) (st' : lexer)
    : Prop :=
  run st s = (outs, st').

(** The reference the cell of a slot shows: none for [None] and for the
    empty string. *)
Definition cell_ref (p : option string) : list string :=
  match p with
  | Some s => if negb (String.eqb s "") then [s] else []
  | None => []
  end.

(** The references the rendered row of a row record shows. *)
Definition shown1 (r : Gallery.row) : list string :=
  Gallery.chinese r
  :: flat_map cell_ref
       (Gallery.layercam3 r ++ Gallery.hirescam3 r ++ Gallery.scorecam3 r).

Definition shown2 (r : ResNet50.row) : list string :=
  ResNet50.chinese r
  :: flat_map cell_ref
       (flat_map (fun e => [snd (fst e); snd e]) (ResNet50.sections r)).

(** [Path.parent] of a path that has a name. *)
Definition parent (p : path) : path := removelast p.

(** A reference is relative and, read from the directory [dir], leads to an
    entry of the tree. *)
Definition resolves_from (dir : path) (fs : node) (ref : string) : Prop :=
  isabs ref = false
  /\ Path.exists_ fs (Path.joinpath dir ref) = true.

(** * Properties *)

(** ** The order on strings and on paths *)

Lemma str_ltb_lt (a b : string) : String.ltb a b = true <-> String_as_OT.lt a b.
Proof.
  rewrite <- String_as_OT.cmp_lt. unfold String.ltb, String_as_OT.cmp.
  destruct (String.compare a b); split; congruence.
Qed.

Lemma str_ltb_trans (a b c : string) :
  String.ltb a b = true -> String.ltb b c = true -> String.ltb a c = true.
Proof.
  rewrite !str_ltb_lt. apply String_as_OT.lt_trans.
Qed.

Lemma str_ltb_asym (a b : string) :
  String.ltb a b = true -> String.ltb b a = false.
Proof.
  unfold String.ltb. rewrite (String.compare_antisym a b).
  destruct (String.compare b a); simpl; congruence.
Qed.

Lemma str_ltb_irrefl (a : string) : String.ltb a a = false.
Proof.
  destruct (String.ltb a a) eqn:E; [|reflexivity].
  pose proof (str_ltb_asym _ _ E). congruence.
Qed.

Lemma str_ltb_total (a b : string) :
  String.ltb a b = false -> String.ltb b a = false -> a = b.
Proof.
  unfold String.ltb. rewrite (String.compare_antisym a b).
  destruct (String.compare b a) eqn:E; simpl; try congruence.
  intros _ _. symmetry. now apply String.compare_eq_iff.
Qed.

Lemma path_ltb_irrefl (p : path) : Path.ltb p p = false.
Proof.
  induction p as [|x p IH]; simpl; [reflexivity|].
  now rewrite String.eqb_refl.
Qed.

Lemma path_ltb_trans (p q r : path) :
  Path.ltb p q = true -> Path.ltb q r = true -> Path.ltb p r = true.
Proof.
  revert q r. induction p as [|x p IH]; intros [|y q] [|z r]; simpl; try congruence.
  destruct (String.eqb_spec x y) as [->|Hxy].
  - destruct (String.eqb_spec y z) as [->|Hyz]; [apply IH | auto].
  - destruct (String.eqb_spec y z) as [->|Hyz].
    + destruct (String.eqb_spec x z); [congruence | auto].
    + intros H1 H2. pose proof (str_ltb_trans _ _ _ H1 H2) as H3.
      destruct (String.eqb_spec x z) as [->|]; [|assumption].
      pose proof (str_ltb_asym _ _ H1). congruence.
Qed.

Lemma path_ltb_asym (p q : path) : Path.ltb p q = true -> Path.ltb q p = false.
Proof.
  intros H. destruct (Path.ltb q p) eqn:E; [|reflexivity].
  pose proof (path_ltb_trans _ _ _ H E) as H1.
  rewrite path_ltb_irrefl in H1. discriminate.
Qed.

Lemma path_ltb_total (p q : path) :
  Path.ltb p q = false -> Path.ltb q p = false -> p = q.
Proof.
  revert q. induction p as [|x p IH]; intros [|y q]; simpl; try congruence.
  rewrite (String.eqb_sym y x).
  destruct (String.eqb_spec x y) as [->|Hxy].
  - intros H1 H2. f_equal. now apply IH.
  - intros H1 H2. elim Hxy. now apply str_ltb_total.
Qed.

(** Paths of one directory compare like their names. *)
Lemma path_ltb_siblings (d : path) (a b : string) :
  Path.ltb (d ++ [a]) (d ++ [b]) = String.ltb a b.
Proof.
  induction d as [|x d IH]; simpl.
  - destruct (String.eqb_spec a b) as [->|]; [|reflexivity].
    now rewrite str_ltb_irrefl.
  - now rewrite String.eqb_refl.
Qed.

Lemma name_snoc (d : path) (a : string) : Path.name (d ++ [a]) = a.
Proof. unfold Path.name. apply last_last. Qed.

(** ** [sorted] *)

Lemma path_le_trans (p q r : path) : path_le p q -> path_le q r -> path_le p r.
Proof.
  unfold path_le. intros H1 H2.
  destruct (Path.ltb r p) eqn:E; [|reflexivity].
  destruct (Path.ltb p q) eqn:E1.
  - pose proof (path_ltb_trans _ _ _ E E1). congruence.
  - assert (p = q) by now apply path_ltb_total. subst. congruence.
Qed.

Lemma insert_sorted_perm (x : path) (l : list path) :
  Permutation (x :: l) (insert_sorted x l).
Proof.
  induction l as [|y l IH]; simpl; [reflexivity|].
  destruct (Path.ltb y x); [|reflexivity].
  rewrite perm_swap. now constructor.
Qed.

Lemma sorted_perm (l : list path) : Permutation l (sorted l).
Proof.
  induction l as [|x l IH]; simpl; [constructor|].
  rewrite <- insert_sorted_perm. now constructor.
Qed.

Lemma insert_sorted_le (x : path) (l : list path) :
  StronglySorted path_le l -> StronglySorted path_le (insert_sorted x l).
Proof.
  induction 1 as [|y l Hs IH Hy]; simpl.
  - repeat constructor.
  - destruct (Path.ltb y x) eqn:E.
    + constructor; [assumption|].
      rewrite <- insert_sorted_perm. constructor; [|assumption].
      now apply path_ltb_asym.
    + constructor; [now constructor|].
      constructor; [exact E|].
      eapply Forall_impl; [|exact Hy]. intros z. now apply path_le_trans.
Qed.

Lemma sorted_le (l : list path) : StronglySorted path_le (sorted l).
Proof.
  induction l as [|x l IH]; simpl; [constructor | now apply insert_sorted_le].
Qed.

Lemma sorted_lt (l : list path) : NoDup l -> StronglySorted path_lt (sorted l).
Proof.
  intros Hnd. assert (Hnd' : NoDup (sorted l)).
  { eapply Permutation_NoDup; [apply sorted_perm | assumption]. }
  pose proof (sorted_le l) as Hs. induction Hs as [|x s Hs IH Hx]; [constructor|].
  inversion Hnd' as [|? ? Hni Hnd'']; subst. constructor; [now apply IH|].
  rewrite Forall_forall in *. intros y Hy. unfold path_lt.
  destruct (Path.ltb x y) eqn:E; [reflexivity|].
  specialize (Hx y Hy). elim Hni.
  assert (x = y) by now apply path_ltb_total. now subst.
Qed.

(** Two strictly sorted lists with the same elements are the same list. *)
Lemma sorted_lt_unique (l1 l2 : list path) :
  StronglySorted path_lt l1 -> StronglySorted path_lt l2 ->
  (forall p, In p l1 <-> In p l2) -> l1 = l2.
Proof.
  intros H1. revert l2. induction H1 as [|x l1 Hs1 IH Hx]; intros l2 H2 Hin.
  - destruct l2 as [|y l2]; [reflexivity|]. destruct (proj2 (Hin y)); now left.
  - destruct H2 as [|y l2 Hs2 Hy].
    + destruct (proj1 (Hin x)); now left.
    + rewrite Forall_forall in Hx, Hy.
      assert (x = y) as ->.
      { destruct (proj1 (Hin x) (or_introl eq_refl)) as [->|Hxl2]; [reflexivity|].
        destruct (proj2 (Hin y) (or_introl eq_refl)) as [->|Hyl1]; [reflexivity|].
        pose proof (Hx _ Hyl1) as A. pose proof (Hy _ Hxl2) as B.
        pose proof (path_ltb_asym _ _ A). unfold path_lt in B. congruence. }
      f_equal. apply IH; [assumption|].
      intros p. split; intros Hp.
      * destruct (proj1 (Hin p) (or_intror Hp)) as [<-|]; [|assumption].
        pose proof (Hx _ Hp) as A. unfold path_lt in A.
        rewrite path_ltb_irrefl in A. discriminate.
      * destruct (proj2 (Hin p) (or_intror Hp)) as [<-|]; [|assumption].
        pose proof (Hy _ Hp) as A. unfold path_lt in A.
        rewrite path_ltb_irrefl in A. discriminate.
Qed.


(** ** Name resolution *)

Lemma walk_app (c : cursor) (p q : list string) :
  walk c (p ++ q) = match walk c p with Some c' => walk c' q | None => None end.
Proof.
  revert c. induction p as [|x p IH]; intros c; simpl; [reflexivity|].
  destruct (step c x); [apply IH | reflexivity].
Qed.

Lemma nodupb_NoDup (l : list string) : nodupb l = true <-> NoDup l.
Proof.
  induction l as [|x l IH]; simpl.
  - split; [constructor | reflexivity].
  - rewrite andb_true_iff, negb_true_iff, IH. split.
    + intros [Hx Hl]. constructor; [|assumption]. intros Hin.
      assert (existsb (String.eqb x) l = true); [|congruence].
      apply existsb_exists. exists x. split; [assumption | apply String.eqb_refl].
    + intros H. inversion H as [|? ? Hni Hl]; subst. split; [|assumption].
      destruct (existsb (String.eqb x) l) eqn:E; [|reflexivity].
      apply existsb_exists in E. destruct E as [y [Hy E]].
      apply String.eqb_eq in E. now subst.
Qed.

Lemma in_set_In (s : string) (l : list string) : in_set s l = true <-> In s l.
Proof.
  unfold in_set. rewrite existsb_exists. split.
  - intros [y [Hy E]]. apply String.eqb_eq in E. now subst.
  - intros H. exists s. split; [assumption | apply String.eqb_refl].
Qed.

Lemma lookup_entry_In (es : list (string * node)) (x : string) (n : node) :
  lookup_entry x es = Some n -> In (x, n) es.
Proof.
  induction es as [|[y m] es IH]; simpl; [discriminate|].
  destruct (String.eqb_spec x y) as [->|].
  - intros [= ->]. now left.
  - intros H. right. now apply IH.
Qed.

Lemma lookup_entry_None (es : list (string * node)) (x : string) :
  lookup_entry x es = None <-> ~ In x (map fst es).
Proof.
  induction es as [|[y m] es IH]; simpl; [tauto|].
  destruct (String.eqb_spec x y) as [->|Hxy].
  - split; [discriminate | tauto].
  - rewrite IH. split; [intros H [E|E]; [now elim Hxy | tauto] | tauto].
Qed.

Lemma In_lookup_entry (es : list (string * node)) (x : string) (n : node) :
  NoDup (map fst es) -> In (x, n) es -> lookup_entry x es = Some n.
Proof.
  induction es as [|[y m] es IH]; simpl; [tauto|].
  intros Hnd. inversion Hnd as [|? ? Hni Hnd']; subst.
  intros [[= -> ->]|Hin].
  - now rewrite String.eqb_refl.
  - destruct (String.eqb_spec x y) as [->|]; [|now apply IH].
    elim Hni. apply in_map_iff. now exists (y, n).
Qed.

Lemma wf_dir (es : list (string * node)) :
  wf_node (Dir es) = true ->
  Forall (fun x => valid_name x = true) (map fst es)
  /\ NoDup (map fst es)
  /\ Forall (fun e => wf_node (snd e) = true) es.
Proof.
  simpl. rewrite !andb_true_iff, nodupb_NoDup, !forallb_forall, !Forall_forall.
  tauto.
Qed.

Lemma wf_lookup (es : list (string * node)) (x : string) (n : node) :
  wf_node (Dir es) = true -> lookup_entry x es = Some n -> wf_node n = true.
Proof.
  intros Hwf Hl. apply wf_dir in Hwf. destruct Hwf as [_ [_ H]].
  rewrite Forall_forall in H. apply (H (x, n)). now apply lookup_entry_In.
Qed.

Lemma wf_step (c c' : cursor) (x : string) :
  wf_cursor c -> step c x = Some c' -> wf_cursor c'.
Proof.
  destruct c as [anc cur]. unfold wf_cursor, step. simpl. intros [Hc Ha].
  destruct cur as [|es]; [discriminate|].
  destruct (String.eqb x "."); [intros [= <-]; now split|].
  destruct (String.eqb x "..").
  - destruct anc as [|a anc]; intros [= <-]; simpl; [now split|].
    inversion Ha; subst. now split.
  - destruct (lookup_entry x es) as [n|] eqn:E; [|discriminate].
    intros [= <-]. simpl. split; [now apply (wf_lookup es x) | now constructor].
Qed.

Lemma wf_walk (p : list string) (c c' : cursor) :
  wf_cursor c -> walk c p = Some c' -> wf_cursor c'.
Proof.
  revert c. induction p as [|x p IH]; intros c Hc; simpl.
  - now intros [= <-].
  - destruct (step c x) as [c1|] eqn:E; [|discriminate].
    apply IH. now apply (wf_step c c1 x).
Qed.

Lemma wf_stat (fs : node) (p : path) (n : node) :
  wf_node fs = true -> Path.stat fs p = Some n -> wf_node n = true.
Proof.
  unfold Path.stat. intros Hwf.
  destruct (walk ([], fs) p) as [c|] eqn:E; [|discriminate].
  intros [= <-]. apply (wf_walk p ([], fs) c); [|assumption]. now split.
Qed.

Lemma valid_name_not_dot (x : string) :
  valid_name x = true -> String.eqb x "." = false /\ String.eqb x ".." = false.
Proof.
  unfold valid_name. rewrite !andb_true_iff, !negb_true_iff. tauto.
Qed.

(** The entry [x] of a directory is found at the directory's path plus [x]. *)
Lemma stat_child (fs : node) (d : path) (es : list (string * node)) (x : string) :
  Path.stat fs d = Some (Dir es) -> valid_name x = true ->
  Path.stat fs (d ++ [x]) = lookup_entry x es.
Proof.
  unfold Path.stat. rewrite walk_app.
  destruct (walk ([], fs) d) as [[anc cur]|]; [|discriminate].
  simpl. intros [= ->] Hx. apply valid_name_not_dot in Hx. destruct Hx as [H1 H2].
  unfold step. simpl. rewrite H1, H2. now destruct (lookup_entry x es).
Qed.

Lemma StronglySorted_weaken {A : Type} (R R' : A -> A -> Prop) (l : list A) :
  (forall x y, In x l -> In y l -> R x y -> R' x y) ->
  StronglySorted R l -> StronglySorted R' l.
Proof.
  intros H Hs. induction Hs as [|x l Hs IH Hx]; [constructor|].
  constructor.
  - apply IH. intros a b Ha Hb. apply H; now right.
  - rewrite Forall_forall in *. intros y Hy.
    apply H; [now left | now right | now apply Hx].
Qed.

Lemma NoDup_children (d : path) (es : list (string * node)) :
  NoDup (map fst es) -> NoDup (map (fun e => d ++ [fst e]) es).
Proof.
  intros H. rewrite <- (map_map fst (fun x => d ++ [x])).
  apply Finite.Injective_map_NoDup; [|assumption].
  intros a b E. apply app_inv_head in E. now injection E.
Qed.

(** ** The source enumerator *)

Lemma image_filter_child (fs : node) (d : path) (es : list (string * node))
    (x : string) (n : node) :
  wf_node fs = true -> Path.stat fs d = Some (Dir es) -> In (x, n) es ->
  image_filter fs (d ++ [x]) = true <->
  (exists data, n = File data) /\ allowed_name x /\ String.prefix "._" x = false.
Proof.
  intros Hwf Hd Hin.
  pose proof (wf_stat _ _ _ Hwf Hd) as Hes. apply wf_dir in Hes.
  destruct Hes as [Hval [Hnd _]].
  assert (Hx : valid_name x = true).
  { rewrite Forall_forall in Hval. apply Hval. apply in_map_iff. now exists (x, n). }
  unfold image_filter, Path.is_file, Path.suffix, allowed_name.
  rewrite (stat_child fs d es x Hd Hx), (In_lookup_entry es x n Hnd Hin), name_snoc.
  rewrite !andb_true_iff, negb_true_iff, in_set_In.
  destruct n as [data|es']; split.
  - intros [[_ H1] H2]. split; [now exists data | tauto].
  - tauto.
  - intros [[H _] _]. discriminate.
  - intros [[data H] _]. discriminate.
Qed.

(** C1.  On a well-formed tree, [list_images] of a directory [d] with
    listing [es] returns, without an error, the paths [d/n] of the regular
    files [n] of [es] whose extension is allowed (letter case ignored) and
    whose name does not start with ["._"], each once and in strictly
    increasing order of their names; [list_images] of a path that does not
    exist returns the empty list. *)
Theorem list_images_spec (fs : node) (d : path) :
  wf_node fs = true ->
  (forall es, Path.stat fs d = Some (Dir es) ->
     exists l, list_images fs d = Ok l
       /\ StronglySorted name_lt l
       /\ forall p, In p l <->
            exists n data, p = d ++ [n] /\ In (n, File data) es
              /\ allowed_name n /\ String.prefix "._" n = false)
  /\ (Path.exists_ fs d = false -> list_images fs d = Ok []).
Proof.
  intros Hwf. split.
  - intros es Hd.
    pose proof (wf_stat _ _ _ Hwf Hd) as Hes. apply wf_dir in Hes.
    destruct Hes as [_ [Hnd _]].
    set (cs := filter (image_filter fs) (map (fun e => d ++ [fst e]) es)).
    assert (Hmem : forall p, In p cs <->
              exists n data, p = d ++ [n] /\ In (n, File data) es
                /\ allowed_name n /\ String.prefix "._" n = false).
    { intros p. unfold cs. rewrite filter_In, in_map_iff. split.
      - intros [[[n c] [<- Hin]] Hf]. simpl in *.
        apply (image_filter_child fs d es n c Hwf Hd Hin) in Hf.
        destruct Hf as [[data ->] [H1 H2]]. now exists n, data.
      - intros [n [data [-> [Hin [H1 H2]]]]]. split.
        + now exists (n, File data).
        + apply (image_filter_child fs d es n (File data) Hwf Hd Hin).
          split; [now exists data | now split]. }
    exists (sorted cs). split; [|split].
    + unfold list_images, Path.exists_, Path.iterdir. now rewrite Hd.
    + apply StronglySorted_weaken with (R := path_lt).
      * intros x y Hx Hy.
        apply (Permutation_in _ (Permutation_sym (sorted_perm cs))) in Hx, Hy.
        apply Hmem in Hx, Hy.
        destruct Hx as [a [? [-> _]]]. destruct Hy as [b [? [-> _]]].
        unfold path_lt, name_lt. now rewrite path_ltb_siblings, !name_snoc.
      * apply sorted_lt. apply NoDup_filter. now apply NoDup_children.
    + intros p. rewrite <- Hmem. split; apply Permutation_in.
      * apply Permutation_sym, sorted_perm.
      * apply sorted_perm.
  - intros H. unfold list_images. now rewrite H.
Qed.


Lemma list_images_spec_witness :
  wf_node example_fs = true
  /\ exists l, list_images example_fs ["Chinese"] = Ok l
       /\ StronglySorted name_lt l
       /\ forall p, In p l <->
            exists n data, p = ["Chinese"] ++ [n]
              /\ In (n, File data)
                    [ ("b_02.PNG", File ""); ("A_0001.png", File "");
                      ("._A_0001.png", File ""); ("notes.txt", File "");
                      ("old.png", Dir []) ]
              /\ allowed_name n /\ String.prefix "._" n = false.
Proof.
  split; [reflexivity|].
  destruct (list_images_spec example_fs ["Chinese"] eq_refl) as [H _].
  exact (H _ eq_refl).
Defined.

Example list_images_example :
  list_images example_fs CHINESE_DIR
  = Ok [["Chinese"; "A_0001.png"]; ["Chinese"; "b_02.PNG"]].
Proof. reflexivity. Qed.

(** ** The variant resolvers *)






Example pick_method_images_example :
  Gallery.pick_method_images example_fs ["layercam"; "b_02"] "b_02" "layercam"
  = [None; None; Some "layercam/b_02/b_02_layercam_gb.webp"].
Proof. reflexivity. Qed.


Lemma probe_exts_inv (fs : node) (d : path) (root : string) (exts : list string) :
  match probe_exts fs d root exts with
  | Some r =>
      exists pre ext post,
        exts = pre ++ ext :: post
        /\ Forall (fun e => Path.exists_ fs (candidate d root e) = false) pre
        /\ Path.exists_ fs (candidate d root ext) = true
        /\ r = Path.as_posix (candidate d root ext)
  | None => Forall (fun e => Path.exists_ fs (candidate d root e) = false) exts
  end.
Proof.
  induction exts as [|ext exts IH]; simpl; [constructor|].
  fold (candidate d root ext).
  destruct (Path.exists_ fs (candidate d root ext)) eqn:E.
  - now exists [], ext, exts.
  - destruct (probe_exts fs d root exts) as [r|].
    + destruct IH as [pre [ext' [post [-> [Hpre [Hex ->]]]]]].
      exists (ext :: pre), ext', post. repeat split; auto.
    + now constructor.
Qed.





(** A [cam_gb] file wins over a [gb] file, whatever their extensions. *)
Example pick_single_image_example :
  ResNet50.pick_single_image example_fs
    ["12.17_ResNet50"; "pretrain_multicrop"; "layercam"; "A_0001"]
    "A_0001" "layercam"
  = Some "12.17_ResNet50/pretrain_multicrop/layercam/A_0001/A_0001_layercam_cam_gb.jpeg".
Proof. reflexivity. Qed.


(** ** The row builders *)

Lemma list_images_children (fs : node) (d : path) (imgs : list path) :
  list_images fs d = Ok imgs ->
  forall p, In p imgs -> exists n, p = d ++ [n].
Proof.
  unfold list_images, Path.iterdir.
  destruct (Path.exists_ fs d); simpl; [|intros [= <-] p []].
  destruct (Path.stat fs d) as [[data|es]|]; simpl; try discriminate.
  intros [= <-] p Hp.
  apply (Permutation_in _ (Permutation_sym (sorted_perm _))) in Hp.
  apply filter_In in Hp. destruct Hp as [Hp _].
  apply in_map_iff in Hp. destruct Hp as [e [<- _]]. now exists (fst e).
Qed.








(** In [example_fs] the directory [hirescam] is missing and [scorecam] is
    empty: both rows are there, those slots absent. *)
Example build_rows_example :
  Gallery.build_rows example_fs
  = Ok [ {| Gallery.base := "A_0001";
            Gallery.chinese := "Chinese/A_0001.png";
            Gallery.layercam3 :=
              [Some "layercam/A_0001/A_0001_layercam_cam.jpg"; None; None];
            Gallery.hirescam3 := [None; None; None];
            Gallery.scorecam3 := [None; None; None] |};
         {| Gallery.base := "b_02";
            Gallery.chinese := "Chinese/b_02.PNG";
            Gallery.layercam3 :=
              [None; None; Some "layercam/b_02/b_02_layercam_gb.webp"];
            Gallery.hirescam3 := [None; None; None];
            Gallery.scorecam3 := [None; None; None] |} ].
Proof. reflexivity. Qed.


(** ** Writing the document *)

Lemma lookup_set_entry (x : string) (n : node) (es : list (string * node)) :
  lookup_entry x (set_entry x n es) = Some n.
Proof.
  induction es as [|[y m] es IH]; simpl.
  - now rewrite String.eqb_refl.
  - destruct (String.eqb_spec x y) as [->|Hxy]; simpl.
    + now rewrite String.eqb_refl.
    + destruct (String.eqb_spec x y); [contradiction | exact IH].
Qed.

Lemma stat_root_entry (es : list (string * node)) (x : string) :
  valid_name x = true -> Path.stat (Dir es) [x] = lookup_entry x es.
Proof.
  intros Hx. apply (stat_child (Dir es) [] es x); [reflexivity | exact Hx].
Qed.

(** Writing the output file in the project root succeeds unless a directory
    is in its place, and the file then holds the text written. *)
Lemma write_text_root (fs : node) (x data : string) :
  valid_name x = true ->
  Path.is_dir fs PROJECT_ROOT = true -> Path.is_dir fs [x] = false ->
  exists fs', write_text fs [x] data = Ok fs'
    /\ Path.stat fs' [x] = Some (File data).
Proof.
  intros Hx Hroot Hout. destruct fs as [d|es]; [discriminate|].
  unfold Path.is_dir in Hout. rewrite (stat_root_entry es x Hx) in Hout.
  exists (Dir (set_entry x (File data) es)). split.
  - simpl. destruct (lookup_entry x es) as [[d|es']|]; [reflexivity | discriminate | reflexivity].
  - rewrite (stat_root_entry _ x Hx). apply lookup_set_entry.
Qed.

(** ** The header of pipeline 2 *)

Lemma render_html2_total (rows : list ResNet50.row) :
  exists doc, ResNet50.render_html rows = Ok doc.
Proof.
  unfold ResNet50.render_html, ResNet50.head, ResNet50.header_sections,
    ResNet50.header_methods, ResNet50.first_row_labels, ResNet50.first_row.
  destruct rows as [|r0 rows]; simpl; eexists; reflexivity.
Qed.

Lemma build_rows2_labels (fs : node) (rows : list ResNet50.row) :
  ResNet50.build_rows fs = Ok rows ->
  Forall (fun r => labels r = ResNet50.SECTIONS) rows.
Proof.
  unfold ResNet50.build_rows.
  destruct (list_images fs CHINESE_DIR) as [imgs|e]; simpl; [|discriminate].
  intros [= <-]. rewrite Forall_map. apply Forall_forall. intros src _.
  unfold labels, ResNet50.build_row. cbn [ResNet50.sections].
  rewrite map_map. cbv beta zeta delta [ResNet50.build_section]. cbn [fst].
  apply map_id.
Qed.

(** C10.  [render_html] of pipeline 2 never fails, whatever the rows; on the
    empty list it returns a complete document in which both header
    expressions are the empty string, so that the header keeps only its two
    fixed cells; [main] then writes this document, provided no directory sits
    in the place of the output file.  Every row that [build_rows] returns
    carries the labels of [SECTIONS], all four and in order, so the header,
    which is read off the first row, fits every row. *)
Theorem render_html_zero_rows_and_labels :
  (forall rows, exists doc, ResNet50.render_html rows = Ok doc)
  /\ (exists doc, ResNet50.render_html [] = Ok doc
        /\ ResNet50.header_sections [] = Ok ""
        /\ ResNet50.header_methods [] = Ok ""
        /\ complete_document doc
        /\ Html.count "<th>" doc = 2
        /\ Html.count "<th " doc = 0
        /\ Html.count "<td" doc = 0)
  /\ (forall root fs,
        Path.is_dir fs PROJECT_ROOT = true ->
        Path.is_dir fs ResNet50.OUTPUT_HTML = false ->
        list_images fs CHINESE_DIR = Ok [] ->
        exists fs' doc,
          ResNet50.main root fs = Ok (fs', ("Wrote " ++ root ++ "/index_resnet50.html")%string)
          /\ ResNet50.render_html [] = Ok doc
          /\ Path.stat fs' ResNet50.OUTPUT_HTML = Some (File doc))
  /\ (forall fs rows,
        ResNet50.build_rows fs = Ok rows ->
        Forall (fun r => labels r = ResNet50.SECTIONS) rows
        /\ (rows <> [] -> ResNet50.first_row_labels rows = Ok ResNet50.SECTIONS)
        /\ forall r0 r, nth_error rows 0 = Some r0 -> In r rows -> labels r = labels r0).
Proof.
  split; [exact render_html2_total|]. split; [|split].
  - eexists. split; [reflexivity|]. repeat split; vm_compute; reflexivity.
  - intros root fs Hroot Hout Himgs.
    destruct (render_html2_total []) as [doc Hdoc].
    destruct (write_text_root fs "index_resnet50.html" doc eq_refl Hroot Hout)
      as [fs' [Hw Hs]].
    exists fs', doc. split; [|split; assumption].
    unfold ResNet50.main, ResNet50.build_rows. rewrite Himgs.
    cbn [bind map]. rewrite Hdoc. cbn [bind].
    change ResNet50.OUTPUT_HTML with ["index_resnet50.html"].
    rewrite Hw. reflexivity.
  - intros fs rows Hrows. pose proof (build_rows2_labels fs rows Hrows) as HL.
    split; [exact HL|]. split.
    + intros Hne. destruct rows as [|r0 rows]; [contradiction|].
      inversion HL as [|? ? H0 _]; subst.
      unfold ResNet50.first_row_labels, ResNet50.first_row. simpl.
      unfold labels in H0. now rewrite H0.
    + intros r0 r H0 Hr. rewrite Forall_forall in HL.
      rewrite (HL r Hr). symmetry. apply HL. now apply nth_error_In with (n := 0).
Qed.

(** The header of a table with rows: one spanning cell and two method cells
    per section. *)
Example header2_example (r : ResNet50.row) (rows : list ResNet50.row) :
  labels r = ResNet50.SECTIONS ->
  ResNet50.header_methods (r :: rows)
  = Ok ("<th>LayerCAM</th><th>ScoreCAM</th><th>LayerCAM</th><th>ScoreCAM</th>"
        ++ "<th>LayerCAM</th><th>ScoreCAM</th><th>LayerCAM</th><th>ScoreCAM</th>")%string.
Proof.
  intros H. unfold ResNet50.header_methods, ResNet50.first_row_labels. simpl.
  unfold labels in H. now rewrite H.
Qed.


(** ** Strings *)

Lemma append_assoc (a b c : string) : ((a ++ b) ++ c = a ++ (b ++ c))%string.
Proof. induction a as [|x a IH]; simpl; [reflexivity | now rewrite IH]. Qed.

Lemma append_nil_r (a : string) : (a ++ "" = a)%string.
Proof. induction a as [|x a IH]; simpl; [reflexivity | now rewrite IH]. Qed.

Lemma replace_char_app (c : ascii) (r a b : string) :
  Html.replace_char c r (a ++ b)
  = (Html.replace_char c r a ++ Html.replace_char c r b)%string.
Proof.
  induction a as [|x a IH]; simpl; [reflexivity|].
  destruct (Ascii.eqb x c); simpl; rewrite IH; [now rewrite append_assoc | reflexivity].
Qed.

(** The five replacements in sequence do what one pass over the
    characters does: no replacement introduces a character that a later one
    would replace again. *)
Lemma escape_escape_chars (s : string) : Html.escape s = escape_chars s.
Proof.
  unfold Html.escape. induction s as [|c s IH]; [reflexivity|].
  cbn [escape_chars Html.replace_char]. rewrite <- IH. unfold escape_char.
  destruct (Ascii.eqb_spec c "&") as [->|H1].
  { now rewrite !replace_char_app. }
  cbn [Html.replace_char].
  destruct (Ascii.eqb_spec c "<") as [->|H2].
  { now rewrite !replace_char_app. }
  cbn [Html.replace_char].
  destruct (Ascii.eqb_spec c ">") as [->|H3].
  { now rewrite !replace_char_app. }
  cbn [Html.replace_char].
  destruct (Ascii.eqb_spec c Html.dquote) as [->|H4].
  { now rewrite !replace_char_app. }
  cbn [Html.replace_char].
  destruct (Ascii.eqb_spec c Html.squote) as [->|H5]; reflexivity.
Qed.

Lemma skeleton_app (a b : string) :
  skeleton (a ++ b) = (skeleton a ++ skeleton b)%string.
Proof.
  induction a as [|x a IH]; simpl; [reflexivity|].
  destruct (markup x); simpl; now rewrite IH.
Qed.

Lemma skeleton_escape_char (c : ascii) : skeleton (escape_char c) = "".
Proof.
  unfold escape_char.
  destruct (Ascii.eqb c "&"); [reflexivity|].
  destruct (Ascii.eqb c "<") eqn:E1; [reflexivity|].
  destruct (Ascii.eqb c ">") eqn:E2; [reflexivity|].
  destruct (Ascii.eqb c Html.dquote) eqn:E3; [reflexivity|].
  destruct (Ascii.eqb c Html.squote) eqn:E4; [reflexivity|].
  simpl. unfold markup. now rewrite E1, E2, E3, E4.
Qed.

Lemma skeleton_escape (s : string) : skeleton (Html.escape s) = "".
Proof.
  rewrite escape_escape_chars. induction s as [|c s IH]; [reflexivity|].
  simpl. now rewrite skeleton_app, skeleton_escape_char, IH.
Qed.

Lemma skeleton_concat_nl (l : list string) :
  skeleton (String.concat Html.nl l) = String.concat "" (map skeleton l).
Proof.
  induction l as [|a l IH]; [reflexivity|].
  destruct l as [|b l]; [reflexivity|].
  change (String.concat Html.nl (a :: b :: l))
    with (a ++ Html.nl ++ String.concat Html.nl (b :: l))%string.
  change (String.concat "" (map skeleton (a :: b :: l)))
    with (skeleton a ++ "" ++ String.concat "" (map skeleton (b :: l)))%string.
  now rewrite !skeleton_app, IH.
Qed.

Lemma no_lt_skeleton (s : string) : skeleton s = "" -> Str.contains "<" s = false.
Proof.
  induction s as [|c s IH]; cbn [Str.contains skeleton]; [reflexivity|].
  unfold markup. rewrite (Ascii.eqb_sym "<"%char c).
  destruct (Ascii.eqb c "<"); cbn [orb]; [discriminate|].
  destruct (Ascii.eqb c ">" || Ascii.eqb c Html.dquote || Ascii.eqb c Html.squote);
    [discriminate | exact IH].
Qed.

(** A string without ["<"] holds no start of a tag. *)
Lemma count_skip (pat e r : string) :
  Str.contains "<" e = false ->
  Html.count (String "<" pat) (e ++ r) = Html.count (String "<" pat) r.
Proof.
  induction e as [|c e IH]; [reflexivity|].
  cbn [Str.contains]. intros H. apply orb_false_iff in H. destruct H as [Hc He].
  change (String c e ++ r)%string with (String c (e ++ r)).
  cbn [Html.count String.prefix].
  destruct (ascii_dec "<" c) as [<-|_]; [discriminate|].
  now rewrite IH.
Qed.

Lemma td_count_escape (s r : string) :
  td_count (Html.escape s ++ r) = td_count r.
Proof.
  apply count_skip, no_lt_skeleton, skeleton_escape.
Qed.


(** ** Counting cells *)

Lemma count_td_escape (s r : string) :
  Html.count "<td" (Html.escape s ++ r) = Html.count "<td" r.
Proof. apply td_count_escape. Qed.

Lemma td_count_nl (r : string) : td_count (Html.nl ++ r) = td_count r.
Proof. reflexivity. Qed.

Ltac count_cells :=
  repeat (cbn -[Html.escape];
          first [ rewrite count_td_escape
                | rewrite count_skip by assumption ]).

Lemma td_count_src_cell (b c r : string) :
  Str.contains "<" b = false ->
  td_count (Html.src_cell b c ++ r) = S (td_count r).
Proof.
  intros Hb. unfold td_count, Html.src_cell, Html.text.
  cbn [String.concat]. rewrite !append_assoc. count_cells. reflexivity.
Qed.

Lemma td_count_method_cell (label b : string) (p : option string) (r : string) :
  Str.contains "<" label = false -> Str.contains "<" b = false ->
  td_count (Gallery.method_cell label b p ++ r) = S (td_count r).
Proof.
  intros Hl Hb. unfold td_count, Gallery.method_cell.
  destruct p as [s|]; [destruct (String.eqb s "")|]; cbn [negb];
    rewrite ?append_assoc; count_cells; reflexivity.
Qed.

Lemma td_count_section_cell (label b section : string) (p : option string)
    (r : string) :
  Str.contains "<" label = false -> Str.contains "<" b = false ->
  td_count (ResNet50.section_cell label b section p ++ r) = S (td_count r).
Proof.
  intros Hl Hb. unfold td_count, ResNet50.section_cell.
  destruct p as [s|]; [destruct (String.eqb s "")|]; cbn [negb];
    rewrite ?append_assoc; count_cells; reflexivity.
Qed.

(** Cells joined by newlines: as many cells as the list holds. *)
Lemma td_count_cells (cells : list string) (r : string) :
  Forall (fun c => forall r', td_count (c ++ r') = S (td_count r')) cells ->
  td_count (String.concat Html.nl cells ++ r) = List.length cells + td_count r.
Proof.
  induction 1 as [|c cells Hc Hcs IH]; [reflexivity|].
  destruct cells as [|c' cells].
  - cbn [String.concat List.length]. now rewrite Hc.
  - change (String.concat Html.nl (c :: c' :: cells))
      with (c ++ Html.nl ++ String.concat Html.nl (c' :: cells))%string.
    rewrite !append_assoc, Hc, td_count_nl, IH. reflexivity.
Qed.

Lemma no_lt_escape (s : string) : Str.contains "<" (Html.escape s) = false.
Proof. apply no_lt_skeleton, skeleton_escape. Qed.

Lemma row_cells1_one_td (r : Gallery.row) :
  Forall (fun c => forall r', td_count (c ++ r') = S (td_count r'))
         (Gallery.row_cells r).
Proof.
  unfold Gallery.row_cells. pose proof (no_lt_escape (Gallery.base r)) as Hb.
  apply Forall_app. split; [|repeat (apply Forall_app; split)].
  - constructor; [|constructor]. intros r'. now apply td_count_src_cell.
  - apply Forall_map, Forall_forall. intros p _ r'.
    now apply td_count_method_cell.
  - apply Forall_map, Forall_forall. intros p _ r'.
    now apply td_count_method_cell.
  - apply Forall_map, Forall_forall. intros p _ r'.
    now apply td_count_method_cell.
Qed.

Lemma row_cells2_one_td (r : ResNet50.row) :
  Forall (fun c => forall r', td_count (c ++ r') = S (td_count r'))
         (ResNet50.row_cells r).
Proof.
  unfold ResNet50.row_cells. pose proof (no_lt_escape (ResNet50.base r)) as Hb.
  constructor; [intros r'; now apply td_count_src_cell|].
  apply Forall_flat_map, Forall_forall. intros [[section l] s] _.
  cbn [ResNet50.section_cells].
  repeat constructor; intros r'; now apply td_count_section_cell.
Qed.

Lemma td_count_row_html1 (r : Gallery.row) :
  td_count (Gallery.row_html r) = List.length (Gallery.row_cells r).
Proof.
  unfold Gallery.row_html.
  change ("<tr>" ++ Html.nl ++ String.concat Html.nl (Gallery.row_cells r)
            ++ Html.nl ++ "</tr>")%string
    with ("<tr>" ++ Html.nl ++ (String.concat Html.nl (Gallery.row_cells r)
            ++ (Html.nl ++ "</tr>")))%string.
  change (td_count ("<tr>" ++ Html.nl ++ ?x)) with (td_count x).
  rewrite (td_count_cells _ _ (row_cells1_one_td r)). apply Nat.add_0_r.
Qed.

Lemma td_count_row_html2 (r : ResNet50.row) :
  td_count (ResNet50.row_html r) = List.length (ResNet50.row_cells r).
Proof.
  unfold ResNet50.row_html.
  change (td_count ("<tr>" ++ Html.nl ++ ?x)) with (td_count x).
  rewrite (td_count_cells _ _ (row_cells2_one_td r)). apply Nat.add_0_r.
Qed.

Lemma row_cells1_length (r : Gallery.row) :
  three_slots r -> List.length (Gallery.row_cells r) = 10.
Proof.
  intros [H1 [H2 H3]]. unfold Gallery.row_cells.
  rewrite !length_app, !length_map, H1, H2, H3. reflexivity.
Qed.

Lemma row_cells2_length (r : ResNet50.row) :
  List.length (ResNet50.row_cells r) = 1 + 2 * List.length (ResNet50.sections r).
Proof.
  unfold ResNet50.row_cells. cbn [List.length]. f_equal.
  induction (ResNet50.sections r) as [|[[s l] c] es IH]; [reflexivity|].
  cbn [flat_map ResNet50.section_cells List.length app]. rewrite IH. lia.
Qed.


Lemma pick_loop_length (fs : node) (d : path) (roots : list string)
    (results : list (option string)) :
  List.length (Gallery.pick_loop fs d roots results)
  = List.length results + List.length roots.
Proof.
  revert results. induction roots as [|root roots IH]; intros results; simpl.
  - now rewrite Nat.add_0_r.
  - rewrite IH, length_app. simpl. lia.
Qed.

Lemma method_slots_length (fs : node) (dirs : list string) (md : path)
    (b m : string) :
  List.length (Gallery.method_slots fs dirs md b m) = 3.
Proof.
  unfold Gallery.method_slots, Gallery.pick_method_images.
  destruct (in_set b dirs); [|reflexivity].
  destruct (negb _); [reflexivity|]. now rewrite pick_loop_length.
Qed.

Lemma build_rows1_three_slots (fs : node) (rows : list Gallery.row) :
  Gallery.build_rows fs = Ok rows -> Forall three_slots rows.
Proof.
  unfold Gallery.build_rows.
  destruct (list_images fs CHINESE_DIR) as [imgs|]; [|discriminate].
  destruct (list_dirs fs Gallery.LAYERCAM_DIR) as [ld|]; [|discriminate].
  destruct (list_dirs fs Gallery.SCORECAM_DIR) as [sd|]; [|discriminate].
  destruct (list_dirs fs Gallery.HIRESCAM_DIR) as [hd|]; [|discriminate].
  cbn [bind]. intros [= <-]. apply Forall_map, Forall_forall. intros src _.
  unfold three_slots, Gallery.build_row.
  cbn [Gallery.layercam3 Gallery.hirescam3 Gallery.scorecam3].
  repeat split; apply method_slots_length.
Qed.

(** C5.  Pipeline 1: the header row has ten cells, and every row with three
    slots per method, as [build_rows] makes them all, is rendered with exactly
    ten cells.  Pipeline 2: every row with the four sections, as [build_rows]
    makes them all, is rendered with exactly nine cells, under a header of
    four spanning cells of two columns each and eight method cells next to
    the source column.  The count is that of the list [cells] and of the
    ["<td"] openings in the row's text alike, whichever slots resolved: an
    absent slot is rendered as an empty cell. *)
Theorem constant_cell_count :
  Html.count "<th>" Gallery.thead = 10
  /\ (forall r, three_slots r ->
        List.length (Gallery.row_cells r) = 10
        /\ td_count (Gallery.row_html r) = 10)
  /\ (forall fs rows, Gallery.build_rows fs = Ok rows -> Forall three_slots rows)
  /\ (forall label b,
        Gallery.method_cell label b None
        = Html.q "<td><div class=`row-title`></div></td>")
  /\ (forall r, labels r = ResNet50.SECTIONS ->
        List.length (ResNet50.row_cells r) = 9
        /\ td_count (ResNet50.row_html r) = 9)
  /\ (forall fs rows, ResNet50.build_rows fs = Ok rows ->
        Forall (fun r => labels r = ResNet50.SECTIONS) rows
        /\ (rows <> [] ->
            exists hs hm,
              ResNet50.header_sections rows = Ok hs
              /\ ResNet50.header_methods rows = Ok hm
              /\ Html.count (Html.q "<th colspan=`2`>") hs = 4
              /\ Html.count "<th>" hm = 8))
  /\ (forall label b section,
        ResNet50.section_cell label b section None = "<td></td>").
Proof.
  split; [reflexivity|]. split; [|split; [|split; [|split; [|split]]]].
  - intros r Hr. rewrite td_count_row_html1. split; now apply row_cells1_length.
  - exact build_rows1_three_slots.
  - reflexivity.
  - intros r Hr. rewrite td_count_row_html2, row_cells2_length.
    assert (List.length (ResNet50.sections r) = 4) as ->; [|split; reflexivity].
    apply (f_equal (@List.length string)) in Hr. unfold labels in Hr.
    rewrite length_map in Hr. exact Hr.
  - intros fs rows Hrows.
    pose proof (build_rows2_labels fs rows Hrows) as HL. split; [exact HL|].
    intros Hne. destruct rows as [|r0 rows]; [contradiction|].
    inversion HL as [|? ? H0 _]; subst. unfold labels in H0.
    unfold ResNet50.header_sections, ResNet50.header_methods,
      ResNet50.first_row_labels, ResNet50.first_row.
    cbn [ResNet50.nonempty nth_error bind]. rewrite H0. eexists _, _. split; [reflexivity|]. split; [reflexivity|].
    split; vm_compute; reflexivity.
  - reflexivity.
Qed.

(** The second row of [example_fs] in pipeline 1: one image, ten cells. *)
Example row_html_example :
  td_count
    (Gallery.row_html
       {| Gallery.base := "b_02";
          Gallery.chinese := "Chinese/b_02.PNG";
          Gallery.layercam3 :=
            [None; None; Some "layercam/b_02/b_02_layercam_gb.webp"];
          Gallery.hirescam3 := [None; None; None];
          Gallery.scorecam3 := [None; None; None] |}) = 10.
Proof. reflexivity. Qed.


(** ** Escaping *)

Lemma amp_closed_nil : amp_closed "".
Proof. intros r. reflexivity. Qed.

Lemma amp_closed_app (a b : string) :
  amp_closed a -> amp_closed b -> amp_closed (a ++ b).
Proof. intros Ha Hb r. now rewrite append_assoc, Ha, Hb. Qed.

Lemma amp_closed_free (a : string) : Str.contains "&" a = false -> amp_closed a.
Proof.
  induction a as [|c a IH]; intros H r; [reflexivity|].
  cbn [Str.contains] in H. apply orb_false_iff in H. destruct H as [Hc Ha].
  change (String c a ++ r)%string with (String c (a ++ r)).
  cbn [amp_ok]. rewrite Ascii.eqb_sym, Hc. now rewrite (IH Ha).
Qed.

Lemma amp_closed_escape_char (c : ascii) : amp_closed (escape_char c).
Proof.
  unfold escape_char.
  destruct (Ascii.eqb c "&") eqn:E0; [intros r; destruct r; reflexivity|].
  destruct (Ascii.eqb c "<"); [intros r; destruct r; reflexivity|].
  destruct (Ascii.eqb c ">"); [intros r; destruct r; reflexivity|].
  destruct (Ascii.eqb c Html.dquote); [intros r; destruct r; reflexivity|].
  destruct (Ascii.eqb c Html.squote); [intros r; destruct r; reflexivity|].
  apply amp_closed_free. cbn [Str.contains]. now rewrite Ascii.eqb_sym, E0.
Qed.

Lemma amp_closed_escape (s : string) : amp_closed (Html.escape s).
Proof.
  rewrite escape_escape_chars. induction s as [|c s IH]; [apply amp_closed_nil|].
  apply amp_closed_app; [apply amp_closed_escape_char | exact IH].
Qed.

Lemma amp_closed_concat (sep : string) (l : list string) :
  amp_closed sep -> Forall amp_closed l -> amp_closed (String.concat sep l).
Proof.
  intros Hsep. induction 1 as [|a l Ha Hl IH]; [apply amp_closed_nil|].
  destruct l as [|b l]; [exact Ha|].
  change (String.concat sep (a :: b :: l))
    with (a ++ sep ++ String.concat sep (b :: l))%string.
  repeat apply amp_closed_app; assumption.
Qed.

Lemma amp_closed_of_nat (n : nat) : amp_closed (Str.of_nat n).
Proof.
  apply amp_closed_free. unfold Str.of_nat.
  induction (Nat.to_uint n) as [|u IH|u IH|u IH|u IH|u IH|u IH|u IH|u IH|u IH|u IH];
    [reflexivity | exact IH ..].
Qed.

Lemma amp_closed_ok (s : string) : amp_closed s -> amp_ok s = true.
Proof. intros H. rewrite <- (append_nil_r s). now rewrite H. Qed.

Lemma amp_closed_cons (c : ascii) (s : string) :
  Ascii.eqb c "&" = false -> amp_closed s -> amp_closed (String c s).
Proof.
  intros Hc Hs r. change (String c s ++ r)%string with (String c (s ++ r)).
  cbn [amp_ok]. now rewrite Hc, Hs.
Qed.

Ltac amp_closed_tac :=
  cbv beta;
  lazymatch goal with
  | |- amp_closed (String _ _) =>
      first [ apply amp_closed_free; vm_compute; reflexivity
            | apply amp_closed_cons; [vm_compute; reflexivity | amp_closed_tac] ]
  | |- amp_closed (String.concat _ _) => apply amp_closed_concat; amp_closed_tac
  | |- amp_closed (_ ++ _)%string => apply amp_closed_app; amp_closed_tac
  | |- amp_closed (Html.escape _) => apply amp_closed_escape
  | |- amp_closed (Str.of_nat _) => apply amp_closed_of_nat
  | |- Forall _ (_ :: _) => apply Forall_cons; amp_closed_tac
  | |- Forall _ [] => apply Forall_nil
  | |- amp_closed _ =>
      first [ assumption | apply amp_closed_free; vm_compute; reflexivity ]
  end.

Lemma amp_closed_src_cell (b c : string) :
  amp_closed b -> amp_closed (Html.src_cell b c).
Proof. intros Hb. unfold Html.src_cell, Html.text. amp_closed_tac. Qed.

Lemma amp_closed_method_cell (label b : string) (p : option string) :
  amp_closed label -> amp_closed b -> amp_closed (Gallery.method_cell label b p).
Proof.
  intros Hl Hb. unfold Gallery.method_cell.
  destruct p as [s|]; [destruct (negb (String.eqb s ""))|]; amp_closed_tac.
Qed.

Lemma amp_closed_section_cell (label b section : string) (p : option string) :
  amp_closed label -> amp_closed b ->
  amp_closed (ResNet50.section_cell label b section p).
Proof.
  intros Hl Hb. unfold ResNet50.section_cell.
  destruct p as [s|]; [destruct (negb (String.eqb s ""))|]; amp_closed_tac.
Qed.

Lemma amp_closed_row_html1 (r : Gallery.row) : amp_closed (Gallery.row_html r).
Proof.
  unfold Gallery.row_html, Gallery.row_cells.
  pose proof (amp_closed_escape (Gallery.base r)) as Hb.
  do 2 (apply amp_closed_app; [apply amp_closed_free; vm_compute; reflexivity|]).
  apply amp_closed_app; [|apply amp_closed_free; vm_compute; reflexivity].
  apply amp_closed_concat; [apply amp_closed_free; vm_compute; reflexivity|].
  apply Forall_app. split; [|repeat (apply Forall_app; split)].
  - constructor; [now apply amp_closed_src_cell | constructor].
  - apply Forall_map, Forall_forall. intros p _.
    apply amp_closed_method_cell; amp_closed_tac.
  - apply Forall_map, Forall_forall. intros p _.
    apply amp_closed_method_cell; amp_closed_tac.
  - apply Forall_map, Forall_forall. intros p _.
    apply amp_closed_method_cell; amp_closed_tac.
Qed.

Lemma amp_closed_row_html2 (r : ResNet50.row) : amp_closed (ResNet50.row_html r).
Proof.
  unfold ResNet50.row_html, ResNet50.row_cells.
  pose proof (amp_closed_escape (ResNet50.base r)) as Hb.
  do 2 (apply amp_closed_app; [apply amp_closed_free; vm_compute; reflexivity|]).
  apply amp_closed_app; [|apply amp_closed_free; vm_compute; reflexivity].
  apply amp_closed_concat; [apply amp_closed_free; vm_compute; reflexivity|].
  constructor.
  - now apply amp_closed_src_cell.
  - apply Forall_flat_map, Forall_forall. intros [[section l] s] _.
    cbn [ResNet50.section_cells].
    repeat constructor; apply amp_closed_section_cell; amp_closed_tac.
Qed.

Lemma amp_ok_render_html1 (rows : list Gallery.row) :
  amp_ok (Gallery.render_html rows) = true.
Proof.
  apply amp_closed_ok.
  unfold Gallery.render_html, Gallery.head.
  apply amp_closed_app; [apply amp_closed_app|apply amp_closed_app].
  - unfold Gallery.preamble, Gallery.css, Html.text. amp_closed_tac.
  - apply amp_closed_free. vm_compute. reflexivity.
  - apply amp_closed_concat; [apply amp_closed_free; vm_compute; reflexivity|].
    apply Forall_map, Forall_forall. intros r _. apply amp_closed_row_html1.
  - apply amp_closed_free. vm_compute. reflexivity.
Qed.

Lemma amp_ok_render_html2 (rows : list ResNet50.row) (doc : string) :
  ResNet50.render_html rows = Ok doc -> amp_ok doc = true.
Proof.
  unfold ResNet50.render_html, ResNet50.head.
  destruct (ResNet50.header_sections rows) as [hs|] eqn:Ehs; [|discriminate].
  destruct (ResNet50.header_methods rows) as [hm|] eqn:Ehm; [|discriminate].
  cbn [bind]. intros [= <-].
  assert (Hhs : amp_closed hs).
  { unfold ResNet50.header_sections in Ehs.
    destruct (ResNet50.nonempty rows); [|injection Ehs as <-; apply amp_closed_nil].
    destruct (ResNet50.first_row_labels rows) as [ls|]; [|discriminate].
    injection Ehs as <-. apply amp_closed_concat; [apply amp_closed_nil|].
    apply Forall_map, Forall_forall. intros s _. amp_closed_tac. }
  assert (Hhm : amp_closed hm).
  { unfold ResNet50.header_methods in Ehm.
    destruct (if ResNet50.nonempty rows then _ else _) as [ls|]; [|discriminate].
    injection Ehm as <-. apply amp_closed_concat; [apply amp_closed_nil|].
    apply Forall_map, Forall_forall. intros s _. amp_closed_tac. }
  apply amp_closed_ok.
  apply amp_closed_app; [|apply amp_closed_app].
  - unfold ResNet50.css, Html.text. amp_closed_tac.
  - apply amp_closed_concat; [apply amp_closed_free; vm_compute; reflexivity|].
    apply Forall_map, Forall_forall. intros r _. apply amp_closed_row_html2.
  - apply amp_closed_free. vm_compute. reflexivity.
Qed.


(** ** The markup skeleton *)

Lemma Ok_inj {A : Type} (a b : A) : Ok a = Ok b -> a = b.
Proof. now intros [= ->]. Qed.

Lemma skeleton_concat_empty (l : list string) :
  skeleton (String.concat "" l) = String.concat "" (map skeleton l).
Proof.
  induction l as [|a l IH]; [reflexivity|].
  destruct l as [|b l]; [reflexivity|].
  change (String.concat "" (a :: b :: l))
    with (a ++ "" ++ String.concat "" (b :: l))%string.
  change (String.concat "" (map skeleton (a :: b :: l)))
    with (skeleton a ++ "" ++ String.concat "" (map skeleton (b :: l)))%string.
  now rewrite !skeleton_app, IH.
Qed.

Lemma skeleton_src_cell (b c : string) :
  skeleton (Html.src_cell (Html.escape b) c) = skeleton (Html.src_cell "" "").
Proof.
  unfold Html.src_cell, Html.text. rewrite !skeleton_concat_nl. cbn [map].
  now rewrite !skeleton_app, !skeleton_escape.
Qed.

Lemma skeleton_method_cell (label b : string) (p : option string) :
  skeleton (Gallery.method_cell label (Html.escape b) p)
  = skeleton (Gallery.method_cell label ""
                (if Html.truthy p then Some "x" else None)).
Proof.
  unfold Gallery.method_cell, Html.truthy.
  destruct p as [s|]; [|reflexivity].
  destruct (negb (String.eqb s "")); [|reflexivity]. cbn [negb String.eqb].
  now rewrite !skeleton_app, !skeleton_escape.
Qed.

Lemma skeleton_section_cell (label b section : string) (p : option string) :
  skeleton (ResNet50.section_cell label (Html.escape b) section p)
  = skeleton (ResNet50.section_cell label "" ""
                (if Html.truthy p then Some "x" else None)).
Proof.
  unfold ResNet50.section_cell, Html.truthy.
  destruct p as [s|]; [|reflexivity].
  destruct (negb (String.eqb s "")); [|reflexivity]. cbn [negb String.eqb].
  now rewrite !skeleton_app, !skeleton_escape.
Qed.

Lemma map_method_cell_shape (label b b' : string) (l l' : list (option string)) :
  map Html.truthy l = map Html.truthy l' ->
  map skeleton (map (Gallery.method_cell label (Html.escape b)) l)
  = map skeleton (map (Gallery.method_cell label (Html.escape b')) l').
Proof.
  revert l'. induction l as [|p l IH]; intros [|p' l']; try discriminate;
    [reflexivity|].
  cbn [map]. intros [= Hp Hl]. f_equal; [|now apply IH].
  now rewrite !skeleton_method_cell, Hp.
Qed.

Lemma skeleton_row_html1 (r r' : Gallery.row) :
  shape1 r = shape1 r' ->
  skeleton (Gallery.row_html r) = skeleton (Gallery.row_html r').
Proof.
  unfold shape1. intros [= H1 H2 H3].
  unfold Gallery.row_html, Gallery.row_cells.
  rewrite !skeleton_app, !skeleton_concat_nl, !map_app. cbn [map].
  rewrite !skeleton_src_cell.
  rewrite (map_method_cell_shape "LayerCAM" _ (Gallery.base r') _ _ H1).
  rewrite (map_method_cell_shape "HiresCAM" _ (Gallery.base r') _ _ H2).
  rewrite (map_method_cell_shape "ScoreCAM" _ (Gallery.base r') _ _ H3).
  reflexivity.
Qed.

Lemma section_cells_shape (b b' : string)
    (l l' : list ResNet50.section_entry) :
  map (fun e => (Html.truthy (snd (fst e)), Html.truthy (snd e))) l
  = map (fun e => (Html.truthy (snd (fst e)), Html.truthy (snd e))) l' ->
  map skeleton (flat_map (ResNet50.section_cells (Html.escape b)) l)
  = map skeleton (flat_map (ResNet50.section_cells (Html.escape b')) l').
Proof.
  revert l'. induction l as [|[[s p] c] l IH]; intros [|[[s' p'] c'] l'];
    try discriminate; [reflexivity|].
  cbn [map flat_map ResNet50.section_cells fst snd app].
  intros [= Hp Hc Hl]. f_equal; [|f_equal; [|now apply IH]].
  - rewrite (skeleton_section_cell _ b s), (skeleton_section_cell _ b' s').
    now rewrite Hp.
  - rewrite (skeleton_section_cell _ b s), (skeleton_section_cell _ b' s').
    now rewrite Hc.
Qed.

Lemma skeleton_row_html2 (r r' : ResNet50.row) :
  shape2 r = shape2 r' ->
  skeleton (ResNet50.row_html r) = skeleton (ResNet50.row_html r').
Proof.
  unfold shape2. intros H.
  unfold ResNet50.row_html, ResNet50.row_cells.
  rewrite !skeleton_app, !skeleton_concat_nl. cbn [map].
  rewrite !skeleton_src_cell.
  now rewrite (section_cells_shape _ (ResNet50.base r') _ _ H).
Qed.

Lemma map_skeleton_rows {R S : Type} (shape : R -> S) (html : R -> string)
    (rows rows' : list R) :
  (forall r r', shape r = shape r' -> skeleton (html r) = skeleton (html r')) ->
  map shape rows = map shape rows' ->
  map skeleton (map html rows) = map skeleton (map html rows').
Proof.
  intros H. revert rows'. induction rows as [|r rows IH]; intros [|r' rows'];
    try discriminate; [reflexivity|].
  cbn [map]. intros [= Hr Hrows]. f_equal; [now apply H | now apply IH].
Qed.

Lemma skeleton_render_html1 (rows rows' : list Gallery.row) :
  map shape1 rows = map shape1 rows' ->
  skeleton (Gallery.render_html rows) = skeleton (Gallery.render_html rows').
Proof.
  intros H. unfold Gallery.render_html, Gallery.head, Gallery.preamble.
  assert (List.length rows = List.length rows') as ->.
  { rewrite <- (length_map shape1 rows), H. apply length_map. }
  rewrite !skeleton_app, !skeleton_concat_nl.
  now rewrite (map_skeleton_rows shape1 Gallery.row_html rows rows'
                 skeleton_row_html1 H).
Qed.

Lemma map_const_length {A B : Type} (k : B) (l l' : list A) :
  List.length l = List.length l' -> map (fun _ => k) l = map (fun _ => k) l'.
Proof.
  revert l'. induction l as [|a l IH]; intros [|a' l']; try discriminate;
    [reflexivity|].
  cbn [map List.length]. intros [= H]. f_equal. now apply IH.
Qed.

Lemma first_row_labels_length (rows rows' : list ResNet50.row)
    (ls ls' : list string) :
  map shape2 rows = map shape2 rows' ->
  ResNet50.first_row_labels rows = Ok ls ->
  ResNet50.first_row_labels rows' = Ok ls' ->
  List.length ls = List.length ls'.
Proof.
  unfold ResNet50.first_row_labels, ResNet50.first_row.
  destruct rows as [|r rows]; destruct rows' as [|r' rows']; try discriminate.
  cbn [map nth_error bind]. intros [= Hr _] E E'.
  apply Ok_inj in E, E'. subst ls ls'. unfold shape2 in Hr.
  apply (f_equal (@List.length (bool * bool))) in Hr.
  now rewrite !length_map in *.
Qed.

Lemma nonempty_shape (rows rows' : list ResNet50.row) :
  map shape2 rows = map shape2 rows' ->
  ResNet50.nonempty rows = ResNet50.nonempty rows'.
Proof. destruct rows, rows'; try discriminate; reflexivity. Qed.

Lemma skeleton_section_labels (ls : list string) :
  skeleton
    (String.concat ""
       (map (fun section =>
               (Html.q "<th colspan=`2`>" ++ Html.escape section ++ "</th>")%string)
            ls))
  = String.concat "" (map (fun _ => skeleton (Html.q "<th colspan=`2`></th>")) ls).
Proof.
  rewrite skeleton_concat_empty, map_map. f_equal. apply map_ext. intros x.
  now rewrite !skeleton_app, skeleton_escape.
Qed.

Lemma skeleton_header_sections (rows rows' : list ResNet50.row) (hs hs' : string) :
  map shape2 rows = map shape2 rows' ->
  ResNet50.header_sections rows = Ok hs ->
  ResNet50.header_sections rows' = Ok hs' ->
  skeleton hs = skeleton hs'.
Proof.
  intros H. unfold ResNet50.header_sections.
  rewrite <- (nonempty_shape rows rows' H).
  destruct (ResNet50.nonempty rows).
  - destruct (ResNet50.first_row_labels rows) as [ls|] eqn:E; [|discriminate].
    destruct (ResNet50.first_row_labels rows') as [ls'|] eqn:E'; [|discriminate].
    cbn [bind]. intros F F'. apply Ok_inj in F, F'. subst hs hs'.
    rewrite !skeleton_section_labels. f_equal. apply map_const_length.
    exact (first_row_labels_length rows rows' ls ls' H E E').
  - intros F F'. apply Ok_inj in F, F'. now subst.
Qed.

Lemma header_methods_shape (rows rows' : list ResNet50.row) (hm hm' : string) :
  map shape2 rows = map shape2 rows' ->
  ResNet50.header_methods rows = Ok hm ->
  ResNet50.header_methods rows' = Ok hm' ->
  hm = hm'.
Proof.
  intros H. unfold ResNet50.header_methods.
  rewrite <- (nonempty_shape rows rows' H).
  destruct (ResNet50.nonempty rows).
  - destruct (ResNet50.first_row_labels rows) as [ls|] eqn:E; [|discriminate].
    destruct (ResNet50.first_row_labels rows') as [ls'|] eqn:E'; [|discriminate].
    cbn [bind]. intros F F'. apply Ok_inj in F, F'. subst hm hm'.
    f_equal. apply map_const_length.
    exact (first_row_labels_length rows rows' ls ls' H E E').
  - cbn [bind map String.concat]. intros F F'. apply Ok_inj in F, F'. now subst.
Qed.

Lemma skeleton_header2 (rows rows' : list ResNet50.row) (h h' : string) :
  map shape2 rows = map shape2 rows' ->
  ResNet50.head rows = Ok h -> ResNet50.head rows' = Ok h' ->
  skeleton h = skeleton h'.
Proof.
  intros H.
  assert (Hlen : List.length rows = List.length rows').
  { rewrite <- (length_map shape2 rows), H. apply length_map. }
  unfold ResNet50.head.
  destruct (ResNet50.header_sections rows) as [hs|] eqn:Ehs; [|discriminate].
  destruct (ResNet50.header_sections rows') as [hs'|] eqn:Ehs'; [|discriminate].
  destruct (ResNet50.header_methods rows) as [hm|] eqn:Ehm; [|discriminate].
  destruct (ResNet50.header_methods rows') as [hm'|] eqn:Ehm'; [|discriminate].
  cbn [bind]. intros E E'. apply Ok_inj in E, E'. subst h h'.
  pose proof (skeleton_header_sections rows rows' hs hs' H Ehs Ehs') as Hhs.
  rewrite (header_methods_shape rows rows' hm hm' H Ehm Ehm'), Hlen.
  unfold Html.text. rewrite !skeleton_concat_nl. cbn [map].
  rewrite !(skeleton_app "        "), Hhs. reflexivity.
Qed.

Lemma skeleton_render_html2 (rows rows' : list ResNet50.row) (doc doc' : string) :
  map shape2 rows = map shape2 rows' ->
  ResNet50.render_html rows = Ok doc -> ResNet50.render_html rows' = Ok doc' ->
  skeleton doc = skeleton doc'.
Proof.
  intros H. unfold ResNet50.render_html.
  destruct (ResNet50.head rows) as [h|] eqn:Eh; [|discriminate].
  destruct (ResNet50.head rows') as [h'|] eqn:Eh'; [|discriminate].
  cbn [bind]. intros [= <-] [= <-].
  rewrite !skeleton_app, !skeleton_concat_nl.
  rewrite (skeleton_header2 rows rows' h h' H Eh Eh').
  now rewrite (map_skeleton_rows shape2 ResNet50.row_html rows rows'
                 skeleton_row_html2 H).
Qed.


(** C6.  [html.escape] replaces each of the five special characters by its
    character reference, so that an escaped string holds no ["<"], [">"] or
    quote at all, and no ampersand but the one that starts a reference.  Both
    renderers embed a BaseKey, a section name and an image path only through
    [html.escape]: every ampersand of a rendered document starts a reference,
    and the delimiters of a rendered document, in their order, depend on the
    shape of the table alone (how many rows, and which slots hold an image),
    not on what the BaseKeys, section names and paths are. *)
Theorem escaping_preserves_structure :
  (forall s,
      Html.escape s = escape_chars s
      /\ skeleton (Html.escape s) = ""
      /\ amp_closed (Html.escape s))
  /\ (forall rows, amp_ok (Gallery.render_html rows) = true)
  /\ (forall rows rows',
        map shape1 rows = map shape1 rows' ->
        skeleton (Gallery.render_html rows) = skeleton (Gallery.render_html rows'))
  /\ (forall rows doc, ResNet50.render_html rows = Ok doc -> amp_ok doc = true)
  /\ (forall rows rows' doc doc',
        map shape2 rows = map shape2 rows' ->
        ResNet50.render_html rows = Ok doc ->
        ResNet50.render_html rows' = Ok doc' ->
        skeleton doc = skeleton doc').
Proof.
  split; [|split; [|split; [|split]]].
  - intros s. split; [apply escape_escape_chars|].
    split; [apply skeleton_escape | apply amp_closed_escape].
  - exact amp_ok_render_html1.
  - exact skeleton_render_html1.
  - exact amp_ok_render_html2.
  - exact skeleton_render_html2.
Qed.

(** A BaseKey made of markup: its row has the delimiters of any other row
    without images. *)
Example escape_example :
  Html.escape (String "<" (String "b" (String ">" (String "&" (String Html.dquote "")))))
  = "&lt;b&gt;&amp;&quot;"
  /\ skeleton
       (Gallery.row_html
          {| Gallery.base := "<script>'";
             Gallery.chinese := "Chinese/<script>'.png";
             Gallery.layercam3 := [None; None; None];
             Gallery.hirescam3 := [None; None; None];
             Gallery.scorecam3 := [None; None; None] |})
     = skeleton
         (Gallery.row_html
            {| Gallery.base := "A_0001";
               Gallery.chinese := "Chinese/A_0001.png";
               Gallery.layercam3 := [None; None; None];
               Gallery.hirescam3 := [None; None; None];
               Gallery.scorecam3 := [None; None; None] |}).
Proof. split; vm_compute; reflexivity. Qed.


(** ** References: from a path to its text and back *)

Lemma split_slash_no_slash (x : string) :
  Str.contains Str.slash x = false -> Str.split_slash x = [x].
Proof.
  induction x as [|c x IH]; [reflexivity|].
  cbn [Str.contains Str.split_slash]. intros H.
  apply orb_false_iff in H. destruct H as [Hc Hx].
  rewrite Ascii.eqb_sym, Hc, (IH Hx). reflexivity.
Qed.

Lemma split_slash_app (x rest : string) :
  Str.contains Str.slash x = false ->
  Str.split_slash (x ++ String Str.slash rest) = x :: Str.split_slash rest.
Proof.
  induction x as [|c x IH]; intros H.
  - reflexivity.
  - cbn [Str.contains] in H. apply orb_false_iff in H. destruct H as [Hc Hx].
    change (String c x ++ String Str.slash rest)%string
      with (String c (x ++ String Str.slash rest)).
    cbn [Str.split_slash]. rewrite Ascii.eqb_sym, Hc, (IH Hx). reflexivity.
Qed.

Lemma split_slash_parts (s : string) :
  Forall (fun x => Str.contains Str.slash x = false) (Str.split_slash s).
Proof.
  induction s as [|c s IH]; [repeat constructor|].
  cbn [Str.split_slash]. destruct (Ascii.eqb c Str.slash) eqn:E.
  - now constructor.
  - destruct (Str.split_slash s) as [|w ws]; [repeat constructor|].
    + cbn [Str.contains]. now rewrite Ascii.eqb_sym, E.
    + inversion IH; subst. constructor; [|assumption].
      cbn [Str.contains]. now rewrite Ascii.eqb_sym, E.
Qed.

Lemma parse_parts_clean (s : string) :
  Forall (fun x => clean x = true) (Path.parse_parts s).
Proof.
  unfold Path.parse_parts. apply Forall_forall. intros x Hx.
  apply filter_In in Hx. destruct Hx as [Hin Hf].
  pose proof (split_slash_parts s) as H. rewrite Forall_forall in H.
  unfold clean. now rewrite Hf, (H x Hin).
Qed.

Lemma clean_inv (x : string) :
  clean x = true ->
  String.eqb x "" = false /\ String.eqb x "." = false
  /\ Str.contains Str.slash x = false.
Proof.
  unfold clean. rewrite !andb_true_iff, !negb_true_iff. tauto.
Qed.

Lemma split_slash_as_posix (x : string) (p : path) :
  Forall (fun y => clean y = true) (x :: p) ->
  Str.split_slash (Path.as_posix (x :: p)) = x :: p.
Proof.
  revert x. induction p as [|y p IH]; intros x H; inversion H as [|? ? Hx Hp]; subst.
  - apply split_slash_no_slash. now apply clean_inv in Hx.
  - change (Path.as_posix (x :: y :: p))
      with (x ++ String Str.slash (Path.as_posix (y :: p)))%string.
    rewrite split_slash_app; [|now apply clean_inv in Hx].
    now rewrite (IH y Hp).
Qed.

(** [PROJECT_ROOT / p.as_posix()] is [p] again. *)
Lemma joinpath_as_posix (p : path) :
  Forall (fun y => clean y = true) p ->
  Path.joinpath PROJECT_ROOT (Path.as_posix p) = p.
Proof.
  intros H. unfold Path.joinpath, Path.parse_parts, PROJECT_ROOT. cbn [app].
  destruct p as [|x p]; [reflexivity|]. rewrite (split_slash_as_posix x p H).
  apply forallb_filter_id. apply forallb_forall. intros y Hy.
  rewrite Forall_forall in H. specialize (H y Hy). apply clean_inv in H.
  destruct H as [H1 [H2 _]]. now rewrite H1, H2.
Qed.

Lemma isabs_as_posix (p : path) :
  Forall (fun y => clean y = true) p -> isabs (Path.as_posix p) = false.
Proof.
  intros H. destruct p as [|x p]; [reflexivity|].
  inversion H as [|? ? Hx _]; subst. apply clean_inv in Hx.
  destruct Hx as [H1 [_ H3]]. destruct x as [|c x]; [discriminate|].
  cbn [Str.contains] in H3. apply orb_false_iff in H3. destruct H3 as [Hc _].
  assert (E : exists rest, Path.as_posix (String c x :: p) = String c rest).
  { destruct p; eexists; reflexivity. }
  destruct E as [rest ->]. unfold isabs. cbn [String.prefix].
  destruct (ascii_dec "/" c) as [<-|_]; [discriminate | reflexivity].
Qed.

Lemma resolves_as_posix (fs : node) (p : path) :
  Forall (fun y => clean y = true) p -> Path.exists_ fs p = true ->
  resolves_from_output fs (Path.as_posix p).
Proof.
  intros Hc He. split; [now apply isabs_as_posix|].
  now rewrite joinpath_as_posix.
Qed.

Lemma joinpath_clean (d : path) (s : string) :
  Forall (fun y => clean y = true) d ->
  Forall (fun y => clean y = true) (Path.joinpath d s).
Proof.
  intros H. apply Forall_app. split; [exact H | apply parse_parts_clean].
Qed.

Lemma valid_name_clean (x : string) : valid_name x = true -> clean x = true.
Proof.
  unfold valid_name, clean. rewrite !andb_true_iff. tauto.
Qed.


Lemma present_In (l : list (option string)) (s : string) :
  In s (present l) <-> In (Some s) l.
Proof.
  induction l as [|[x|] l IH]; cbn [present In].
  - tauto.
  - rewrite IH. split; (intros [H|H]; [left; congruence | now right]).
  - rewrite IH. split; [now right | intros [H|H]; [discriminate | exact H]].
Qed.

Lemma probe_exts_ref (fs : node) (d : path) (root : string)
    (exts : list string) (s : string) :
  Forall (fun y => clean y = true) d ->
  probe_exts fs d root exts = Some s -> resolves_from_output fs s.
Proof.
  intros Hd E. pose proof (probe_exts_inv fs d root exts) as H.
  rewrite E in H. destruct H as [pre [ext [post [_ [_ [Hex ->]]]]]].
  apply resolves_as_posix; [|exact Hex]. now apply joinpath_clean.
Qed.

Lemma pick_loop_refs (fs : node) (d : path) (roots : list string)
    (results : list (option string)) :
  Forall (fun y => clean y = true) d ->
  (forall s, In (Some s) results -> resolves_from_output fs s) ->
  forall s, In (Some s) (Gallery.pick_loop fs d roots results) ->
            resolves_from_output fs s.
Proof.
  intros Hd. revert results.
  induction roots as [|root roots IH]; intros results Hres s;
    cbn [Gallery.pick_loop]; [apply Hres|].
  apply IH. intros s' Hs'. apply in_app_or in Hs'. destruct Hs' as [Hs'|[Hs'|[]]].
  - now apply Hres.
  - symmetry in Hs'. now apply (probe_exts_ref fs d root EXTS).
Qed.

Lemma method_slots_refs (fs : node) (dirs : list string) (md : path)
    (b m s : string) :
  Forall (fun y => clean y = true) md ->
  In (Some s) (Gallery.method_slots fs dirs md b m) ->
  resolves_from_output fs s.
Proof.
  intros Hmd. unfold Gallery.method_slots, Gallery.pick_method_images.
  assert (Hnone : In (Some s) [None; None; None] -> resolves_from_output fs s).
  { intros [H|[H|[H|[]]]]; discriminate. }
  destruct (in_set b dirs); [|exact Hnone].
  destruct (negb _); [exact Hnone|].
  apply pick_loop_refs; [now apply joinpath_clean | intros s' []].
Qed.

Lemma single_loop_ref (fs : node) (d : path) (roots : list string) (s : string) :
  Forall (fun y => clean y = true) d ->
  ResNet50.single_loop fs d roots = Some s -> resolves_from_output fs s.
Proof.
  intros Hd. induction roots as [|root roots IH]; cbn [ResNet50.single_loop];
    [discriminate|].
  destruct (probe_exts fs d root EXTS) as [r|] eqn:E; [|exact IH].
  intros [= <-]. now apply (probe_exts_ref fs d root EXTS).
Qed.

Lemma pick_single_image_ref (fs : node) (d : path) (b m s : string) :
  Forall (fun y => clean y = true) d ->
  ResNet50.pick_single_image fs d b m = Some s -> resolves_from_output fs s.
Proof.
  intros Hd. unfold ResNet50.pick_single_image.
  destruct (negb _); [discriminate | now apply single_loop_ref].
Qed.

(** What the enumerator returns are regular files of the directory. *)
Lemma list_images_In (fs : node) (d : path) (imgs : list path) (p : path) :
  wf_node fs = true -> list_images fs d = Ok imgs -> In p imgs ->
  exists n, p = d ++ [n] /\ valid_name n = true /\ Path.is_file fs p = true.
Proof.
  intros Hwf. unfold list_images, Path.iterdir.
  destruct (Path.exists_ fs d); cbn [negb]; [|intros [= <-] []].
  destruct (Path.stat fs d) as [[data|es]|] eqn:Hd; cbn [bind]; try discriminate.
  intros E Hp. apply Ok_inj in E. subst imgs.
  apply (Permutation_in _ (Permutation_sym (sorted_perm _))) in Hp.
  apply filter_In in Hp. destruct Hp as [Hp Hf].
  apply in_map_iff in Hp. destruct Hp as [[n c] [<- Hin]]. cbn [fst] in *.
  exists n. split; [reflexivity|]. split.
  - pose proof (wf_stat _ _ _ Hwf Hd) as Hes. apply wf_dir in Hes.
    destruct Hes as [Hval _]. rewrite Forall_forall in Hval. apply Hval.
    apply in_map_iff. now exists (n, c).
  - unfold image_filter in Hf. rewrite !andb_true_iff in Hf. tauto.
Qed.

Lemma source_ref (fs : node) (imgs : list path) (src : path) :
  wf_node fs = true -> list_images fs CHINESE_DIR = Ok imgs -> In src imgs ->
  resolves_from_output fs (Path.as_posix src)
  /\ Path.is_file fs (Path.joinpath PROJECT_ROOT (Path.as_posix src)) = true.
Proof.
  intros Hwf Himgs Hsrc.
  destruct (list_images_In fs _ imgs src Hwf Himgs Hsrc) as [n [-> [Hn Hf]]].
  assert (Hc : Forall (fun y => clean y = true) (CHINESE_DIR ++ [n])).
  { constructor; [reflexivity|]. constructor; [now apply valid_name_clean|constructor]. }
  split.
  - apply resolves_as_posix; [exact Hc|]. unfold Path.exists_.
    unfold Path.is_file in Hf. now destruct (Path.stat fs (CHINESE_DIR ++ [n])).
  - now rewrite joinpath_as_posix.
Qed.

(** On a well-formed tree, every image reference of every row record --
    the source and each resolved variant, in both pipelines -- is a relative
    path, and read from [PROJECT_ROOT] it leads to an entry of the very tree
    the rows were built from; the source reference leads to a regular
    file. *)
Lemma row_refs_relative_and_exist (fs : node) :
  wf_node fs = true ->
  (forall rows r, Gallery.build_rows fs = Ok rows -> In r rows ->
     Path.is_file fs (Path.joinpath PROJECT_ROOT (Gallery.chinese r)) = true
     /\ forall ref, In ref (refs1 r) -> resolves_from_output fs ref)
  /\ (forall rows r, ResNet50.build_rows fs = Ok rows -> In r rows ->
        Path.is_file fs (Path.joinpath PROJECT_ROOT (ResNet50.chinese r)) = true
        /\ forall ref, In ref (refs2 r) -> resolves_from_output fs ref).
Proof.
  intros Hwf. split.
  - intros rows r. unfold Gallery.build_rows.
    destruct (list_images fs CHINESE_DIR) as [imgs|] eqn:Himgs; [|discriminate].
    destruct (list_dirs fs Gallery.LAYERCAM_DIR) as [ld|]; [|discriminate].
    destruct (list_dirs fs Gallery.SCORECAM_DIR) as [sd|]; [|discriminate].
    destruct (list_dirs fs Gallery.HIRESCAM_DIR) as [hd|]; [|discriminate].
    cbn [bind]. intros E Hr. apply Ok_inj in E. subst rows.
    apply in_map_iff in Hr. destruct Hr as [src [<- Hsrc]].
    destruct (source_ref fs imgs src Hwf Himgs Hsrc) as [H1 H2].
    split; [exact H2|]. intros ref [<-|Href]; [exact H1|].
    apply present_In in Href. cbn [Gallery.build_row Gallery.layercam3
      Gallery.hirescam3 Gallery.scorecam3] in Href.
    apply in_app_or in Href. destruct Href as [Href|Href];
      [|apply in_app_or in Href; destruct Href as [Href|Href]];
      (eapply method_slots_refs; [|exact Href]); repeat constructor.
  - intros rows r. unfold ResNet50.build_rows.
    destruct (list_images fs CHINESE_DIR) as [imgs|] eqn:Himgs; [|discriminate].
    cbn [bind]. intros E Hr. apply Ok_inj in E. subst rows.
    apply in_map_iff in Hr. destruct Hr as [src [<- Hsrc]].
    destruct (source_ref fs imgs src Hwf Himgs Hsrc) as [H1 H2].
    split; [exact H2|]. intros ref [<-|Href]; [exact H1|].
    apply present_In in Href. cbn [ResNet50.build_row ResNet50.sections] in Href.
    apply in_flat_map in Href. destruct Href as [e [He Href]].
    apply in_map_iff in He. destruct He as [section [<- _]].
    cbv beta zeta delta [ResNet50.build_section] in Href. cbn [fst snd] in Href.
    destruct Href as [Href|[Href|[]]];
      (eapply pick_single_image_ref; [|exact Href]);
      repeat apply joinpath_clean; constructor.
Qed.


(** ** Letter case of the extension *)

Lemma probe_exts_probed (fs : node) (d : path) (root ref : string) :
  probe_exts fs d root EXTS = Some ref ->
  exists ext, In ext EXTS /\ ref = Path.as_posix (candidate d root ext)
              /\ Path.exists_ fs (candidate d root ext) = true.
Proof.
  intros E. pose proof (probe_exts_inv fs d root EXTS) as H. rewrite E in H.
  destruct H as [pre [ext [post [HE [_ [Hex ->]]]]]]. exists ext.
  split; [|now split]. rewrite HE. apply in_or_app. right. now left.
Qed.

Lemma pick_loop_probed (fs : node) (d : path) (roots : list string)
    (results : list (option string)) (ref : string) :
  In (Some ref) (Gallery.pick_loop fs d roots results) ->
  In (Some ref) results
  \/ exists root, In root roots /\ probe_exts fs d root EXTS = Some ref.
Proof.
  revert results. induction roots as [|root roots IH]; intros results;
    cbn [Gallery.pick_loop]; [now left|].
  intros H. apply IH in H. destruct H as [H|[root' [Hr H]]].
  - apply in_app_or in H. destruct H as [H|[H|[]]]; [now left|].
    right. exists root. split; [now left | exact H].
  - right. exists root'. split; [now right | exact H].
Qed.

Lemma pick_method_images_probed (fs : node) (d : path) (b m ref : string) :
  In (Some ref) (Gallery.pick_method_images fs d b m) -> probed_ref fs d b m ref.
Proof.
  unfold Gallery.pick_method_images. destruct (negb _).
  - intros [H|[H|[H|[]]]]; discriminate.
  - intros H. apply pick_loop_probed in H. destruct H as [[]|[root [Hr H]]].
    apply probe_exts_probed in H. destruct H as [ext [He [-> Hex]]].
    now exists root, ext.
Qed.

Lemma single_loop_probed (fs : node) (d : path) (roots : list string)
    (ref : string) :
  ResNet50.single_loop fs d roots = Some ref ->
  exists root, In root roots /\ probe_exts fs d root EXTS = Some ref.
Proof.
  induction roots as [|root roots IH]; cbn [ResNet50.single_loop]; [discriminate|].
  destruct (probe_exts fs d root EXTS) as [r|] eqn:E.
  - intros [= <-]. exists root. split; [now left | exact E].
  - intros H. destruct (IH H) as [root' [Hr H']]. exists root'.
    split; [now right | exact H'].
Qed.

Lemma pick_single_image_probed (fs : node) (d : path) (b m ref : string) :
  ResNet50.pick_single_image fs d b m = Some ref -> probed_ref fs d b m ref.
Proof.
  unfold ResNet50.pick_single_image. destruct (negb _); [discriminate|].
  intros H. apply single_loop_probed in H. destruct H as [root [Hr H]].
  apply probe_exts_probed in H. destruct H as [ext [He [-> Hex]]].
  now exists root, ext.
Qed.

(** C9, as the claim has it, fails: a file [A_0001_layercam_cam.PNG], whose
    extension is [.png] once lowered, is a regular file of the candidate
    directory in both pipelines, and the enumerator does accept
    [A_0001.PNG]; yet both resolvers report every slot absent. *)
Lemma capitals_variant_not_resolved :
  Str.lower (Path.suffix_of "A_0001_layercam_cam.PNG") = ".png"
  /\ list_images capitals_fs CHINESE_DIR = Ok [["Chinese"; "A_0001.PNG"]]
  /\ Path.is_file capitals_fs ["layercam"; "A_0001"; "A_0001_layercam_cam.PNG"] = true
  /\ Gallery.pick_method_images capitals_fs ["layercam"; "A_0001"]
       "A_0001" "layercam" = [None; None; None]
  /\ Path.is_file capitals_fs
       ["12.17_ResNet50"; "pretrain_multicrop"; "layercam"; "A_0001";
        "A_0001_layercam_cam.PNG"] = true
  /\ ResNet50.pick_single_image capitals_fs
       ["12.17_ResNet50"; "pretrain_multicrop"; "layercam"; "A_0001"]
       "A_0001" "layercam" = None.
Proof. repeat split; vm_compute; reflexivity. Qed.

(** C9, amended.  The source enumerator ignores the letter case of the
    extension: on a well-formed tree it returns every regular file of the
    directory whose lowered extension is allowed and whose name does not start
    with ["._"].  The variant resolvers do not: a reference they return is
    the text of a candidate whose extension is one of [.png], [.jpg], [.jpeg],
    [.webp] as written, in lower case, and which exists under exactly that
    name. *)
Theorem extension_case (fs : node) (d : path) (b m : string) :
  wf_node fs = true ->
  (forall es n data,
      Path.stat fs d = Some (Dir es) -> In (n, File data) es ->
      allowed_name n -> String.prefix "._" n = false ->
      exists imgs, list_images fs d = Ok imgs /\ In (d ++ [n]) imgs)
  /\ (forall ref, In (Some ref) (Gallery.pick_method_images fs d b m) ->
        probed_ref fs d b m ref)
  /\ (forall ref, ResNet50.pick_single_image fs d b m = Some ref ->
        probed_ref fs d b m ref).
Proof.
  intros Hwf. split; [|split].
  - intros es n data Hd Hin Hal Hpre.
    exists (sorted (filter (image_filter fs) (map (fun e => d ++ [fst e]) es))).
    split.
    + unfold list_images, Path.exists_, Path.iterdir. now rewrite Hd.
    + apply (Permutation_in _ (sorted_perm _)). apply filter_In. split.
      * apply in_map_iff. now exists (n, File data).
      * apply (image_filter_child fs d es n (File data) Hwf Hd Hin).
        split; [now exists data | now split].
  - intros ref. apply pick_method_images_probed.
  - intros ref. apply pick_single_image_probed.
Qed.

Lemma extension_case_witness :
  wf_node capitals_fs = true
  /\ (exists imgs, list_images capitals_fs ["Chinese"] = Ok imgs
        /\ In (["Chinese"] ++ ["A_0001.PNG"]) imgs)
  /\ (forall ref,
        In (Some ref)
           (Gallery.pick_method_images example_fs ["layercam"; "A_0001"]
              "A_0001" "layercam") ->
        probed_ref example_fs ["layercam"; "A_0001"] "A_0001" "layercam" ref).
Proof.
  split; [reflexivity|]. split.
  - destruct (extension_case capitals_fs ["Chinese"] "" "" eq_refl) as [H _].
    apply (H [("A_0001.PNG", File "")] "A_0001.PNG" "" eq_refl).
    + now left.
    + unfold allowed_name. vm_compute. now left.
    + reflexivity.
  - exact (proj1 (proj2 (extension_case example_fs ["layercam"; "A_0001"]
                           "A_0001" "layercam" eq_refl))).
Defined.


(** ** Two listings of one state *)

Lemma same_state_lookup (es es' : list (string * node)) (x : string) :
  same_state (Dir es) (Dir es') = true ->
  same_result (lookup_entry x es) (lookup_entry x es').
Proof.
  cbn [same_state]. rewrite andb_true_iff, !forallb_forall. intros [H1 H2].
  unfold same_result. destruct (lookup_entry x es) as [n|] eqn:E.
  - specialize (H1 (x, n) (lookup_entry_In _ _ _ E)). cbn [fst snd] in H1.
    now destruct (lookup_entry x es').
  - destruct (lookup_entry x es') as [n'|] eqn:E'; [|exact I].
    specialize (H2 (x, n') (lookup_entry_In _ _ _ E')). cbn [fst] in H2.
    rewrite E in H2. discriminate.
Qed.

Lemma same_state_names (es es' : list (string * node)) (x : string) :
  same_state (Dir es) (Dir es') = true ->
  In x (map fst es) <-> In x (map fst es').
Proof.
  intros H. pose proof (same_state_lookup es es' x H) as R.
  pose proof (lookup_entry_None es x) as N.
  pose proof (lookup_entry_None es' x) as N'.
  unfold same_result in R.
  destruct (lookup_entry x es), (lookup_entry x es'); try contradiction.
  - split; intros _.
    + destruct (in_dec string_dec x (map fst es')) as [Hi|Hn]; [exact Hi|].
      apply N' in Hn. discriminate.
    + destruct (in_dec string_dec x (map fst es)) as [Hi|Hn]; [exact Hi|].
      apply N in Hn. discriminate.
  - split; intros Hi; exfalso; [now apply (proj1 N) | now apply (proj1 N')].
Qed.

Lemma same_step (c c' : cursor) (x : string) :
  same_cursor c c' ->
  match step c x, step c' x with
  | Some d, Some d' => same_cursor d d'
  | None, None => True
  | _, _ => False
  end.
Proof.
  destruct c as [anc cur], c' as [anc' cur']. unfold same_cursor, step.
  cbn [fst snd]. intros [Hc Ha].
  destruct cur as [data|es], cur' as [data'|es']; try discriminate; [exact I|].
  destruct (String.eqb x "."); [now split|].
  destruct (String.eqb x "..").
  - destruct Ha as [|a a' anc anc' Haa Ha]; cbn [fst snd]; now split.
  - pose proof (same_state_lookup es es' x Hc) as R. unfold same_result in R.
    destruct (lookup_entry x es), (lookup_entry x es'); try contradiction;
      [|exact I].
    cbn [fst snd]. split; [exact R | now constructor].
Qed.

Lemma same_walk (p : list string) (c c' : cursor) :
  same_cursor c c' ->
  match walk c p, walk c' p with
  | Some d, Some d' => same_cursor d d'
  | None, None => True
  | _, _ => False
  end.
Proof.
  revert c c'. induction p as [|x p IH]; intros c c' H; cbn [walk]; [exact H|].
  pose proof (same_step c c' x H) as S.
  destruct (step c x) as [d|], (step c' x) as [d'|]; try contradiction;
    [now apply IH | exact I].
Qed.

Section SameState.

Variables fs fs' : node.
Hypothesis Hwf : wf_node fs = true.
Hypothesis Hwf' : wf_node fs' = true.
Hypothesis Hsame : same_state fs fs' = true.

Lemma same_stat (p : path) : same_result (Path.stat fs p) (Path.stat fs' p).
Proof.
  unfold Path.stat.
  assert (H : same_cursor ([], fs) ([], fs')) by (split; [exact Hsame | constructor]).
  pose proof (same_walk p _ _ H) as W.
  destruct (walk ([], fs) p) as [d|], (walk ([], fs') p) as [d'|];
    try contradiction; [exact (proj1 W) | exact I].
Qed.

Lemma same_exists (p : path) : Path.exists_ fs p = Path.exists_ fs' p.
Proof.
  unfold Path.exists_. pose proof (same_stat p) as S. unfold same_result in S.
  now destruct (Path.stat fs p), (Path.stat fs' p).
Qed.

Lemma same_is_file (p : path) : Path.is_file fs p = Path.is_file fs' p.
Proof.
  unfold Path.is_file. pose proof (same_stat p) as S. unfold same_result in S.
  destruct (Path.stat fs p) as [[x|es]|], (Path.stat fs' p) as [[x'|es']|];
    try contradiction; try discriminate; reflexivity.
Qed.

Lemma same_is_dir (p : path) : Path.is_dir fs p = Path.is_dir fs' p.
Proof.
  unfold Path.is_dir. pose proof (same_stat p) as S. unfold same_result in S.
  destruct (Path.stat fs p) as [[x|es]|], (Path.stat fs' p) as [[x'|es']|];
    try contradiction; try discriminate; reflexivity.
Qed.

Lemma same_image_filter (p : path) : image_filter fs p = image_filter fs' p.
Proof. unfold image_filter. now rewrite same_is_file. Qed.

Lemma same_children (d : path) (es es' : list (string * node)) (p : path) :
  same_state (Dir es) (Dir es') = true ->
  In p (map (fun e => d ++ [fst e]) es) <-> In p (map (fun e => d ++ [fst e]) es').
Proof.
  intros H. rewrite <- !(map_map fst (fun x => d ++ [x])), !in_map_iff.
  split; intros [x [<- Hx]]; exists x; (split; [reflexivity|]);
    now apply (same_state_names es es' x H).
Qed.

Lemma same_list_images (d : path) : list_images fs d = list_images fs' d.
Proof.
  unfold list_images, Path.iterdir. rewrite <- same_exists.
  destruct (Path.exists_ fs d); [|reflexivity]. cbn [negb].
  pose proof (same_stat d) as S. unfold same_result in S.
  destruct (Path.stat fs d) as [[x|es]|] eqn:E,
           (Path.stat fs' d) as [[x'|es']|] eqn:E';
    try contradiction; try discriminate; try reflexivity.
  cbn [bind]. f_equal.
  pose proof (wf_stat _ _ _ Hwf E) as W. apply wf_dir in W.
  pose proof (wf_stat _ _ _ Hwf' E') as W'. apply wf_dir in W'.
  apply sorted_lt_unique.
  - apply sorted_lt, NoDup_filter, NoDup_children. tauto.
  - apply sorted_lt, NoDup_filter, NoDup_children. tauto.
  - intros p. split; intros Hp.
    + apply (Permutation_in _ (sorted_perm _)).
      apply (Permutation_in _ (Permutation_sym (sorted_perm _))) in Hp.
      apply filter_In in Hp. apply filter_In. rewrite <- same_image_filter.
      split; [|tauto]. now apply (same_children d es es' p S).
    + apply (Permutation_in _ (sorted_perm _)).
      apply (Permutation_in _ (Permutation_sym (sorted_perm _))) in Hp.
      apply filter_In in Hp. apply filter_In. rewrite same_image_filter.
      split; [|tauto]. now apply (same_children d es es' p S).
Qed.

(** The two sets of directory names have the same elements. *)
Lemma same_list_dirs (d : path) :
  match list_dirs fs d, list_dirs fs' d with
  | Ok l, Ok l' => forall b, in_set b l = in_set b l'
  | Err e, Err e' => e = e'
  | _, _ => False
  end.
Proof.
  unfold list_dirs, Path.iterdir. pose proof (same_exists d) as X.
  destruct (Path.exists_ fs d), (Path.exists_ fs' d); try discriminate;
    [|intros b; reflexivity]. cbn [negb].
  pose proof (same_stat d) as S. unfold same_result in S.
  destruct (Path.stat fs d) as [[x|es]|] eqn:E,
           (Path.stat fs' d) as [[x'|es']|] eqn:E';
    try contradiction; try discriminate; try reflexivity.
  cbn [bind]. intros b.
  assert (M : forall g gs (l : list (string * node)),
             (forall p, Path.is_dir g p = Path.is_dir gs p) ->
             In b (map Path.name
                     (filter (Path.is_dir g) (map (fun e => d ++ [fst e]) l)))
             <-> In (d ++ [b]) (map (fun e => d ++ [fst e]) l)
                 /\ Path.is_dir gs (d ++ [b]) = true).
  { intros g gs l Hg. rewrite in_map_iff. split.
    - intros [p [Hn Hp]]. apply filter_In in Hp. destruct Hp as [Hp Hd].
      assert (p = d ++ [b]) as ->.
      { apply in_map_iff in Hp. destruct Hp as [e [<- _]].
        rewrite name_snoc in Hn. now subst. }
      split; [exact Hp | now rewrite <- Hg].
    - intros [Hp Hd]. exists (d ++ [b]). split; [apply name_snoc|].
      apply filter_In. split; [exact Hp | now rewrite Hg]. }
  apply eq_true_iff_eq. rewrite !in_set_In.
  rewrite (M fs fs es (fun p => eq_refl)), (M fs' fs es' (fun p => eq_sym (same_is_dir p))).
  now rewrite (same_children d es es' (d ++ [b]) S).
Qed.

Lemma same_probe_exts (d : path) (root : string) (exts : list string) :
  probe_exts fs d root exts = probe_exts fs' d root exts.
Proof.
  induction exts as [|ext exts IH]; cbn [probe_exts]; [reflexivity|].
  now rewrite same_exists, IH.
Qed.

Lemma same_pick_loop (d : path) (roots : list string)
    (results : list (option string)) :
  Gallery.pick_loop fs d roots results = Gallery.pick_loop fs' d roots results.
Proof.
  revert results. induction roots as [|root roots IH]; intros results;
    cbn [Gallery.pick_loop]; [reflexivity|].
  now rewrite same_probe_exts, IH.
Qed.

Lemma same_pick_method_images (d : path) (b m : string) :
  Gallery.pick_method_images fs d b m = Gallery.pick_method_images fs' d b m.
Proof.
  unfold Gallery.pick_method_images. now rewrite same_exists, same_pick_loop.
Qed.

Lemma same_pick_single_image (d : path) (b m : string) :
  ResNet50.pick_single_image fs d b m = ResNet50.pick_single_image fs' d b m.
Proof.
  unfold ResNet50.pick_single_image. rewrite same_exists.
  destruct (negb _); [reflexivity|].
  induction (roots_of b m) as [|root roots IH]; cbn [ResNet50.single_loop];
    [reflexivity|].
  now rewrite same_probe_exts, IH.
Qed.

Lemma same_build_rows2 : ResNet50.build_rows fs = ResNet50.build_rows fs'.
Proof.
  unfold ResNet50.build_rows. rewrite same_list_images.
  destruct (list_images fs' CHINESE_DIR) as [imgs|]; [|reflexivity].
  cbn [bind]. f_equal. apply map_ext. intros src.
  unfold ResNet50.build_row. f_equal. apply map_ext. intros section.
  cbv beta zeta delta [ResNet50.build_section].
  now rewrite !same_pick_single_image.
Qed.

Lemma same_build_rows1 : Gallery.build_rows fs = Gallery.build_rows fs'.
Proof.
  unfold Gallery.build_rows. rewrite same_list_images.
  destruct (list_images fs' CHINESE_DIR) as [imgs|]; [|reflexivity].
  cbn [bind].
  pose proof (same_list_dirs Gallery.LAYERCAM_DIR) as L.
  pose proof (same_list_dirs Gallery.SCORECAM_DIR) as S.
  pose proof (same_list_dirs Gallery.HIRESCAM_DIR) as H.
  destruct (list_dirs fs Gallery.LAYERCAM_DIR) as [ld|],
           (list_dirs fs' Gallery.LAYERCAM_DIR) as [ld'|];
    try contradiction; [|now subst]. cbn [bind].
  destruct (list_dirs fs Gallery.SCORECAM_DIR) as [sd|],
           (list_dirs fs' Gallery.SCORECAM_DIR) as [sd'|];
    try contradiction; [|now subst]. cbn [bind].
  destruct (list_dirs fs Gallery.HIRESCAM_DIR) as [hd|],
           (list_dirs fs' Gallery.HIRESCAM_DIR) as [hd'|];
    try contradiction; [|now subst]. cbn [bind].
  f_equal. apply map_ext. intros src.
  unfold Gallery.build_row, Gallery.method_slots.
  now rewrite L, S, H, !same_pick_method_images.
Qed.

End SameState.

(** C7.  The document either generator computes is a function of the state
    of the file system and of nothing else: two well-formed trees in the same
    state, however differently their directories list their entries, give
    the same rows and the same document, byte for byte, or the same error. *)
Theorem generators_deterministic (fs fs' : node) :
  wf_node fs = true -> wf_node fs' = true -> same_state fs fs' = true ->
  Gallery.build_rows fs = Gallery.build_rows fs'
  /\ document1 fs = document1 fs'
  /\ ResNet50.build_rows fs = ResNet50.build_rows fs'
  /\ document2 fs = document2 fs'.
Proof.
  intros Hwf Hwf' Hsame. unfold document1, document2.
  rewrite (same_build_rows1 fs fs' Hwf Hwf' Hsame).
  rewrite (same_build_rows2 fs fs' Hwf Hwf' Hsame).
  repeat split.
Qed.

Lemma generators_deterministic_witness :
  wf_node example_fs = true /\ wf_node example_fs_reordered = true
  /\ same_state example_fs example_fs_reordered = true
  /\ document1 example_fs = document1 example_fs_reordered
  /\ document2 example_fs = document2 example_fs_reordered.
Proof.
  split; [reflexivity|]. split; [reflexivity|]. split; [reflexivity|].
  destruct (generators_deterministic example_fs example_fs_reordered
              eq_refl eq_refl eq_refl) as [_ [H1 [_ H2]]].
  split; assumption.
Defined.


(** * Further properties of the code *)

(** ** The two resolvers side by side *)

Lemma pick_loop_map (fs : node) (d : path) (roots : list string)
    (results : list (option string)) :
  Gallery.pick_loop fs d roots results
  = results ++ map (fun root => probe_exts fs d root EXTS) roots.
Proof.
  revert results. induction roots as [|root roots IH]; intros results;
    cbn [Gallery.pick_loop map].
  - now rewrite app_nil_r.
  - now rewrite IH, <- app_assoc.
Qed.

Lemma single_loop_first_present (fs : node) (d : path) (roots : list string) :
  ResNet50.single_loop fs d roots
  = first_present (map (fun root => probe_exts fs d root EXTS) roots).
Proof.
  induction roots as [|root roots IH]; cbn [ResNet50.single_loop map first_present];
    [reflexivity|].
  now destruct (probe_exts fs d root EXTS).
Qed.


(** ** [list_dirs] *)

Lemma is_dir_child (fs : node) (d : path) (es : list (string * node))
    (x : string) (n : node) :
  wf_node fs = true -> Path.stat fs d = Some (Dir es) -> In (x, n) es ->
  Path.is_dir fs (d ++ [x]) = true <-> exists es', n = Dir es'.
Proof.
  intros Hwf Hd Hin.
  pose proof (wf_stat _ _ _ Hwf Hd) as Hes. apply wf_dir in Hes.
  destruct Hes as [Hval [Hnd _]].
  assert (Hx : valid_name x = true).
  { rewrite Forall_forall in Hval. apply Hval. apply in_map_iff. now exists (x, n). }
  unfold Path.is_dir.
  rewrite (stat_child fs d es x Hd Hx), (In_lookup_entry es x n Hnd Hin).
  destruct n as [data|es']; split; try discriminate.
  - intros [es' H]. discriminate.
  - intros _. now exists es'.
  - reflexivity.
Qed.

Lemma list_dirs_In (fs : node) (d : path) (es : list (string * node)) (b : string) :
  wf_node fs = true -> Path.stat fs d = Some (Dir es) ->
  In b (map Path.name
          (filter (Path.is_dir fs) (map (fun e => d ++ [fst e]) es)))
  <-> exists es', In (b, Dir es') es.
Proof.
  intros Hwf Hd. rewrite in_map_iff. split.
  - intros [p [Hn Hp]]. apply filter_In in Hp. destruct Hp as [Hp Hdir].
    apply in_map_iff in Hp. destruct Hp as [[x n] [<- Hin]]. cbn [fst] in *.
    rewrite name_snoc in Hn. subst x.
    apply (is_dir_child fs d es b n Hwf Hd Hin) in Hdir.
    destruct Hdir as [es' ->]. now exists es'.
  - intros [es' Hin]. exists (d ++ [b]). split; [apply name_snoc|].
    apply filter_In. split.
    + apply in_map_iff. now exists (b, Dir es').
    + apply (is_dir_child fs d es b (Dir es') Hwf Hd Hin). now exists es'.
Qed.

(** X2.  On a well-formed tree, [list_dirs] of a directory returns the
    names of its sub-directories and of nothing else (no file, no nested
    directory); of a path that does not exist, the empty set; and on a
    regular file it raises [NotADirectoryError], the existence test
    notwithstanding. *)
Theorem list_dirs_spec (fs : node) (d : path) :
  wf_node fs = true ->
  (forall es, Path.stat fs d = Some (Dir es) ->
     exists l, list_dirs fs d = Ok l
       /\ forall b, in_set b l = true <-> exists es', In (b, Dir es') es)
  /\ (Path.exists_ fs d = false -> list_dirs fs d = Ok [])
  /\ (Path.is_file fs d = true -> list_dirs fs d = Err NotADirectoryError).
Proof.
  intros Hwf. split; [|split].
  - intros es Hd. eexists. split.
    + unfold list_dirs, Path.exists_, Path.iterdir. rewrite Hd. reflexivity.
    + intros b. rewrite in_set_In. now apply list_dirs_In.
  - intros H. unfold list_dirs. now rewrite H.
  - unfold list_dirs, Path.is_file, Path.exists_, Path.iterdir.
    destruct (Path.stat fs d) as [[data|es]|]; try discriminate. reflexivity.
Qed.

Lemma list_dirs_spec_witness :
  wf_node example_fs = true
  /\ exists l, list_dirs example_fs ["layercam"] = Ok l
       /\ forall b, in_set b l = true <->
            exists es',
              In (b, Dir es')
                 [ ("A_0001", Dir [ ("A_0001_layercam_cam.jpg", File "") ]);
                   ("b_02", Dir [ ("b_02_layercam_gb.webp", File "") ]) ].
Proof.
  split; [reflexivity|].
  exact (proj1 (list_dirs_spec example_fs ["layercam"] eq_refl) _ eq_refl).
Defined.


(** ** The rows of pipeline 1 *)

Lemma stat_snoc_none (fs : node) (d : path) (x : string) :
  Path.stat fs d = None -> Path.stat fs (d ++ [x]) = None.
Proof.
  unfold Path.stat. rewrite walk_app.
  now destruct (walk ([], fs) d).
Qed.

Lemma list_dirs_guard (fs : node) (md : path) (ld : list string) (b : string) :
  wf_node fs = true -> list_dirs fs md = Ok ld ->
  in_set b ld = valid_name b && Path.is_dir fs (md ++ [b]).
Proof.
  intros Hwf. unfold list_dirs, Path.exists_, Path.iterdir.
  destruct (Path.stat fs md) as [[data|es]|] eqn:Hd; cbn [negb bind];
    [discriminate| |].
  - intros E. apply Ok_inj in E. subst ld. apply eq_true_iff_eq.
    rewrite in_set_In, (list_dirs_In fs md es b Hwf Hd), andb_true_iff.
    pose proof (wf_stat _ _ _ Hwf Hd) as Hes. apply wf_dir in Hes.
    destruct Hes as [Hval [Hnd _]]. split.
    + intros [es' Hin].
      assert (Hb : valid_name b = true).
      { rewrite Forall_forall in Hval. apply Hval. apply in_map_iff.
        now exists (b, Dir es'). }
      split; [exact Hb|].
      apply (is_dir_child fs md es b (Dir es') Hwf Hd Hin). now exists es'.
    + intros [Hb Hdir]. unfold Path.is_dir in Hdir.
      rewrite (stat_child fs md es b Hd Hb) in Hdir.
      destruct (lookup_entry b es) as [[data|es']|] eqn:E; try discriminate.
      exists es'. now apply lookup_entry_In.
  - intros E. apply Ok_inj in E. subst ld. unfold Path.is_dir.
    rewrite (stat_snoc_none fs md b Hd). now rewrite andb_false_r.
Qed.

Lemma method_slots_guarded (fs : node) (md : path) (ld : list string) (b m : string) :
  wf_node fs = true -> list_dirs fs md = Ok ld ->
  Gallery.method_slots fs ld md b m = guarded_slots fs md b m.
Proof.
  intros Hwf Hld. unfold Gallery.method_slots, guarded_slots.
  now rewrite (list_dirs_guard fs md ld b Hwf Hld).
Qed.

(** X3.  In every row of pipeline 1, on a well-formed tree, the three slots
    of a method are resolved in [<method>/<BaseKey>] if the BaseKey is the
    name of a sub-directory of the method directory, and are all absent if it
    is not: when that entry is missing, when it is a regular file, and when
    the BaseKey is a dot entry (["."] or [".."], the stems of ["..png"] and
    ["...png"]), which no directory lists. *)
Theorem gallery_row_slots (fs : node) (rows : list Gallery.row) (r : Gallery.row) :
  wf_node fs = true -> Gallery.build_rows fs = Ok rows -> In r rows ->
  Gallery.layercam3 r
    = guarded_slots fs Gallery.LAYERCAM_DIR (Gallery.base r) "layercam"
  /\ Gallery.scorecam3 r
     = guarded_slots fs Gallery.SCORECAM_DIR (Gallery.base r) "scorecam"
  /\ Gallery.hirescam3 r
     = guarded_slots fs Gallery.HIRESCAM_DIR (Gallery.base r) "hirescam".
Proof.
  intros Hwf. unfold Gallery.build_rows.
  destruct (list_images fs CHINESE_DIR) as [imgs|]; [|discriminate].
  destruct (list_dirs fs Gallery.LAYERCAM_DIR) as [ld|] eqn:L; [|discriminate].
  destruct (list_dirs fs Gallery.SCORECAM_DIR) as [sd|] eqn:S; [|discriminate].
  destruct (list_dirs fs Gallery.HIRESCAM_DIR) as [hd|] eqn:H; [|discriminate].
  cbn [bind]. intros E Hr. apply Ok_inj in E. subst rows.
  apply in_map_iff in Hr. destruct Hr as [src [<- _]].
  unfold Gallery.build_row.
  cbn [Gallery.base Gallery.layercam3 Gallery.scorecam3 Gallery.hirescam3].
  repeat split; now apply method_slots_guarded.
Qed.

Lemma gallery_row_slots_witness :
  wf_node example_fs = true
  /\ [None; None; Some "layercam/b_02/b_02_layercam_gb.webp"]
     = guarded_slots example_fs Gallery.LAYERCAM_DIR "b_02" "layercam".
Proof.
  split; [reflexivity|].
  exact (proj1 (gallery_row_slots example_fs _
    {| Gallery.base := "b_02";
       Gallery.chinese := "Chinese/b_02.PNG";
       Gallery.layercam3 :=
         [None; None; Some "layercam/b_02/b_02_layercam_gb.webp"];
       Gallery.hirescam3 := [None; None; None];
       Gallery.scorecam3 := [None; None; None] |}
    eq_refl eq_refl (or_intror (or_introl eq_refl)))).
Defined.

(** ** Errors of the row builders *)

Lemma list_images_err (fs : node) (d : path) (e : exn) :
  list_images fs d = Err e <-> e = NotADirectoryError /\ Path.is_file fs d = true.
Proof.
  unfold list_images, Path.exists_, Path.is_file, Path.iterdir.
  destruct (Path.stat fs d) as [[data|es]|]; cbn [negb bind]; split;
    try discriminate; try (intros [_ H]; discriminate).
  - intros [= <-]. now split.
  - now intros [-> _].
Qed.

Lemma list_dirs_err (fs : node) (d : path) (e : exn) :
  list_dirs fs d = Err e <-> e = NotADirectoryError /\ Path.is_file fs d = true.
Proof.
  unfold list_dirs, Path.exists_, Path.is_file, Path.iterdir.
  destruct (Path.stat fs d) as [[data|es]|]; cbn [negb bind]; split;
    try discriminate; try (intros [_ H]; discriminate).
  - intros [= <-]. now split.
  - now intros [-> _].
Qed.

Lemma not_err_ok {A : Type} (m : result A) :
  (forall e, m <> Err e) -> exists a, m = Ok a.
Proof. destruct m as [a|e]; [now exists a | intros H; now elim (H e)]. Qed.

(** As long as no name is beyond [NAME_MAX], pipeline 2 raises exactly when
    [Chinese] is a regular file, pipeline 1 exactly when one of [Chinese],
    [layercam], [scorecam], [hirescam] is; the error is then
    [NotADirectoryError], from [iterdir] behind the existence test. *)
Lemma build_rows_err (fs : node) (e : exn) :
  (ResNet50.build_rows fs = Err e <->
     e = NotADirectoryError /\ Path.is_file fs CHINESE_DIR = true)
  /\ (Gallery.build_rows fs = Err e <->
        e = NotADirectoryError
        /\ (Path.is_file fs CHINESE_DIR = true
            \/ Path.is_file fs Gallery.LAYERCAM_DIR = true
            \/ Path.is_file fs Gallery.SCORECAM_DIR = true
            \/ Path.is_file fs Gallery.HIRESCAM_DIR = true)).
Proof.
  split.
  - unfold ResNet50.build_rows. rewrite <- list_images_err.
    destruct (list_images fs CHINESE_DIR); cbn [bind]; split; congruence.
  - unfold Gallery.build_rows.
    pose proof (list_images_err fs CHINESE_DIR) as C.
    pose proof (list_dirs_err fs Gallery.LAYERCAM_DIR) as L.
    pose proof (list_dirs_err fs Gallery.SCORECAM_DIR) as S.
    pose proof (list_dirs_err fs Gallery.HIRESCAM_DIR) as H.
    destruct (list_images fs CHINESE_DIR) as [imgs|e0]; cbn [bind].
    2:{ split; [intros [= <-]; destruct (proj1 (C e0) eq_refl); tauto|].
        intros [-> _]. destruct (proj1 (C e0) eq_refl) as [-> _]. reflexivity. }
    destruct (list_dirs fs Gallery.LAYERCAM_DIR) as [ld|e1]; cbn [bind].
    2:{ split; [intros [= <-]; destruct (proj1 (L e1) eq_refl); tauto|].
        intros [-> _]. destruct (proj1 (L e1) eq_refl) as [-> _]. reflexivity. }
    destruct (list_dirs fs Gallery.SCORECAM_DIR) as [sd|e2]; cbn [bind].
    2:{ split; [intros [= <-]; destruct (proj1 (S e2) eq_refl); tauto|].
        intros [-> _]. destruct (proj1 (S e2) eq_refl) as [-> _]. reflexivity. }
    destruct (list_dirs fs Gallery.HIRESCAM_DIR) as [hd|e3]; cbn [bind].
    2:{ split; [intros [= <-]; destruct (proj1 (H e3) eq_refl); tauto|].
        intros [-> _]. destruct (proj1 (H e3) eq_refl) as [-> _]. reflexivity. }
    split; [discriminate|]. intros [-> [F|[F|[F|F]]]].
    + discriminate (proj2 (C _) (conj eq_refl F)).
    + discriminate (proj2 (L _) (conj eq_refl F)).
    + discriminate (proj2 (S _) (conj eq_refl F)).
    + discriminate (proj2 (H _) (conj eq_refl F)).
Qed.


(** ** BaseKeys and source references *)

Lemma substring_full (s : string) : String.substring 0 (String.length s) s = s.
Proof. induction s as [|c s IH]; cbn; [reflexivity | now rewrite IH]. Qed.

Lemma substring_split (s : string) (i : nat) :
  i <= String.length s ->
  (String.substring 0 i s ++ String.substring i (String.length s - i) s)%string = s.
Proof.
  revert i. induction s as [|c s IH]; intros [|i] Hi; cbn in *;
    try reflexivity; try lia.
  - now rewrite substring_full.
  - rewrite IH; [reflexivity | lia].
Qed.

Lemma substring_prefix_length (s : string) (i : nat) :
  i <= String.length s -> String.length (String.substring 0 i s) = i.
Proof.
  revert i. induction s as [|c s IH]; intros [|i] Hi; cbn in *;
    try reflexivity; try lia.
  rewrite IH; [reflexivity | lia].
Qed.

Lemma contains_app (c : ascii) (a b : string) :
  Str.contains c (a ++ b) = Str.contains c a || Str.contains c b.
Proof.
  induction a as [|x a IH]; cbn [Str.contains String.append]; [reflexivity|].
  now rewrite IH, orb_assoc.
Qed.

Lemma prefix_app (p a b : string) :
  String.prefix p a = true -> String.prefix p (a ++ b) = true.
Proof.
  revert a. induction p as [|x p IH]; intros a; [now destruct a, b|].
  destruct a as [|y a]; cbn [String.prefix String.append]; [discriminate|].
  destruct (ascii_dec x y); [apply IH | discriminate].
Qed.

(** A name with a suffix is its stem followed by its suffix, and the stem is
    not empty. *)
Lemma stem_suffix (n : string) :
  Path.suffix_of n <> "" ->
  (Path.stem_of n ++ Path.suffix_of n)%string = n /\ Path.stem_of n <> "".
Proof.
  unfold Path.suffix_of, Path.stem_of, Path.split_at_suffix.
  destruct (Str.rfind_dot n) as [i|]; [|now intros H].
  destruct (Nat.ltb 0 i && Nat.ltb i (String.length n - 1)) eqn:E; [|now intros H].
  intros _. apply andb_true_iff in E. destruct E as [E1 E2].
  apply Nat.ltb_lt in E1, E2. split.
  - apply substring_split. lia.
  - intros H. apply (f_equal String.length) in H.
    rewrite substring_prefix_length in H; [cbn in H; lia | lia].
Qed.

Lemma in_allowed_nonempty (s : string) : In s ALLOWED_EXTS -> s <> "".
Proof. intros [<-|[<-|[<-|[<-|[]]]]]; discriminate. Qed.

Lemma lower_nonempty (s : string) : Str.lower s <> "" -> s <> "".
Proof. now destruct s. Qed.

Lemma list_images_filter (fs : node) (d : path) (imgs : list path) (p : path) :
  list_images fs d = Ok imgs -> In p imgs -> image_filter fs p = true.
Proof.
  unfold list_images, Path.iterdir.
  destruct (Path.exists_ fs d); cbn [negb]; [|intros [= <-] []].
  destruct (Path.stat fs d) as [[data|es]|]; cbn [bind]; try discriminate.
  intros E Hp. apply Ok_inj in E. subst imgs.
  apply (Permutation_in _ (Permutation_sym (sorted_perm _))) in Hp.
  now apply filter_In in Hp.
Qed.

Lemma source_basekey (fs : node) (imgs : list path) (src : path) :
  wf_node fs = true -> list_images fs CHINESE_DIR = Ok imgs -> In src imgs ->
  source_of_basekey (Path.stem src) (Path.as_posix src).
Proof.
  intros Hwf Himgs Hsrc.
  pose proof (list_images_filter fs _ imgs src Himgs Hsrc) as Hf.
  destruct (list_images_In fs _ imgs src Hwf Himgs Hsrc) as [n [-> [Hn _]]].
  unfold image_filter, Path.suffix, Path.stem in *. rewrite name_snoc in *.
  rewrite !andb_true_iff, negb_true_iff, in_set_In in Hf.
  destruct Hf as [[_ Hext] Hpre].
  assert (Hs : Path.suffix_of n <> "").
  { now apply lower_nonempty, in_allowed_nonempty. }
  destruct (stem_suffix n Hs) as [Hsplit Hstem].
  exists (Path.suffix_of n). split; [|split; [exact Hext|split; [exact Hstem|split]]].
  - rewrite Hsplit. reflexivity.
  - apply valid_name_clean, clean_inv in Hn. destruct Hn as [_ [_ Hn]].
    rewrite <- Hsplit, contains_app in Hn. now apply orb_false_iff in Hn.
  - destruct (String.prefix "._" (Path.stem_of n)) eqn:E; [|reflexivity].
    apply (prefix_app _ _ (Path.suffix_of n)) in E. rewrite Hsplit in E. congruence.
Qed.

(** X5.  In every row of both pipelines, on a well-formed tree, the source
    reference is ["Chinese/"], the row's BaseKey and an extension whose
    lower-case form is allowed; the BaseKey is not empty, holds no ["/"] and
    does not start with ["._"]. *)
Theorem basekey_of_source (fs : node) :
  wf_node fs = true ->
  (forall rows r, Gallery.build_rows fs = Ok rows -> In r rows ->
     source_of_basekey (Gallery.base r) (Gallery.chinese r))
  /\ (forall rows r, ResNet50.build_rows fs = Ok rows -> In r rows ->
        source_of_basekey (ResNet50.base r) (ResNet50.chinese r)).
Proof.
  intros Hwf. split; intros rows r.
  - unfold Gallery.build_rows.
    destruct (list_images fs CHINESE_DIR) as [imgs|] eqn:Himgs; [|discriminate].
    destruct (list_dirs fs Gallery.LAYERCAM_DIR) as [ld|]; [|discriminate].
    destruct (list_dirs fs Gallery.SCORECAM_DIR) as [sd|]; [|discriminate].
    destruct (list_dirs fs Gallery.HIRESCAM_DIR) as [hd|]; [|discriminate].
    cbn [bind]. intros E Hr. apply Ok_inj in E. subst rows.
    apply in_map_iff in Hr. destruct Hr as [src [<- Hsrc]].
    exact (source_basekey fs imgs src Hwf Himgs Hsrc).
  - unfold ResNet50.build_rows.
    destruct (list_images fs CHINESE_DIR) as [imgs|] eqn:Himgs; [|discriminate].
    cbn [bind]. intros E Hr. apply Ok_inj in E. subst rows.
    apply in_map_iff in Hr. destruct Hr as [src [<- Hsrc]].
    exact (source_basekey fs imgs src Hwf Himgs Hsrc).
Qed.

Lemma basekey_of_source_witness :
  wf_node example_fs = true /\ source_of_basekey "b_02" "Chinese/b_02.PNG".
Proof.
  split; [reflexivity|].
  exact (proj1 (basekey_of_source example_fs eq_refl) _
    {| Gallery.base := "b_02";
       Gallery.chinese := "Chinese/b_02.PNG";
       Gallery.layercam3 :=
         [None; None; Some "layercam/b_02/b_02_layercam_gb.webp"];
       Gallery.hirescam3 := [None; None; None];
       Gallery.scorecam3 := [None; None; None] |}
    eq_refl (or_intror (or_introl eq_refl))).
Defined.


(** ** The order of the rows *)

Lemma list_images_sorted (fs : node) (d : path) (imgs : list path) :
  wf_node fs = true -> list_images fs d = Ok imgs -> StronglySorted name_lt imgs.
Proof.
  intros Hwf Himgs. pose proof (list_images_children fs d imgs Himgs) as Hch.
  apply StronglySorted_weaken with (R := path_lt).
  - intros x y Hx Hy. destruct (Hch x Hx) as [a ->]. destruct (Hch y Hy) as [b ->].
    unfold path_lt, name_lt. now rewrite path_ltb_siblings, !name_snoc.
  - revert Himgs. unfold list_images, Path.iterdir.
    destruct (Path.exists_ fs d); cbn [negb]; [|intros [= <-]; constructor].
    destruct (Path.stat fs d) as [[data|es]|] eqn:Hd; cbn [bind]; try discriminate.
    intros E. apply Ok_inj in E. subst imgs.
    pose proof (wf_stat _ _ _ Hwf Hd) as Hes. apply wf_dir in Hes.
    apply sorted_lt, NoDup_filter, NoDup_children. tauto.
Qed.

Lemma ref_lt_source (a b : string) :
  String.ltb (Path.as_posix (CHINESE_DIR ++ [a])) (Path.as_posix (CHINESE_DIR ++ [b]))
  = String.ltb a b.
Proof. reflexivity. Qed.

Lemma StronglySorted_map {A B : Type} (R : B -> B -> Prop) (f : A -> B)
    (l : list A) :
  StronglySorted (fun x y => R (f x) (f y)) l -> StronglySorted R (map f l).
Proof.
  induction 1 as [|x l Hs IH Hx]; cbn [map]; constructor; [exact IH|].
  apply Forall_map. exact Hx.
Qed.

Lemma sorted_refs (fs : node) (imgs : list path) :
  wf_node fs = true -> list_images fs CHINESE_DIR = Ok imgs ->
  StronglySorted ref_lt (map Path.as_posix imgs).
Proof.
  intros Hwf Himgs. apply StronglySorted_map.
  apply StronglySorted_weaken with (R := name_lt);
    [|now apply (list_images_sorted fs CHINESE_DIR)].
  intros x y Hx Hy.
  destruct (list_images_children fs _ imgs Himgs x Hx) as [a ->].
  destruct (list_images_children fs _ imgs Himgs y Hy) as [b ->].
  unfold name_lt, ref_lt. now rewrite ref_lt_source, !name_snoc.
Qed.

Lemma StronglySorted_ref_lt_NoDup (l : list string) :
  StronglySorted ref_lt l -> NoDup l.
Proof.
  induction 1 as [|x l Hs IH Hx]; constructor; [|exact IH].
  intros Hin. rewrite Forall_forall in Hx. specialize (Hx x Hin).
  unfold ref_lt in Hx. rewrite str_ltb_irrefl in Hx. discriminate.
Qed.

(** X6.  On a well-formed tree the rows of both pipelines come in strictly
    increasing order of their source references, compared as text: the table
    lists the source images by file name, and no source image has two rows. *)
Theorem rows_sorted_by_source (fs : node) :
  wf_node fs = true ->
  (forall rows, Gallery.build_rows fs = Ok rows ->
     StronglySorted ref_lt (map Gallery.chinese rows)
     /\ NoDup (map Gallery.chinese rows))
  /\ (forall rows, ResNet50.build_rows fs = Ok rows ->
        StronglySorted ref_lt (map ResNet50.chinese rows)
        /\ NoDup (map ResNet50.chinese rows)).
Proof.
  intros Hwf. split; intros rows.
  - unfold Gallery.build_rows.
    destruct (list_images fs CHINESE_DIR) as [imgs|] eqn:Himgs; [|discriminate].
    destruct (list_dirs fs Gallery.LAYERCAM_DIR) as [ld|]; [|discriminate].
    destruct (list_dirs fs Gallery.SCORECAM_DIR) as [sd|]; [|discriminate].
    destruct (list_dirs fs Gallery.HIRESCAM_DIR) as [hd|]; [|discriminate].
    cbn [bind]. intros E. apply Ok_inj in E. subst rows.
    rewrite map_map. cbn [Gallery.build_row Gallery.chinese].
    pose proof (sorted_refs fs imgs Hwf Himgs) as H.
    split; [exact H | now apply StronglySorted_ref_lt_NoDup].
  - unfold ResNet50.build_rows.
    destruct (list_images fs CHINESE_DIR) as [imgs|] eqn:Himgs; [|discriminate].
    cbn [bind]. intros E. apply Ok_inj in E. subst rows.
    rewrite map_map. cbn [ResNet50.build_row ResNet50.chinese].
    pose proof (sorted_refs fs imgs Hwf Himgs) as H.
    split; [exact H | now apply StronglySorted_ref_lt_NoDup].
Qed.

Lemma rows_sorted_by_source_witness :
  wf_node example_fs = true
  /\ StronglySorted ref_lt ["Chinese/A_0001.png"; "Chinese/b_02.PNG"].
Proof.
  split; [reflexivity|].
  exact (proj1 (proj1 (rows_sorted_by_source example_fs eq_refl) _ eq_refl)).
Defined.


(** ** What writing the output file leaves alone *)

Lemma lookup_set_entry_other (x y : string) (n : node) (es : list (string * node)) :
  x <> y -> lookup_entry x (set_entry y n es) = lookup_entry x es.
Proof.
  intros Hxy. induction es as [|[z m] es IH]; cbn [set_entry lookup_entry].
  - destruct (String.eqb_spec x y); [contradiction | reflexivity].
  - destruct (String.eqb_spec y z) as [->|Hyz]; cbn [lookup_entry].
    + destruct (String.eqb_spec x z); [contradiction | reflexivity].
    + destruct (String.eqb x z); [reflexivity | exact IH].
Qed.





Lemma set_entry_twice (y : string) (n : node) (es : list (string * node)) :
  set_entry y n (set_entry y n es) = set_entry y n es.
Proof.
  induction es as [|[z m] es IH]; cbn [set_entry].
  - now rewrite String.eqb_refl.
  - destruct (String.eqb_spec y z) as [->|Hyz]; cbn [set_entry].
    + now rewrite String.eqb_refl.
    + destruct (String.eqb_spec y z); [contradiction | now rewrite IH].
Qed.

Lemma step_below (root root1 : node) (c c1 : cursor) (x : string) :
  below root root1 c c1 ->
  descends (List.length (fst c)) [x] = true ->
  match step c x, step c1 x with
  | Some d, Some d1 =>
      below root root1 d d1
      /\ forall q, descends (List.length (fst c)) (x :: q)
                   = descends (List.length (fst d)) q
  | None, None => True
  | _, _ => False
  end.
Proof.
  destruct c as [a cur], c1 as [a1 cur1]. unfold below, step. cbn [fst snd].
  intros [<- [anc [-> ->]]] D. cbn [descends] in *.
  destruct cur as [data|es]; [exact I|].
  destruct (String.eqb x ".").
  { split; [split; [reflexivity | exists anc; split; reflexivity] | reflexivity]. }
  destruct (String.eqb x "..").
  - destruct anc as [|a anc]; cbn [app List.length] in *; [discriminate|].
    split; [split; [reflexivity | exists anc; split; reflexivity]|].
    intros q. cbn [fst]. rewrite length_app. cbn [List.length].
    now rewrite Nat.add_1_r.
  - destruct (lookup_entry x es) as [n|]; [|exact I]. cbn [fst snd].
    split; [split; [reflexivity | exists (Dir es :: anc); split; reflexivity]
           | reflexivity].
Qed.

Lemma descends_head (depth : nat) (x : string) (q : list string) :
  descends depth (x :: q) = true -> descends depth [x] = true.
Proof.
  cbn [descends]. destruct (String.eqb x "."); [reflexivity|].
  destruct (String.eqb x ".."); [|reflexivity].
  destruct depth as [|[|d]]; try discriminate. reflexivity.
Qed.

Lemma walk_below (root root1 : node) (q : list string) (c c1 : cursor) :
  below root root1 c c1 ->
  descends (List.length (fst c)) q = true ->
  match walk c q, walk c1 q with
  | Some d, Some d1 => below root root1 d d1
  | None, None => True
  | _, _ => False
  end.
Proof.
  revert c c1. induction q as [|x q IH]; intros c c1 H D; cbn [walk]; [exact H|].
  pose proof (step_below root root1 c c1 x H (descends_head _ _ _ D)) as S.
  destruct (step c x) as [d|], (step c1 x) as [d1|]; try contradiction; [|exact I].
  destruct S as [Hb Hd]. apply IH; [exact Hb|]. now rewrite <- Hd.
Qed.

(** Setting the entry [out] of the root changes nothing that is reached
    through another entry of the root without climbing back to the root. *)
Lemma stat_frame (es : list (string * node)) (out : string) (n : node)
    (r : string) (q : list string) :
  valid_name r = true -> r <> out -> descends 1 q = true ->
  Path.stat (Dir (set_entry out n es)) (r :: q) = Path.stat (Dir es) (r :: q).
Proof.
  intros Hr Hro D. unfold Path.stat. cbn [walk]. unfold step. cbn [fst snd].
  apply valid_name_not_dot in Hr. destruct Hr as [-> ->].
  rewrite (lookup_set_entry_other r out n es Hro).
  destruct (lookup_entry r es) as [m|]; [|reflexivity].
  assert (B : below (Dir es) (Dir (set_entry out n es))
                ([Dir es], m) ([Dir (set_entry out n es)], m)).
  { split; [reflexivity | exists []; split; reflexivity]. }
  pose proof (walk_below _ _ q _ _ B D) as W.
  destruct (walk ([Dir es], m) q) as [d|],
           (walk ([Dir (set_entry out n es)], m) q) as [d1|];
    try contradiction; [|reflexivity].
  cbn [option_map]. f_equal. symmetry. exact (proj1 W).
Qed.

Lemma descends_short (q : list string) (depth : nat) :
  List.length q < depth -> descends depth q = true.
Proof.
  revert depth. induction q as [|x q IH]; intros depth H; cbn [descends];
    [reflexivity|].
  cbn [List.length] in H.
  destruct (String.eqb x "."); [apply IH; lia|].
  destruct (String.eqb x "..").
  - destruct depth as [|[|d]]; try lia. apply IH. lia.
  - apply IH. lia.
Qed.

Lemma descends_name (depth : nat) (x : string) (q : list string) :
  valid_name x = true -> descends depth (x :: q) = descends (S depth) q.
Proof.
  intros Hx. apply valid_name_not_dot in Hx. destruct Hx as [H1 H2].
  cbn [descends]. now rewrite H1, H2.
Qed.


(** ** [main] *)





(** ** A second run *)

Lemma parse_parts_short (s : string) :
  Str.contains Str.slash s = false -> List.length (Path.parse_parts s) <= 1.
Proof.
  intros H. unfold Path.parse_parts. rewrite (split_slash_no_slash s H).
  cbn [filter]. destruct (negb _ && negb _); cbn; lia.
Qed.

Lemma parse_parts_valid (s : string) :
  valid_name s = true -> Path.parse_parts s = [s].
Proof.
  intros H. apply valid_name_clean, clean_inv in H. destruct H as [H1 [H2 H3]].
  unfold Path.parse_parts. rewrite (split_slash_no_slash s H3).
  cbn [filter]. now rewrite H1, H2.
Qed.

Lemma roots_of_no_slash (b m root ext : string) :
  Str.contains Str.slash b = false -> Str.contains Str.slash m = false ->
  In root (roots_of b m) -> In ext EXTS ->
  Str.contains Str.slash (root ++ ext) = false.
Proof.
  intros Hb Hm Hr He. rewrite contains_app.
  assert (Str.contains Str.slash ext = false) as ->.
  { destruct He as [<-|[<-|[<-|[<-|[]]]]]; reflexivity. }
  rewrite orb_false_r.
  destruct Hr as [<-|[<-|[<-|[]]]]; rewrite !contains_app, Hb, Hm; reflexivity.
Qed.

Lemma pick_single_image_first_present (fs : node) (d : path) (b m : string) :
  ResNet50.pick_single_image fs d b m
  = first_present (Gallery.pick_method_images fs d b m).
Proof.
  unfold ResNet50.pick_single_image, Gallery.pick_method_images.
  destruct (negb _); [reflexivity|].
  now rewrite pick_loop_map, single_loop_first_present.
Qed.

Section Frame.

Variable es : list (string * node).
Variables (output : string) (n : node).
Hypothesis Hwf : wf_node (Dir es) = true.

Let fs : node := Dir es.
Let fs1 : node := Dir (set_entry output n es).

Lemma frame_stat (r : string) (q : list string) :
  valid_name r = true -> r <> output -> descends 1 q = true ->
  Path.stat fs1 (r :: q) = Path.stat fs (r :: q).
Proof. apply stat_frame. Qed.

Lemma frame_exists (r : string) (q : list string) :
  valid_name r = true -> r <> output -> descends 1 q = true ->
  Path.exists_ fs1 (r :: q) = Path.exists_ fs (r :: q).
Proof. intros. unfold Path.exists_. now rewrite frame_stat. Qed.

Lemma frame_children (r : string) (es0 : list (string * node)) (x : string) :
  Path.stat fs [r] = Some (Dir es0) -> In x (map fst es0) ->
  descends 1 [x] = true.
Proof.
  intros Hr Hx. pose proof (wf_stat fs [r] _ Hwf Hr) as W. apply wf_dir in W.
  destruct W as [Hval _]. rewrite Forall_forall in Hval.
  now rewrite (descends_name 1 x [] (Hval x Hx)).
Qed.

Lemma frame_list_images (r : string) :
  valid_name r = true -> r <> output ->
  list_images fs1 [r] = list_images fs [r].
Proof.
  intros Hr Hro. unfold list_images, Path.iterdir.
  rewrite (frame_exists r [] Hr Hro eq_refl), (frame_stat r [] Hr Hro eq_refl).
  destruct (Path.exists_ fs [r]); cbn [negb]; [|reflexivity].
  destruct (Path.stat fs [r]) as [[d|es0]|] eqn:E; cbn [bind]; try reflexivity.
  f_equal. f_equal. apply filter_ext_in. intros p Hp.
  apply in_map_iff in Hp. destruct Hp as [e [<- He]].
  unfold image_filter, Path.is_file. cbn [app].
  rewrite (frame_stat r [fst e] Hr Hro); [reflexivity|].
  apply (frame_children r es0); [exact E | now apply in_map].
Qed.

Lemma frame_list_dirs (r : string) :
  valid_name r = true -> r <> output ->
  list_dirs fs1 [r] = list_dirs fs [r].
Proof.
  intros Hr Hro. unfold list_dirs, Path.iterdir.
  rewrite (frame_exists r [] Hr Hro eq_refl), (frame_stat r [] Hr Hro eq_refl).
  destruct (Path.exists_ fs [r]); cbn [negb]; [|reflexivity].
  destruct (Path.stat fs [r]) as [[d|es0]|] eqn:E; cbn [bind]; try reflexivity.
  f_equal. f_equal. apply filter_ext_in. intros p Hp.
  apply in_map_iff in Hp. destruct Hp as [e [<- He]].
  unfold Path.is_dir. cbn [app].
  rewrite (frame_stat r [fst e] Hr Hro); [reflexivity|].
  apply (frame_children r es0); [exact E | now apply in_map].
Qed.

(** The candidates of a directory deep enough below the root. *)
Lemma frame_probe_exts (r : string) (q : list string) (root : string)
    (exts : list string) :
  valid_name r = true -> r <> output ->
  (forall t, List.length t <= 1 -> descends 1 (q ++ t) = true) ->
  (forall ext, In ext exts -> Str.contains Str.slash (root ++ ext) = false) ->
  probe_exts fs1 (r :: q) root exts = probe_exts fs (r :: q) root exts.
Proof.
  intros Hr Hro Hq. induction exts as [|ext exts IH]; intros Hs;
    cbn [probe_exts]; [reflexivity|].
  unfold Path.joinpath. cbn [app].
  rewrite (frame_exists r _ Hr Hro
             (Hq _ (parse_parts_short _ (Hs ext (or_introl eq_refl))))).
  rewrite IH; [reflexivity|]. intros e He. apply Hs. now right.
Qed.

Lemma frame_pick_method_images (r b m : string) :
  valid_name r = true -> r <> output -> valid_name b = true ->
  Str.contains Str.slash m = false ->
  Gallery.pick_method_images fs1 (Path.joinpath [r] b) b m
  = Gallery.pick_method_images fs (Path.joinpath [r] b) b m.
Proof.
  intros Hr Hro Hb Hm. unfold Path.joinpath. rewrite (parse_parts_valid b Hb).
  cbn [app]. unfold Gallery.pick_method_images.
  assert (Hq : forall t, List.length t <= 1 -> descends 1 ([b] ++ t) = true).
  { intros t Ht. cbn [app]. rewrite (descends_name 1 b t Hb).
    apply descends_short. lia. }
  rewrite (frame_exists r [b] Hr Hro (Hq [] (Nat.le_0_l 1))).
  destruct (negb _); [reflexivity|]. rewrite !pick_loop_map. f_equal.
  apply map_ext_in. intros root Hroot.
  apply (frame_probe_exts r [b] root EXTS Hr Hro Hq).
  intros ext He. apply (roots_of_no_slash b m); try assumption.
  apply valid_name_clean, clean_inv in Hb. tauto.
Qed.

Lemma frame_method_slots (r b m : string) (ld : list string) :
  valid_name r = true -> r <> output -> list_dirs fs [r] = Ok ld ->
  Str.contains Str.slash m = false ->
  Gallery.method_slots fs1 ld [r] b m = Gallery.method_slots fs ld [r] b m.
Proof.
  intros Hr Hro Hld Hm. unfold Gallery.method_slots.
  destruct (in_set b ld) eqn:E; [|reflexivity].
  rewrite (list_dirs_guard fs [r] ld b Hwf Hld) in E.
  apply andb_true_iff in E. destruct E as [Hb _].
  now apply frame_pick_method_images.
Qed.

Lemma frame_pick_single_image (r s1 s2 b m : string) :
  valid_name r = true -> r <> output ->
  valid_name s1 = true -> valid_name s2 = true ->
  Str.contains Str.slash b = false -> Str.contains Str.slash m = false ->
  ResNet50.pick_single_image fs1 ([r; s1; s2] ++ Path.parse_parts b) b m
  = ResNet50.pick_single_image fs ([r; s1; s2] ++ Path.parse_parts b) b m.
Proof.
  intros Hr Hro H1 H2 Hb Hm. cbn [app].
  pose proof (parse_parts_short b Hb) as Hpb.
  assert (Hq : forall t, List.length t <= 1 ->
             descends 1 (([s1; s2] ++ Path.parse_parts b) ++ t) = true).
  { intros t Ht. cbn [app].
    rewrite (descends_name 1 s1 _ H1), (descends_name 2 s2 _ H2).
    apply descends_short. rewrite length_app. lia. }
  rewrite !pick_single_image_first_present.
  unfold Gallery.pick_method_images.
  pose proof (Hq [] (Nat.le_0_l 1)) as H0. rewrite app_nil_r in H0.
  cbn [app] in H0. rewrite (frame_exists r _ Hr Hro H0).
  destruct (negb _); [reflexivity|]. rewrite !pick_loop_map. f_equal. f_equal.
  apply map_ext_in. intros root Hroot.
  apply (frame_probe_exts r _ root EXTS Hr Hro Hq).
  intros ext He. now apply (roots_of_no_slash b m).
Qed.

End Frame.


Lemma frame_build_rows1 (es : list (string * node)) (output : string) (n : node) :
  wf_node (Dir es) = true ->
  ~ In output ["Chinese"; "layercam"; "scorecam"; "hirescam"] ->
  Gallery.build_rows (Dir (set_entry output n es)) = Gallery.build_rows (Dir es).
Proof.
  intros Hwf Hout. unfold Gallery.build_rows.
  change CHINESE_DIR with ["Chinese"].
  change Gallery.LAYERCAM_DIR with ["layercam"].
  change Gallery.SCORECAM_DIR with ["scorecam"].
  change Gallery.HIRESCAM_DIR with ["hirescam"].
  assert (H1 : "Chinese" <> output) by (intros <-; apply Hout; cbn; tauto).
  assert (H2 : "layercam" <> output) by (intros <-; apply Hout; cbn; tauto).
  assert (H3 : "scorecam" <> output) by (intros <-; apply Hout; cbn; tauto).
  assert (H4 : "hirescam" <> output) by (intros <-; apply Hout; cbn; tauto).
  rewrite (frame_list_images es output n Hwf "Chinese" eq_refl H1).
  rewrite (frame_list_dirs es output n Hwf "layercam" eq_refl H2).
  rewrite (frame_list_dirs es output n Hwf "scorecam" eq_refl H3).
  rewrite (frame_list_dirs es output n Hwf "hirescam" eq_refl H4).
  destruct (list_images (Dir es) ["Chinese"]) as [imgs|]; [|reflexivity].
  destruct (list_dirs (Dir es) ["layercam"]) as [ld|] eqn:L; [|reflexivity].
  destruct (list_dirs (Dir es) ["scorecam"]) as [sd|] eqn:S; [|reflexivity].
  destruct (list_dirs (Dir es) ["hirescam"]) as [hd|] eqn:H; [|reflexivity].
  cbn [bind]. f_equal. apply map_ext. intros src. unfold Gallery.build_row.
  change Gallery.LAYERCAM_DIR with ["layercam"].
  change Gallery.SCORECAM_DIR with ["scorecam"].
  change Gallery.HIRESCAM_DIR with ["hirescam"].
  rewrite (frame_method_slots es output n Hwf "layercam" _ "layercam" ld eq_refl H2 L eq_refl).
  rewrite (frame_method_slots es output n Hwf "scorecam" _ "scorecam" sd eq_refl H3 S eq_refl).
  rewrite (frame_method_slots es output n Hwf "hirescam" _ "hirescam" hd eq_refl H4 H eq_refl).
  reflexivity.
Qed.

Lemma section_dir_parts (section method b : string) :
  In section ResNet50.SECTIONS -> In method ["layercam"; "scorecam"] ->
  Path.joinpath
    (Path.joinpath (Path.joinpath ResNet50.BASE_DIR section) method) b
  = ["12.17_ResNet50"; section; method] ++ Path.parse_parts b
  /\ valid_name section = true /\ valid_name method = true.
Proof.
  intros [<-|[<-|[<-|[<-|[]]]]] [<-|[<-|[]]]; repeat split.
Qed.

Lemma frame_build_rows2 (es : list (string * node)) (output : string) (n : node) :
  wf_node (Dir es) = true ->
  ~ In output ["Chinese"; "12.17_ResNet50"] ->
  ResNet50.build_rows (Dir (set_entry output n es)) = ResNet50.build_rows (Dir es).
Proof.
  intros Hwf Hout. unfold ResNet50.build_rows.
  change CHINESE_DIR with ["Chinese"].
  assert (H1 : "Chinese" <> output) by (intros <-; apply Hout; cbn; tauto).
  assert (H2 : "12.17_ResNet50" <> output) by (intros <-; apply Hout; cbn; tauto).
  rewrite (frame_list_images es output n Hwf "Chinese" eq_refl H1).
  destruct (list_images (Dir es) ["Chinese"]) as [imgs|] eqn:Himgs; [|reflexivity].
  cbn [bind]. f_equal. apply map_ext_in. intros src Hsrc.
  destruct (source_basekey (Dir es) imgs src Hwf Himgs Hsrc)
    as [ext [_ [_ [_ [Hb _]]]]].
  unfold ResNet50.build_row. f_equal. apply map_ext_in. intros section Hsec.
  cbv beta zeta delta [ResNet50.build_section].
  destruct (section_dir_parts section "layercam" (Path.stem src) Hsec)
    as [-> [Hs Hm]]; [cbn; tauto|].
  destruct (section_dir_parts section "scorecam" (Path.stem src) Hsec)
    as [-> [_ Hm']]; [cbn; tauto|].
  rewrite (frame_pick_single_image es output n "12.17_ResNet50" section
             "layercam" _ "layercam" eq_refl H2 Hs Hm Hb eq_refl).
  rewrite (frame_pick_single_image es output n "12.17_ResNet50" section
             "scorecam" _ "scorecam" eq_refl H2 Hs Hm' Hb eq_refl).
  reflexivity.
Qed.

Lemma write_text_root_eq (es : list (string * node)) (x data : string) (fs1 : node) :
  write_text (Dir es) [x] data = Ok fs1 ->
  fs1 = Dir (set_entry x (File data) es).
Proof.
  cbn [write_text]. destruct (lookup_entry x es) as [[d|es']|]; cbn [bind];
    try discriminate; now intros [= <-].
Qed.

Lemma write_text_again (es : list (string * node)) (x data : string) :
  write_text (Dir (set_entry x (File data) es)) [x] data
  = Ok (Dir (set_entry x (File data) es)).
Proof.
  cbn [write_text]. rewrite lookup_set_entry. cbn [bind].
  now rewrite set_entry_twice.
Qed.

(** X8.  Running a generator again changes nothing: if [main] succeeds on
    a well-formed tree and leaves the tree [fs1], then [main] on [fs1]
    succeeds as well, writes the same document, prints the same line and
    leaves [fs1] as it is.  The output file is not among the files the
    generator reads. *)
Theorem main_idempotent (root : string) (fs fs1 : node) (out : string) :
  wf_node fs = true ->
  (Gallery.main root fs = Ok (fs1, out) -> Gallery.main root fs1 = Ok (fs1, out))
  /\ (ResNet50.main root fs = Ok (fs1, out) ->
      ResNet50.main root fs1 = Ok (fs1, out)).
Proof.
  intros Hwf. split.
  - unfold Gallery.main. change Gallery.OUTPUT_HTML with ["index.html"].
    destruct fs as [d|es].
    { destruct (Gallery.build_rows (File d)); cbn [bind write_text]; discriminate. }
    destruct (Gallery.build_rows (Dir es)) as [rows|] eqn:R; [|discriminate].
    cbn [bind].
    destruct (write_text (Dir es) ["index.html"] (Gallery.render_html rows))
      as [fs'|] eqn:W; [|discriminate].
    cbn [bind]. intros E. apply Ok_inj in E. injection E as -> <-.
    apply write_text_root_eq in W. subst fs1.
    rewrite (frame_build_rows1 es "index.html" _ Hwf), R.
    + cbn [bind]. now rewrite write_text_again.
    + cbn. intros [H|[H|[H|[H|[]]]]]; discriminate.
  - unfold ResNet50.main. change ResNet50.OUTPUT_HTML with ["index_resnet50.html"].
    destruct fs as [d|es].
    { destruct (ResNet50.build_rows (File d)) as [rows|]; cbn [bind];
        [|discriminate].
      destruct (ResNet50.render_html rows); cbn [bind write_text]; discriminate. }
    destruct (ResNet50.build_rows (Dir es)) as [rows|] eqn:R; [|discriminate].
    cbn [bind].
    destruct (ResNet50.render_html rows) as [doc|] eqn:D; [|discriminate].
    cbn [bind].
    destruct (write_text (Dir es) ["index_resnet50.html"] doc)
      as [fs'|] eqn:W; [|discriminate].
    cbn [bind]. intros E. apply Ok_inj in E. injection E as -> <-.
    apply write_text_root_eq in W. subst fs1.
    rewrite (frame_build_rows2 es "index_resnet50.html" _ Hwf), R.
    + cbn [bind]. rewrite D. cbn [bind]. now rewrite write_text_again.
    + cbn. intros [H|[H|[]]]; discriminate.
Qed.

Lemma main_idempotent_witness :
  wf_node example_fs = true
  /\ exists fs1 out,
       Gallery.main "/home/lab/pattern-viz" example_fs = Ok (fs1, out)
       /\ Gallery.main "/home/lab/pattern-viz" fs1 = Ok (fs1, out).
Proof.
  split; [reflexivity|].
  destruct (Gallery.main "/home/lab/pattern-viz" example_fs) as [[fs1 out]|e] eqn:E.
  - exists fs1, out. split; [reflexivity|].
    exact (proj1 (main_idempotent _ example_fs fs1 out eq_refl) E).
  - vm_compute in E. discriminate E.
Defined.


(** ** Rows and cells of a whole document *)

Lemma counts_nil (pat : string) : counts pat "" 0.
Proof. intros r. reflexivity. Qed.

Lemma counts_app (pat a b : string) (k j : nat) :
  counts pat a k -> counts pat b j -> counts pat (a ++ b) (k + j).
Proof. intros Ha Hb r. rewrite append_assoc, Ha, Hb. lia. Qed.

Lemma counts_cast (pat s : string) (k k' : nat) :
  counts pat s k -> k = k' -> counts pat s k'.
Proof. now intros H <-. Qed.

Lemma counts_free (pat e : string) :
  Str.contains "<" e = false -> counts (String "<" pat) e 0.
Proof. intros H r. now apply count_skip. Qed.

Lemma counts_escape (pat s : string) : counts (String "<" pat) (Html.escape s) 0.
Proof. apply counts_free, no_lt_escape. Qed.

Lemma counts_of_nat (pat : string) (n : nat) :
  counts (String "<" pat) (Str.of_nat n) 0.
Proof.
  apply counts_free. unfold Str.of_nat.
  induction (Nat.to_uint n) as [|u IH|u IH|u IH|u IH|u IH|u IH|u IH|u IH|u IH|u IH];
    [reflexivity | exact IH ..].
Qed.

Lemma counts_concat (pat sep : string) (l : list string) (g : string -> nat) :
  counts pat sep 0 -> (forall c, In c l -> counts pat c (g c)) ->
  counts pat (String.concat sep l) (list_sum (map g l)).
Proof.
  intros Hsep. induction l as [|a l IH]; intros H; [apply counts_nil|].
  destruct l as [|b l].
  - cbn [String.concat]. apply (counts_cast _ _ (g a)); [apply H; now left|].
    cbn. lia.
  - change (String.concat sep (a :: b :: l))
      with (a ++ sep ++ String.concat sep (b :: l))%string.
    apply (counts_cast _ _ (g a + (0 + list_sum (map g (b :: l)))));
      [|cbn; lia].
    apply counts_app; [apply H; now left|].
    apply counts_app; [exact Hsep|]. apply IH. intros c Hc. apply H. now right.
Qed.

Lemma counts_count (pat s : string) (k : nat) :
  counts pat s k -> Html.count pat s = k.
Proof.
  intros H. rewrite <- (append_nil_r s), H. cbn [Html.count]. lia.
Qed.

Lemma list_sum_const {A : Type} (k : nat) (l : list A) :
  list_sum (map (fun _ => k) l) = k * List.length l.
Proof.
  induction l as [|a l IH]; simpl; [lia|]. rewrite IH, Nat.mul_succ_r. lia.
Qed.

Lemma list_sum_ext_in {A : Type} (f g : A -> nat) (l : list A) :
  (forall a, In a l -> f a = g a) -> list_sum (map f l) = list_sum (map g l).
Proof. intros H. f_equal. now apply map_ext_in. Qed.

Ltac counts_leaf :=
  lazymatch goal with
  | |- counts ?pat ?s ?k =>
      let v := eval vm_compute in (Html.count pat s) in
      unify k v; intros r; destruct r; vm_compute; reflexivity
  end.

Ltac count_literals :=
  repeat match goal with
         | |- context [Html.count ?p ?s] =>
             let v := eval vm_compute in (Html.count p s) in
             change (Html.count p s) with v
         end.

Ltac counts_tac :=
  cbv beta;
  lazymatch goal with
  | |- counts _ (_ ++ _)%string _ => eapply counts_app; counts_tac
  | |- counts _ (Html.escape _) _ => eapply counts_escape
  | |- counts _ (Str.of_nat _) _ => eapply counts_of_nat
  | |- counts _ _ _ => first [ eassumption | counts_leaf ]
  end.


(** The patterns counted: the opening and the closing of a table row, and
    the opening of a cell.  A cell of either table holds as many of each as
    the empty cell does, and a row as many as an empty row and its cells. *)
Lemma counts_src_cell (pat b c : string) :
  In pat ["<tr>"; "</tr>"; "<td"] -> counts pat b 0 ->
  counts pat (Html.src_cell b c) (Html.count pat "<td></td>").
Proof.
  intros Hp Hb. unfold Html.src_cell, Html.text. cbn [String.concat].
  destruct Hp as [<-|[<-|[<-|[]]]];
    (eapply counts_cast; [counts_tac | reflexivity]).
Qed.

Lemma counts_method_cell (pat label b : string) (p : option string) :
  In pat ["<tr>"; "</tr>"; "<td"] -> counts pat label 0 -> counts pat b 0 ->
  counts pat (Gallery.method_cell label b p) (Html.count pat "<td></td>").
Proof.
  intros Hp Hl Hb. unfold Gallery.method_cell.
  destruct p as [s|]; [destruct (negb (String.eqb s ""))|];
    destruct Hp as [<-|[<-|[<-|[]]]];
    (eapply counts_cast; [counts_tac | reflexivity]).
Qed.

Lemma counts_section_cell (pat label b section : string) (p : option string) :
  In pat ["<tr>"; "</tr>"; "<td"] -> counts pat label 0 -> counts pat b 0 ->
  counts pat (ResNet50.section_cell label b section p)
         (Html.count pat "<td></td>").
Proof.
  intros Hp Hl Hb. unfold ResNet50.section_cell.
  destruct p as [s|]; [destruct (negb (String.eqb s ""))|];
    destruct Hp as [<-|[<-|[<-|[]]]];
    (eapply counts_cast; [counts_tac | reflexivity]).
Qed.

Lemma counts_pat_escape (pat s : string) :
  In pat ["<tr>"; "</tr>"; "<td"] -> counts pat (Html.escape s) 0.
Proof. intros [<-|[<-|[<-|[]]]]; apply counts_escape. Qed.

Lemma counts_pat_leaf (pat s : string) :
  In pat ["<tr>"; "</tr>"; "<td"] -> Str.contains "<" s = false -> counts pat s 0.
Proof. intros [<-|[<-|[<-|[]]]]; apply counts_free. Qed.

Lemma counts_row (pat : string) (cells : list string) :
  In pat ["<tr>"; "</tr>"; "<td"] ->
  (forall c, In c cells -> counts pat c (Html.count pat "<td></td>")) ->
  counts pat ("<tr>" ++ Html.nl ++ String.concat Html.nl cells ++ Html.nl ++ "</tr>")
         (Html.count pat "<tr></tr>"
          + Html.count pat "<td></td>" * List.length cells).
Proof.
  intros Hp Hc.
  pose proof (counts_concat pat Html.nl cells
                (fun _ => Html.count pat "<td></td>")
                (counts_pat_leaf pat Html.nl Hp eq_refl) Hc) as C.
  rewrite list_sum_const in C.
  destruct Hp as [<-|[<-|[<-|[]]]];
    (eapply counts_cast;
     [ eapply counts_app; [counts_leaf|];
       eapply counts_app; [counts_leaf|];
       eapply counts_app; [exact C|];
       eapply counts_app; counts_leaf
     | count_literals; lia ]).
Qed.

Lemma counts_row_html1 (pat : string) (r : Gallery.row) :
  In pat ["<tr>"; "</tr>"; "<td"] ->
  counts pat (Gallery.row_html r)
         (Html.count pat "<tr></tr>"
          + Html.count pat "<td></td>" * List.length (Gallery.row_cells r)).
Proof.
  intros Hp. unfold Gallery.row_html. apply counts_row; [exact Hp|].
  pose proof (counts_pat_escape pat (Gallery.base r) Hp) as Hb.
  unfold Gallery.row_cells. intros c Hc.
  apply in_app_or in Hc. destruct Hc as [[<-|[]]|Hc];
    [now apply counts_src_cell|].
  apply in_app_or in Hc. destruct Hc as [Hc|Hc];
    [|apply in_app_or in Hc; destruct Hc as [Hc|Hc]];
    apply in_map_iff in Hc; destruct Hc as [p [<- _]];
    (apply counts_method_cell;
     [exact Hp | now apply counts_pat_leaf | exact Hb]).
Qed.

Lemma counts_row_html2 (pat : string) (r : ResNet50.row) :
  In pat ["<tr>"; "</tr>"; "<td"] ->
  counts pat (ResNet50.row_html r)
         (Html.count pat "<tr></tr>"
          + Html.count pat "<td></td>" * List.length (ResNet50.row_cells r)).
Proof.
  intros Hp. unfold ResNet50.row_html. apply counts_row; [exact Hp|].
  pose proof (counts_pat_escape pat (ResNet50.base r) Hp) as Hb.
  unfold ResNet50.row_cells. intros c [<-|Hc]; [now apply counts_src_cell|].
  apply in_flat_map in Hc. destruct Hc as [[[section l] s] [_ Hc]].
  cbn [ResNet50.section_cells] in Hc.
  destruct Hc as [<-|[<-|[]]];
    (apply counts_section_cell;
     [exact Hp | now apply counts_pat_leaf | exact Hb]).
Qed.

Lemma counts_concat_map {A : Type} (pat sep : string) (f : A -> string)
    (g : A -> nat) (l : list A) :
  counts pat sep 0 -> (forall a, In a l -> counts pat (f a) (g a)) ->
  counts pat (String.concat sep (map f l)) (list_sum (map g l)).
Proof.
  intros Hsep. induction l as [|a l IH]; intros H; [apply counts_nil|].
  destruct l as [|b l].
  - cbn [map String.concat]. apply (counts_cast _ _ (g a)); [apply H; now left|].
    cbn. lia.
  - change (String.concat sep (map f (a :: b :: l)))
      with (f a ++ sep ++ String.concat sep (map f (b :: l)))%string.
    apply (counts_cast _ _ (g a + (0 + list_sum (map g (b :: l)))));
      [|cbn; lia].
    apply counts_app; [apply H; now left|].
    apply counts_app; [exact Hsep|]. apply IH. intros c Hc. apply H. now right.
Qed.

Lemma counts_render_html1 (pat : string) (rows : list Gallery.row) :
  In pat ["<tr>"; "</tr>"; "<td"] ->
  counts pat (Gallery.render_html rows)
    (Html.count pat Gallery.thead
     + list_sum (map (fun r => Html.count pat "<tr></tr>"
                              + Html.count pat "<td></td>"
                                * List.length (Gallery.row_cells r)) rows)).
Proof.
  intros Hp.
  pose proof (counts_concat_map pat Html.nl Gallery.row_html _ rows
                (counts_pat_leaf pat Html.nl Hp eq_refl)
                (fun r _ => counts_row_html1 pat r Hp)) as C.
  unfold Gallery.render_html, Gallery.head, Gallery.preamble, Html.text.
  cbn [String.concat].
  destruct Hp as [<-|[<-|[<-|[]]]];
    (eapply counts_cast;
     [ eapply counts_app; [eapply counts_app; [counts_tac | counts_leaf]|];
       eapply counts_app; [exact C | counts_leaf]
     | count_literals; lia ]).
Qed.

Lemma counts_header_sections (pat : string) (rows : list ResNet50.row) (hs : string) :
  In pat ["<tr>"; "</tr>"; "<td"] ->
  ResNet50.header_sections rows = Ok hs -> counts pat hs 0.
Proof.
  intros Hp. unfold ResNet50.header_sections.
  destruct (ResNet50.nonempty rows);
    [|intros E; apply Ok_inj in E; subst hs; apply counts_nil].
  destruct (ResNet50.first_row_labels rows) as [ls|]; [|discriminate].
  cbn [bind]. intros E. apply Ok_inj in E. subst hs.
  eapply counts_cast.
  - apply (counts_concat_map pat "" _ (fun _ => 0) ls (counts_nil pat)).
    intros section _.
    destruct Hp as [<-|[<-|[<-|[]]]];
      (eapply counts_cast; [counts_tac | reflexivity]).
  - rewrite list_sum_const. reflexivity.
Qed.

Lemma counts_header_methods (pat : string) (rows : list ResNet50.row) (hm : string) :
  In pat ["<tr>"; "</tr>"; "<td"] ->
  ResNet50.header_methods rows = Ok hm -> counts pat hm 0.
Proof.
  intros Hp. unfold ResNet50.header_methods.
  destruct (if ResNet50.nonempty rows then _ else _) as [ls|]; [|discriminate].
  cbn [bind]. intros E. apply Ok_inj in E. subst hm.
  eapply counts_cast.
  - apply (counts_concat_map pat "" _ (fun _ => 0) ls (counts_nil pat)).
    intros section _.
    destruct Hp as [<-|[<-|[<-|[]]]];
      (eapply counts_cast; [counts_tac | reflexivity]).
  - rewrite list_sum_const. reflexivity.
Qed.

Lemma counts_render_html2 (pat : string) (rows : list ResNet50.row) (doc : string) :
  In pat ["<tr>"; "</tr>"; "<td"] ->
  ResNet50.render_html rows = Ok doc ->
  counts pat doc
    (Html.count pat "<tr></tr><tr></tr>"
     + list_sum (map (fun r => Html.count pat "<tr></tr>"
                              + Html.count pat "<td></td>"
                                * List.length (ResNet50.row_cells r)) rows)).
Proof.
  intros Hp. unfold ResNet50.render_html, ResNet50.head.
  destruct (ResNet50.header_sections rows) as [hs|] eqn:Ehs; [|discriminate].
  destruct (ResNet50.header_methods rows) as [hm|] eqn:Ehm; [|discriminate].
  cbn [bind]. intros E. apply Ok_inj in E. subst doc.
  pose proof (counts_header_sections pat rows hs Hp Ehs) as Hhs.
  pose proof (counts_header_methods pat rows hm Hp Ehm) as Hhm.
  pose proof (counts_concat_map pat Html.nl ResNet50.row_html _ rows
                (counts_pat_leaf pat Html.nl Hp eq_refl)
                (fun r _ => counts_row_html2 pat r Hp)) as C.
  unfold Html.text. cbn [String.concat].
  destruct Hp as [<-|[<-|[<-|[]]]];
    (eapply counts_cast;
     [ eapply counts_app; [counts_tac|];
       eapply counts_app; [exact C | counts_leaf]
     | count_literals; lia ]).
Qed.

Lemma list_sum_rows {A : Type} (f : A -> nat) (k : nat) (l : list A) :
  Forall (fun a => f a = k) l -> list_sum (map f l) = k * List.length l.
Proof.
  intros H. rewrite <- list_sum_const. apply list_sum_ext_in.
  now apply Forall_forall.
Qed.

(** X9.  A rendered document has one table row per row record below its
    header rows, opened and closed once each, in pipeline 1 under one header
    row and in pipeline 2 under two; and of cells it has ten times the number
    of rows in pipeline 1, when every row has three slots per method, and
    nine times in pipeline 2, when every row has the four sections.  No
    BaseKey, section name or path adds a row or a cell. *)
Theorem document_rows_and_cells :
  (forall rows,
      Html.count "<tr>" (Gallery.render_html rows) = 1 + List.length rows
      /\ Html.count "</tr>" (Gallery.render_html rows) = 1 + List.length rows
      /\ (Forall three_slots rows ->
          td_count (Gallery.render_html rows) = 10 * List.length rows))
  /\ (forall rows doc,
        ResNet50.render_html rows = Ok doc ->
        Html.count "<tr>" doc = 2 + List.length rows
        /\ Html.count "</tr>" doc = 2 + List.length rows
        /\ (Forall (fun r => labels r = ResNet50.SECTIONS) rows ->
            td_count doc = 9 * List.length rows)).
Proof.
  split.
  - intros rows. split; [|split].
    + rewrite (counts_count _ _ _ (counts_render_html1 "<tr>" rows
                                     (or_introl eq_refl))).
      count_literals. rewrite (list_sum_rows _ 1 rows); [lia|].
      apply Forall_forall. intros r _. cbv beta. lia.
    + rewrite (counts_count _ _ _ (counts_render_html1 "</tr>" rows
                                     (or_intror (or_introl eq_refl)))).
      count_literals. rewrite (list_sum_rows _ 1 rows); [lia|].
      apply Forall_forall. intros r _. cbv beta. lia.
    + intros H. unfold td_count.
      rewrite (counts_count _ _ _ (counts_render_html1 "<td" rows
                 (or_intror (or_intror (or_introl eq_refl))))).
      count_literals. rewrite (list_sum_rows _ 10 rows); [lia|].
      eapply Forall_impl; [|exact H]. intros r Hr. cbv beta.
      rewrite (row_cells1_length r Hr). lia.
  - intros rows doc Hdoc. split; [|split].
    + rewrite (counts_count _ _ _ (counts_render_html2 "<tr>" rows doc
                                     (or_introl eq_refl) Hdoc)).
      count_literals. rewrite (list_sum_rows _ 1 rows); [lia|].
      apply Forall_forall. intros r _. cbv beta. lia.
    + rewrite (counts_count _ _ _ (counts_render_html2 "</tr>" rows doc
                                     (or_intror (or_introl eq_refl)) Hdoc)).
      count_literals. rewrite (list_sum_rows _ 1 rows); [lia|].
      apply Forall_forall. intros r _. cbv beta. lia.
    + intros H. unfold td_count.
      rewrite (counts_count _ _ _ (counts_render_html2 "<td" rows doc
                 (or_intror (or_intror (or_introl eq_refl))) Hdoc)).
      count_literals. rewrite (list_sum_rows _ 9 rows); [lia|].
      eapply Forall_impl; [|exact H]. intros r Hr. cbv beta.
      rewrite row_cells2_length.
      assert (L : @List.length ResNet50.section_entry (ResNet50.sections r) = 4).
      { apply (f_equal (@List.length string)) in Hr. unfold labels in Hr.
        rewrite length_map in Hr. exact Hr. }
      rewrite L. reflexivity.
Qed.


(** ** Reading an escaped text back *)

Lemma decode_escape_char (c : ascii) (r : string) :
  decode (escape_char c ++ r) = String c (decode r).
Proof.
  unfold escape_char, decode.
  destruct (Ascii.eqb_spec c "&") as [->|H1]; [destruct r; reflexivity|].
  destruct (Ascii.eqb_spec c "<") as [->|H2]; [destruct r; reflexivity|].
  destruct (Ascii.eqb_spec c ">") as [->|H3]; [destruct r; reflexivity|].
  destruct (Ascii.eqb_spec c Html.dquote) as [->|H4]; [destruct r; reflexivity|].
  destruct (Ascii.eqb_spec c Html.squote) as [->|H5]; [destruct r; reflexivity|].
  cbn [String.append decode_from].
  destruct (Ascii.eqb_spec c "&"); [contradiction | reflexivity].
Qed.

Lemma decode_escape (s : string) : decode (Html.escape s) = s.
Proof.
  rewrite escape_escape_chars. induction s as [|c s IH]; [reflexivity|].
  cbn [escape_chars]. now rewrite decode_escape_char, IH.
Qed.

(** X10.  Escaping loses nothing: replacing the five references by their
    characters gives the escaped string back, whatever it holds (ampersands
    and texts that look like references included), so two different
    BaseKeys, section names or paths never render the same. *)
Theorem escape_round_trip :
  (forall s, decode (Html.escape s) = s)
  /\ (forall s s', Html.escape s = Html.escape s' -> s = s').
Proof.
  split; [exact decode_escape|].
  intros s s' H. rewrite <- (decode_escape s), <- (decode_escape s'). now rewrite H.
Qed.

(** ** Resolved slots and image cells *)

Lemma as_posix_nonempty (x : string) (p : path) :
  x <> "" -> Path.as_posix (x :: p) <> "".
Proof.
  intros Hx. destruct x as [|c x]; [contradiction|].
  destruct p; discriminate.
Qed.

Lemma probe_exts_nonempty (fs : node) (x : string) (q : list string)
    (root : string) (exts : list string) (s : string) :
  x <> "" -> probe_exts fs (x :: q) root exts = Some s -> s <> "".
Proof.
  intros Hx E. pose proof (probe_exts_inv fs (x :: q) root exts) as H.
  rewrite E in H. destruct H as [pre [ext [post [_ [_ [_ ->]]]]]].
  unfold candidate, Path.joinpath. cbn [app]. now apply as_posix_nonempty.
Qed.

Lemma shown_some (s : string) : s <> "" -> shown_iff_resolved (Some s).
Proof.
  intros H. unfold shown_iff_resolved, Html.truthy.
  destruct (String.eqb_spec s ""); [contradiction | reflexivity].
Qed.

Lemma method_slots_shown (fs : node) (dirs : list string) (x b m : string)
    (p : option string) :
  x <> "" -> In p (Gallery.method_slots fs dirs [x] b m) -> shown_iff_resolved p.
Proof.
  intros Hx. unfold Gallery.method_slots, Gallery.pick_method_images.
  assert (Hnone : In p [None; None; None] -> shown_iff_resolved p).
  { intros [<-|[<-|[<-|[]]]]; reflexivity. }
  destruct (in_set b dirs); [|exact Hnone].
  destruct (negb _); [exact Hnone|].
  rewrite pick_loop_map. cbn [app]. intros Hp. apply in_map_iff in Hp.
  destruct Hp as [root [E _]]. destruct p as [s|]; [|reflexivity].
  apply shown_some. unfold Path.joinpath in E. cbn [app] in E.
  eapply probe_exts_nonempty; [exact Hx | exact E].
Qed.

Lemma pick_single_image_shown (fs : node) (x : string) (q : list string)
    (b m : string) :
  x <> "" -> shown_iff_resolved (ResNet50.pick_single_image fs (x :: q) b m).
Proof.
  intros Hx. destruct (ResNet50.pick_single_image fs (x :: q) b m) as [s|] eqn:E;
    [|reflexivity].
  apply shown_some. unfold ResNet50.pick_single_image in E.
  destruct (negb _); [discriminate|].
  apply single_loop_probed in E. destruct E as [root [_ E]].
  now apply (probe_exts_nonempty fs x q root EXTS).
Qed.

(** The renderers test a slot for truth, which would take an empty
    reference for an absent one.  No row of either builder holds an empty
    reference. *)
Lemma built_slots_shown (fs : node) :
  (forall rows r p, Gallery.build_rows fs = Ok rows -> In r rows ->
     In p (Gallery.layercam3 r ++ Gallery.hirescam3 r ++ Gallery.scorecam3 r) ->
     shown_iff_resolved p)
  /\ (forall rows r section layer_img score_img,
        ResNet50.build_rows fs = Ok rows -> In r rows ->
        In (section, layer_img, score_img) (ResNet50.sections r) ->
        shown_iff_resolved layer_img /\ shown_iff_resolved score_img).
Proof.
  split.
  - intros rows r p. unfold Gallery.build_rows.
    destruct (list_images fs CHINESE_DIR) as [imgs|]; [|discriminate].
    destruct (list_dirs fs Gallery.LAYERCAM_DIR) as [ld|]; [|discriminate].
    destruct (list_dirs fs Gallery.SCORECAM_DIR) as [sd|]; [|discriminate].
    destruct (list_dirs fs Gallery.HIRESCAM_DIR) as [hd|]; [|discriminate].
    cbn [bind]. intros E Hr. apply Ok_inj in E. subst rows.
    apply in_map_iff in Hr. destruct Hr as [src [<- _]].
    cbn [Gallery.build_row Gallery.layercam3 Gallery.hirescam3 Gallery.scorecam3].
    intros Hp. apply in_app_or in Hp. destruct Hp as [Hp|Hp];
      [|apply in_app_or in Hp; destruct Hp as [Hp|Hp]];
      (eapply method_slots_shown; [|exact Hp]); discriminate.
  - intros rows r section layer_img score_img. unfold ResNet50.build_rows.
    destruct (list_images fs CHINESE_DIR) as [imgs|]; [|discriminate].
    cbn [bind]. intros E Hr. apply Ok_inj in E. subst rows.
    apply in_map_iff in Hr. destruct Hr as [src [<- _]].
    cbn [ResNet50.build_row ResNet50.sections]. intros Hs.
    apply in_map_iff in Hs. destruct Hs as [sec [E _]].
    cbv beta zeta delta [ResNet50.build_section] in E.
    injection E as _ <- <-.
    split; apply pick_single_image_shown; discriminate.
Qed.


(** * The images of the document *)

(** ** Reading a document piece by piece *)

Lemma run_app (a b : string) (st : lexer) :
  run st (a ++ b)
  = (fst (run st a) ++ fst (run (snd (run st a)) b), snd (run (snd (run st a)) b)).
Proof.
  revert st. induction a as [|c a IH]; intros st.
  - cbn [append run fst snd app]. now destruct (run st b).
  - change (String c a ++ b)%string with (String c (a ++ b)). cbn [run].
    destruct (lex st c) as [st1 out]. rewrite IH.
    destruct (run st1 a) as [o1 st2]. cbn [fst snd].
    destruct (run st2 b) as [o2 st3]. cbn [fst snd]. now rewrite app_assoc.
Qed.

Lemma reads_nil (st : lexer) : reads st "" [] st.
Proof. reflexivity. Qed.

Lemma reads_app (st st1 st2 : lexer) (a b : string) (o1 o2 : list string) :
  reads st a o1 st1 -> reads st1 b o2 st2 -> reads st (a ++ b) (o1 ++ o2) st2.
Proof.
  unfold reads. intros Ha Hb. rewrite run_app, Ha. cbn [fst snd]. now rewrite Hb.
Qed.

Lemma reads_cast (st st' : lexer) (s : string) (o o' : list string) :
  reads st s o st' -> o = o' -> reads st s o' st'.
Proof. now intros H <-. Qed.

Lemma reads_text_free (e : string) :
  Str.contains "<" e = false -> reads InText e [] InText.
Proof.
  unfold reads. induction e as [|c e IH]; [reflexivity|].
  cbn [Str.contains]. intros H. apply orb_false_iff in H. destruct H as [Hc He].
  cbn [run lex]. rewrite Ascii.eqb_sym, Hc. now rewrite (IH He).
Qed.

Lemma reads_value_free (e name value : string) :
  Str.contains Html.dquote e = false ->
  reads (InValue name value) e [] (InValue name (value ++ e)).
Proof.
  unfold reads. revert value. induction e as [|c e IH]; intros value.
  - intros _. cbn [run]. now rewrite append_nil_r.
  - cbn [Str.contains]. intros H. apply orb_false_iff in H. destruct H as [Hc He].
    cbn [run lex]. rewrite Ascii.eqb_sym, Hc. rewrite (IH _ He).
    cbn [app]. now rewrite append_assoc.
Qed.

(** The double quote that ends a value. *)
Lemma reads_close (name value rest : string) (o : list string) (st : lexer) :
  reads (InTag "") rest o st ->
  reads (InValue name value) (String Html.dquote rest)
        ((if String.eqb (Str.lower name) "src" then [value] else []) ++ o) st.
Proof.
  unfold reads. intros H. cbn [run lex].
  change (Ascii.eqb Html.dquote Html.dquote) with true. cbv iota. now rewrite H.
Qed.

Lemma no_dquote_skeleton (s : string) :
  skeleton s = "" -> Str.contains Html.dquote s = false.
Proof.
  induction s as [|c s IH]; [reflexivity|]. cbn [skeleton Str.contains].
  destruct (markup c) eqn:E; [discriminate|]. intros H. rewrite (IH H).
  unfold markup in E. rewrite !orb_false_iff in E.
  destruct E as [[[_ _] E] _]. now rewrite Ascii.eqb_sym, E.
Qed.

Lemma no_dquote_escape (s : string) : Str.contains Html.dquote (Html.escape s) = false.
Proof. apply no_dquote_skeleton, skeleton_escape. Qed.

Lemma no_lt_of_nat (n : nat) : Str.contains "<" (Str.of_nat n) = false.
Proof.
  unfold Str.of_nat.
  induction (Nat.to_uint n) as [|u IH|u IH|u IH|u IH|u IH|u IH|u IH|u IH|u IH|u IH];
    [reflexivity | exact IH ..].
Qed.

Lemma reads_concat_map {A : Type} (sep : string) (f : A -> string)
    (g : A -> list string) (l : list A) :
  reads InText sep [] InText ->
  (forall a, In a l -> reads InText (f a) (g a) InText) ->
  reads InText (String.concat sep (map f l)) (flat_map g l) InText.
Proof.
  intros Hsep. induction l as [|a l IH]; intros H; [apply reads_nil|].
  destruct l as [|b l].
  - cbn [map String.concat flat_map]. rewrite app_nil_r. apply H. now left.
  - change (String.concat sep (map f (a :: b :: l)))
      with (f a ++ sep ++ String.concat sep (map f (b :: l)))%string.
    change (flat_map g (a :: b :: l)) with (g a ++ [] ++ flat_map g (b :: l)).
    apply (reads_app _ InText); [apply H; now left|].
    apply (reads_app _ InText); [exact Hsep|]. apply IH. intros c Hc. apply H. now right.
Qed.

Lemma reads_concat (sep : string) (cells : list string) (outs : list (list string)) :
  reads InText sep [] InText ->
  Forall2 (fun c o => reads InText c o InText) cells outs ->
  reads InText (String.concat sep cells) (List.concat outs) InText.
Proof.
  intros Hsep. induction 1 as [|c o cells outs Hc Hcs IH]; [apply reads_nil|].
  destruct Hcs as [|c' o' cells outs Hc' Hcs].
  - cbn [String.concat List.concat]. now rewrite app_nil_r.
  - change (String.concat sep (c :: c' :: cells))
      with (c ++ sep ++ String.concat sep (c' :: cells))%string.
    change (List.concat (o :: o' :: outs)) with (o ++ [] ++ List.concat (o' :: outs)).
    apply (reads_app _ InText); [exact Hc|].
    apply (reads_app _ InText); [exact Hsep|]. exact IH.
Qed.

(** A literal: both sides are computed. *)
Ltac reads_literal := unfold reads; vm_compute; reflexivity.

(** A literal inside a value: it holds no double quote, or starts with the
    one that ends the value. *)
Ltac reads_in_value :=
  lazymatch goal with
  | |- reads (InValue _ _) ?s _ _ =>
      first
        [ apply reads_value_free; vm_compute; reflexivity
        | let v := eval vm_compute in s in
          change s with v; eapply reads_close; reads_literal ]
  end.

Ltac reads_tac :=
  cbv beta;
  lazymatch goal with
  | |- reads _ (_ ++ _)%string _ _ => eapply reads_app; [reads_tac | reads_tac]
  | |- reads InText (Html.escape _) _ _ => apply reads_text_free, no_lt_escape
  | |- reads InText (Str.of_nat _) _ _ => apply reads_text_free, no_lt_of_nat
  | |- reads (InValue _ _) (Html.escape _) _ _ =>
      apply reads_value_free, no_dquote_escape
  | |- reads InText _ _ _ =>
      first [ eassumption
            | apply reads_text_free; assumption
            | reads_literal ]
  | |- reads (InValue _ _) _ _ _ =>
      first [ apply reads_value_free; assumption | reads_in_value ]
  | |- reads _ _ _ _ => reads_literal
  end.

(** ** The cells *)

Lemma reads_src_cell (b c : string) :
  Str.contains "<" b = false -> Str.contains Html.dquote b = false ->
  reads InText (Html.src_cell b c) [Html.escape c] InText.
Proof.
  intros Hlt Hq. unfold Html.src_cell, Html.text. cbn [String.concat].
  eapply reads_cast; [reads_tac | reflexivity].
Qed.

Lemma reads_method_cell (label b : string) (p : option string) :
  Str.contains Html.dquote label = false -> Str.contains Html.dquote b = false ->
  reads InText (Gallery.method_cell label b p) (map Html.escape (cell_ref p)) InText.
Proof.
  intros Hl Hb. unfold Gallery.method_cell, cell_ref.
  destruct p as [s|]; [destruct (negb (String.eqb s ""))|];
    (eapply reads_cast; [reads_tac | reflexivity]).
Qed.

Lemma reads_section_cell (label b section : string) (p : option string) :
  Str.contains Html.dquote label = false -> Str.contains Html.dquote b = false ->
  reads InText (ResNet50.section_cell label b section p)
        (map Html.escape (cell_ref p)) InText.
Proof.
  intros Hl Hb. unfold ResNet50.section_cell, cell_ref.
  destruct p as [s|]; [destruct (negb (String.eqb s ""))|];
    (eapply reads_cast; [reads_tac | reflexivity]).
Qed.

(** ** Rows and documents *)

Lemma Forall2_map_both {A B C : Type} (R : B -> C -> Prop) (f : A -> B)
    (g : A -> C) (l : list A) :
  (forall a, R (f a) (g a)) -> Forall2 R (map f l) (map g l).
Proof. intros H. induction l as [|a l IH]; cbn [map]; constructor; auto. Qed.

Lemma concat_map_map {A B C : Type} (f : B -> C) (g : A -> list B) (l : list A) :
  List.concat (map (fun a => map f (g a)) l) = map f (flat_map g l).
Proof.
  induction l as [|a l IH]; [reflexivity|]. cbn [map List.concat flat_map].
  now rewrite IH, map_app.
Qed.

Lemma reads_row (cells : list string) (outs : list (list string)) :
  Forall2 (fun c o => reads InText c o InText) cells outs ->
  reads InText ("<tr>" ++ Html.nl ++ String.concat Html.nl cells ++ Html.nl ++ "</tr>")
        (List.concat outs) InText.
Proof.
  intros H.
  pose proof (reads_concat Html.nl cells outs ltac:(reads_literal) H) as C.
  eapply reads_cast.
  - eapply reads_app; [reads_literal|].
    eapply reads_app; [reads_literal|].
    eapply reads_app; [exact C|].
    eapply reads_app; reads_literal.
  - cbn [app]. now rewrite app_nil_r.
Qed.

Lemma reads_row_html1 (r : Gallery.row) :
  reads InText (Gallery.row_html r) (map Html.escape (shown1 r)) InText.
Proof.
  pose proof (no_lt_escape (Gallery.base r)) as Hlt.
  pose proof (no_dquote_escape (Gallery.base r)) as Hq.
  unfold Gallery.row_html. eapply reads_cast.
  - apply (reads_row (Gallery.row_cells r)
             ([[Html.escape (Gallery.chinese r)]]
                ++ map (fun p => map Html.escape (cell_ref p)) (Gallery.layercam3 r)
                ++ map (fun p => map Html.escape (cell_ref p)) (Gallery.hirescam3 r)
                ++ map (fun p => map Html.escape (cell_ref p)) (Gallery.scorecam3 r))).
    unfold Gallery.row_cells.
    apply Forall2_app; [constructor; [now apply reads_src_cell | constructor]|].
    apply Forall2_app; [|apply Forall2_app];
      apply Forall2_map_both; intros p; now apply reads_method_cell.
  - unfold shown1. rewrite <- !map_app. cbn [app List.concat map].
    f_equal. apply (concat_map_map Html.escape cell_ref).
Qed.

Lemma section_cells_reads (b : string) (l : list ResNet50.section_entry) :
  Str.contains Html.dquote b = false ->
  Forall2 (fun c o => reads InText c o InText)
          (flat_map (ResNet50.section_cells b) l)
          (map (fun p => map Html.escape (cell_ref p))
               (flat_map (fun e => [snd (fst e); snd e]) l)).
Proof.
  intros Hq. induction l as [|[[section layer_img] score_img] l IH];
    [constructor|].
  cbn [flat_map ResNet50.section_cells fst snd app map].
  constructor; [now apply reads_section_cell|].
  constructor; [now apply reads_section_cell | exact IH].
Qed.

Lemma reads_row_html2 (r : ResNet50.row) :
  reads InText (ResNet50.row_html r) (map Html.escape (shown2 r)) InText.
Proof.
  pose proof (no_lt_escape (ResNet50.base r)) as Hlt.
  pose proof (no_dquote_escape (ResNet50.base r)) as Hq.
  unfold ResNet50.row_html. eapply reads_cast.
  - apply (reads_row (ResNet50.row_cells r)
             ([Html.escape (ResNet50.chinese r)]
                :: map (fun p => map Html.escape (cell_ref p))
                     (flat_map (fun e => [snd (fst e); snd e])
                               (ResNet50.sections r)))).
    unfold ResNet50.row_cells.
    constructor; [now apply reads_src_cell | now apply section_cells_reads].
  - unfold shown2. cbn [app List.concat map].
    f_equal. apply (concat_map_map Html.escape cell_ref).
Qed.

Lemma reads_render_html1 (rows : list Gallery.row) :
  reads InText (Gallery.render_html rows)
        (flat_map (fun r => map Html.escape (shown1 r)) rows) InText.
Proof.
  pose proof (reads_concat_map Html.nl Gallery.row_html _ rows
                ltac:(reads_literal) (fun r _ => reads_row_html1 r)) as C.
  unfold Gallery.render_html, Gallery.head, Gallery.preamble, Html.text.
  cbn [String.concat].
  eapply reads_cast.
  - eapply reads_app; [eapply reads_app; [reads_tac | reads_literal]|].
    eapply reads_app; [exact C | reads_literal].
  - cbn [app]. now rewrite app_nil_r.
Qed.

Lemma reads_header_sections (rows : list ResNet50.row) (hs : string) :
  ResNet50.header_sections rows = Ok hs -> reads InText hs [] InText.
Proof.
  unfold ResNet50.header_sections.
  destruct (ResNet50.nonempty rows);
    [|intros E; apply Ok_inj in E; subst hs; apply reads_nil].
  destruct (ResNet50.first_row_labels rows) as [ls|]; [|discriminate].
  cbn [bind]. intros E. apply Ok_inj in E. subst hs.
  eapply reads_cast.
  - apply (reads_concat_map "" _ (fun _ => []) ls (reads_nil InText)).
    intros section _. eapply reads_cast; [reads_tac | reflexivity].
  - induction ls as [|a ls IH]; [reflexivity | exact IH].
Qed.

Lemma reads_header_methods (rows : list ResNet50.row) (hm : string) :
  ResNet50.header_methods rows = Ok hm -> reads InText hm [] InText.
Proof.
  unfold ResNet50.header_methods.
  destruct (if ResNet50.nonempty rows then _ else _) as [ls|]; [|discriminate].
  cbn [bind]. intros E. apply Ok_inj in E. subst hm.
  eapply reads_cast.
  - apply (reads_concat_map "" _ (fun _ => []) ls (reads_nil InText)).
    intros section _. reads_literal.
  - induction ls as [|a ls IH]; [reflexivity | exact IH].
Qed.

Lemma reads_render_html2 (rows : list ResNet50.row) (doc : string) :
  ResNet50.render_html rows = Ok doc ->
  reads InText doc (flat_map (fun r => map Html.escape (shown2 r)) rows) InText.
Proof.
  unfold ResNet50.render_html, ResNet50.head.
  destruct (ResNet50.header_sections rows) as [hs|] eqn:Ehs; [|discriminate].
  destruct (ResNet50.header_methods rows) as [hm|] eqn:Ehm; [|discriminate].
  cbn [bind]. intros E. apply Ok_inj in E. subst doc.
  pose proof (reads_header_sections rows hs Ehs) as Hhs.
  pose proof (reads_header_methods rows hm Ehm) as Hhm.
  pose proof (reads_concat_map Html.nl ResNet50.row_html _ rows
                ltac:(reads_literal) (fun r _ => reads_row_html2 r)) as C.
  unfold Html.text. cbn [String.concat].
  eapply reads_cast.
  - eapply reads_app; [reads_tac|].
    eapply reads_app; [exact C | reads_literal].
  - cbn [app]. now rewrite app_nil_r.
Qed.

(** The [src] attributes of a rendered document, character references
    resolved, are the references its rows show. *)
Lemma map_decode_escape (l : list string) : map decode (map Html.escape l) = l.
Proof.
  induction l as [|a l IH]; [reflexivity|]. cbn [map].
  now rewrite decode_escape, IH.
Qed.

Lemma decode_flat_map {A : Type} (g : A -> list string) (l : list A) :
  map decode (flat_map (fun a => map Html.escape (g a)) l) = flat_map g l.
Proof.
  induction l as [|a l IH]; [reflexivity|]. cbn [flat_map].
  now rewrite map_app, map_decode_escape, IH.
Qed.

Lemma src_attributes_render_html1 (rows : list Gallery.row) :
  map decode (src_attributes (Gallery.render_html rows)) = flat_map shown1 rows.
Proof.
  unfold src_attributes. rewrite (reads_render_html1 rows). apply decode_flat_map.
Qed.

Lemma src_attributes_render_html2 (rows : list ResNet50.row) (doc : string) :
  ResNet50.render_html rows = Ok doc ->
  map decode (src_attributes doc) = flat_map shown2 rows.
Proof.
  intros H. unfold src_attributes. rewrite (reads_render_html2 rows doc H).
  apply decode_flat_map.
Qed.

(** ** The rows of the builders *)

Lemma cell_ref_present (l : list (option string)) :
  (forall p, In p l -> shown_iff_resolved p) -> flat_map cell_ref l = present l.
Proof.
  induction l as [|p l IH]; intros H; [reflexivity|].
  cbn [flat_map present]. rewrite IH by (intros p' Hp'; apply H; now right).
  pose proof (H p (or_introl eq_refl)) as Hp. destruct p as [s|]; [|reflexivity].
  unfold shown_iff_resolved, Html.truthy in Hp. unfold cell_ref. now rewrite Hp.
Qed.

Lemma flat_map_ext_In {A B : Type} (f g : A -> list B) (l : list A) :
  (forall a, In a l -> f a = g a) -> flat_map f l = flat_map g l.
Proof.
  induction l as [|a l IH]; intros H; [reflexivity|]. cbn [flat_map].
  rewrite (H a (or_introl eq_refl)), IH; [reflexivity|].
  intros b Hb. apply H. now right.
Qed.

Lemma built_rows_shown1 (fs : node) (rows : list Gallery.row) :
  Gallery.build_rows fs = Ok rows -> flat_map shown1 rows = flat_map refs1 rows.
Proof.
  intros H. apply flat_map_ext_In. intros r Hr. unfold shown1, refs1. f_equal.
  apply cell_ref_present. intros p Hp.
  exact (proj1 (built_slots_shown fs) rows r p H Hr Hp).
Qed.

Lemma built_rows_shown2 (fs : node) (rows : list ResNet50.row) :
  ResNet50.build_rows fs = Ok rows -> flat_map shown2 rows = flat_map refs2 rows.
Proof.
  intros H. apply flat_map_ext_In. intros r Hr. unfold shown2, refs2. f_equal.
  apply cell_ref_present. intros p Hp. apply in_flat_map in Hp.
  destruct Hp as [[[section layer_img] score_img] [He Hp]]. cbn [fst snd] in Hp.
  destruct (proj2 (built_slots_shown fs) rows r section layer_img score_img H Hr He)
    as [Hl Hs].
  destruct Hp as [<-|[<-|[]]]; assumption.
Qed.

Lemma main1_writes (root : string) (fs fs' : node) (out : string) :
  Gallery.main root fs = Ok (fs', out) ->
  exists rows, Gallery.build_rows fs = Ok rows
    /\ Path.stat fs' Gallery.OUTPUT_HTML = Some (File (Gallery.render_html rows)).
Proof.
  unfold Gallery.main.
  destruct (Gallery.build_rows fs) as [rows|]; [|discriminate]. cbn [bind].
  destruct (write_text fs Gallery.OUTPUT_HTML (Gallery.render_html rows))
    as [fs1|] eqn:W; [|discriminate].
  cbn [bind]. intros E. apply Ok_inj in E. injection E as <- _.
  exists rows. split; [reflexivity|].
  destruct fs as [d|es]; [discriminate|].
  change Gallery.OUTPUT_HTML with ["index.html"] in *. cbn [write_text] in W.
  assert (E : fs1 = Dir (set_entry "index.html" (File (Gallery.render_html rows)) es)).
  { destruct (lookup_entry "index.html" es) as [[d|es']|]; cbn [write_text bind] in W;
      try discriminate; apply Ok_inj in W; now subst fs1. }
  subst fs1. rewrite (stat_root_entry _ "index.html" eq_refl).
  apply lookup_set_entry.
Qed.

Lemma main2_writes (root : string) (fs fs' : node) (out : string) :
  ResNet50.main root fs = Ok (fs', out) ->
  exists rows doc, ResNet50.build_rows fs = Ok rows
    /\ ResNet50.render_html rows = Ok doc
    /\ Path.stat fs' ResNet50.OUTPUT_HTML = Some (File doc).
Proof.
  unfold ResNet50.main.
  destruct (ResNet50.build_rows fs) as [rows|]; [|discriminate]. cbn [bind].
  destruct (ResNet50.render_html rows) as [doc|] eqn:R; [|discriminate].
  cbn [bind].
  destruct (write_text fs ResNet50.OUTPUT_HTML doc) as [fs1|] eqn:W; [|discriminate].
  cbn [bind]. intros E. apply Ok_inj in E. injection E as <- _.
  exists rows, doc. split; [reflexivity|]. split; [exact R|].
  destruct fs as [d|es]; [discriminate|].
  change ResNet50.OUTPUT_HTML with ["index_resnet50.html"] in *.
  cbn [write_text] in W.
  assert (E : fs1 = Dir (set_entry "index_resnet50.html" (File doc) es)).
  { destruct (lookup_entry "index_resnet50.html" es) as [[d|es']|];
      cbn [write_text bind] in W;
      try discriminate; apply Ok_inj in W; now subst fs1. }
  subst fs1. rewrite (stat_root_entry _ "index_resnet50.html" eq_refl).
  apply lookup_set_entry.
Qed.

Lemma In_src_attributes (doc : string) (refs : list string) (v : string) :
  map decode (src_attributes doc) = refs -> In v (src_attributes doc) ->
  In (decode v) refs.
Proof. intros <- H. now apply in_map. Qed.

(** C8.  On a well-formed tree, for the rows either builder returns: the
    [src] attributes of the rendered document, character references
    resolved, are exactly the image references of the rows, in order -- the
    source and each resolved variant; each of them is a relative path, and
    read from the directory of [OUTPUT_HTML] it leads to an entry of the
    very tree the rows were built from, the source reference to a regular
    file.  So it is for the document that [main] leaves in the file
    [OUTPUT_HTML]. *)
Theorem image_refs_relative_and_exist (fs : node) :
  wf_node fs = true ->
  (forall rows, Gallery.build_rows fs = Ok rows ->
     map decode (src_attributes (Gallery.render_html rows)) = flat_map refs1 rows
     /\ (forall v, In v (src_attributes (Gallery.render_html rows)) ->
           resolves_from (parent Gallery.OUTPUT_HTML) fs (decode v))
     /\ (forall r, In r rows ->
           Path.is_file fs (Path.joinpath (parent Gallery.OUTPUT_HTML)
                                          (Gallery.chinese r)) = true))
  /\ (forall rows doc, ResNet50.build_rows fs = Ok rows ->
        ResNet50.render_html rows = Ok doc ->
        map decode (src_attributes doc) = flat_map refs2 rows
        /\ (forall v, In v (src_attributes doc) ->
              resolves_from (parent ResNet50.OUTPUT_HTML) fs (decode v))
        /\ (forall r, In r rows ->
              Path.is_file fs (Path.joinpath (parent ResNet50.OUTPUT_HTML)
                                             (ResNet50.chinese r)) = true))
  /\ (forall root fs' out, Gallery.main root fs = Ok (fs', out) ->
        exists doc, Path.stat fs' Gallery.OUTPUT_HTML = Some (File doc)
          /\ forall v, In v (src_attributes doc) ->
               resolves_from (parent Gallery.OUTPUT_HTML) fs (decode v))
  /\ (forall root fs' out, ResNet50.main root fs = Ok (fs', out) ->
        exists doc, Path.stat fs' ResNet50.OUTPUT_HTML = Some (File doc)
          /\ forall v, In v (src_attributes doc) ->
               resolves_from (parent ResNet50.OUTPUT_HTML) fs (decode v)).
Proof.
  intros Hwf. destruct (row_refs_relative_and_exist fs Hwf) as [R1 R2].
  assert (P1 : forall rows, Gallery.build_rows fs = Ok rows ->
            map decode (src_attributes (Gallery.render_html rows)) = flat_map refs1 rows
            /\ (forall v, In v (src_attributes (Gallery.render_html rows)) ->
                  resolves_from (parent Gallery.OUTPUT_HTML) fs (decode v))
            /\ (forall r, In r rows ->
                  Path.is_file fs (Path.joinpath (parent Gallery.OUTPUT_HTML)
                                                 (Gallery.chinese r)) = true)).
  { intros rows Hrows.
    assert (E : map decode (src_attributes (Gallery.render_html rows))
                = flat_map refs1 rows).
    { rewrite src_attributes_render_html1. now apply (built_rows_shown1 fs). }
    split; [exact E|]. split.
    - intros v Hv. apply (In_src_attributes _ _ _ E) in Hv.
      apply in_flat_map in Hv. destruct Hv as [r [Hr Hv]].
      exact (proj2 (R1 rows r Hrows Hr) _ Hv).
    - intros r Hr. exact (proj1 (R1 rows r Hrows Hr)). }
  assert (P2 : forall rows doc, ResNet50.build_rows fs = Ok rows ->
            ResNet50.render_html rows = Ok doc ->
            map decode (src_attributes doc) = flat_map refs2 rows
            /\ (forall v, In v (src_attributes doc) ->
                  resolves_from (parent ResNet50.OUTPUT_HTML) fs (decode v))
            /\ (forall r, In r rows ->
                  Path.is_file fs (Path.joinpath (parent ResNet50.OUTPUT_HTML)
                                                 (ResNet50.chinese r)) = true)).
  { intros rows doc Hrows Hdoc.
    assert (E : map decode (src_attributes doc) = flat_map refs2 rows).
    { rewrite (src_attributes_render_html2 rows doc Hdoc).
      now apply (built_rows_shown2 fs). }
    split; [exact E|]. split.
    - intros v Hv. apply (In_src_attributes _ _ _ E) in Hv.
      apply in_flat_map in Hv. destruct Hv as [r [Hr Hv]].
      exact (proj2 (R2 rows r Hrows Hr) _ Hv).
    - intros r Hr. exact (proj1 (R2 rows r Hrows Hr)). }
  split; [exact P1|]. split; [exact P2|]. split.
  - intros root fs' out Hmain.
    destruct (main1_writes root fs fs' out Hmain) as [rows [Hrows Hstat]].
    exists (Gallery.render_html rows). split; [exact Hstat|].
    exact (proj1 (proj2 (P1 rows Hrows))).
  - intros root fs' out Hmain.
    destruct (main2_writes root fs fs' out Hmain) as [rows [doc [Hrows [Hdoc Hstat]]]].
    exists doc. split; [exact Hstat|].
    exact (proj1 (proj2 (P2 rows doc Hrows Hdoc))).
Qed.

Lemma image_refs_relative_and_exist_witness :
  wf_node example_fs = true
  /\ exists fs' out doc,
       Gallery.main "/home/lab/pattern-viz" example_fs = Ok (fs', out)
       /\ Path.stat fs' Gallery.OUTPUT_HTML = Some (File doc)
       /\ map decode (src_attributes doc)
          = [ "Chinese/A_0001.png"; "layercam/A_0001/A_0001_layercam_cam.jpg";
              "Chinese/b_02.PNG"; "layercam/b_02/b_02_layercam_gb.webp" ]
       /\ forall v, In v (src_attributes doc) ->
            resolves_from (parent Gallery.OUTPUT_HTML) example_fs (decode v).
Proof.
  split; [reflexivity|].
  destruct (Gallery.main "/home/lab/pattern-viz" example_fs) as [[fs' out]|e] eqn:E.
  - destruct (proj1 (proj2 (proj2 (image_refs_relative_and_exist example_fs eq_refl)))
                "/home/lab/pattern-viz" fs' out E) as [doc [Hstat Hres]].
    exists fs', out, doc. split; [reflexivity|]. split; [exact Hstat|].
    split; [|exact Hres].
    vm_compute in E. apply Ok_inj in E. injection E as <- _.
    vm_compute in Hstat. injection Hstat as <-. vm_compute. reflexivity.
  - vm_compute in E. discriminate E.
Defined.

(** The escaping in the attribute is undone by the reader: a source image
    named with an ampersand and a quote is referenced by its very name. *)
Example src_attribute_example :
  src_attributes (Html.src_cell "" "Chinese/a&b'c.png")
  = ["Chinese/a&amp;b&#x27;c.png"]
  /\ decode "Chinese/a&amp;b&#x27;c.png" = "Chinese/a&b'c.png".
Proof. split; vm_compute; reflexivity. Qed.

(** ** Resolved slots and image cells, rendered *)

Lemma src_attributes_reads (s : string) (outs : list string) (st : lexer) :
  reads InText s outs st -> src_attributes s = outs.
Proof. unfold reads, src_attributes. now intros ->. Qed.

(** X11.  The renderers test a slot for truth, which would take an empty
    reference for an absent one; no row of either builder holds an empty
    reference.  So in the rendered row of every built row a slot is an image
    cell, with the slot's reference escaped for [src], exactly when it was
    resolved, and a cell without an image when it is absent; the images of
    the whole row are the source and the resolved slots, in the order of the
    columns. *)
Theorem resolved_slots_are_shown (fs : node) :
  (forall rows r, Gallery.build_rows fs = Ok rows -> In r rows ->
     src_attributes (Gallery.row_html r) = map Html.escape (refs1 r)
     /\ forall label p,
          In label ["LayerCAM"; "HiresCAM"; "ScoreCAM"] ->
          In p (Gallery.layercam3 r ++ Gallery.hirescam3 r ++ Gallery.scorecam3 r) ->
          src_attributes (Gallery.method_cell label (Html.escape (Gallery.base r)) p)
          = match p with Some s => [Html.escape s] | None => [] end)
  /\ (forall rows r, ResNet50.build_rows fs = Ok rows -> In r rows ->
        src_attributes (ResNet50.row_html r) = map Html.escape (refs2 r)
        /\ forall label section layer_img score_img p,
             In label ["LayerCAM"; "ScoreCAM"] ->
             In (section, layer_img, score_img) (ResNet50.sections r) ->
             p = layer_img \/ p = score_img ->
             src_attributes
               (ResNet50.section_cell label (Html.escape (ResNet50.base r)) section p)
             = match p with Some s => [Html.escape s] | None => [] end).
Proof.
  destruct (built_slots_shown fs) as [S1 S2].
  assert (C : forall p, shown_iff_resolved p ->
            map Html.escape (cell_ref p)
            = match p with Some s => [Html.escape s] | None => [] end).
  { intros [s|] Hp; [|reflexivity].
    unfold shown_iff_resolved, Html.truthy in Hp. unfold cell_ref. now rewrite Hp. }
  split.
  - intros rows r Hrows Hr. split.
    + rewrite (src_attributes_reads _ _ _ (reads_row_html1 r)).
      unfold shown1, refs1. do 2 f_equal. apply cell_ref_present.
      intros p Hp. exact (S1 rows r p Hrows Hr Hp).
    + intros label p Hl Hp.
      rewrite (src_attributes_reads _ _ _
                 (reads_method_cell label (Html.escape (Gallery.base r)) p
                    ltac:(destruct Hl as [<-|[<-|[<-|[]]]]; reflexivity)
                    (no_dquote_escape _))).
      apply C. exact (S1 rows r p Hrows Hr Hp).
  - intros rows r Hrows Hr. split.
    + rewrite (src_attributes_reads _ _ _ (reads_row_html2 r)).
      unfold shown2, refs2. do 2 f_equal. apply cell_ref_present.
      intros p Hp. apply in_flat_map in Hp.
      destruct Hp as [[[section layer_img] score_img] [He Hp]]. cbn [fst snd] in Hp.
      destruct (S2 rows r section layer_img score_img Hrows Hr He) as [Hl Hs].
      destruct Hp as [<-|[<-|[]]]; assumption.
    + intros label section layer_img score_img p Hl He Hp.
      rewrite (src_attributes_reads _ _ _
                 (reads_section_cell label (Html.escape (ResNet50.base r)) section p
                    ltac:(destruct Hl as [<-|[<-|[]]]; reflexivity)
                    (no_dquote_escape _))).
      apply C. destruct (S2 rows r section layer_img score_img Hrows Hr He) as [H1 H2].
      destruct Hp as [->| ->]; assumption.
Qed.

Lemma resolved_slots_are_shown_witness :
  exists rows r,
    Gallery.build_rows example_fs = Ok rows /\ In r rows
    /\ Gallery.layercam3 r = [None; None; Some "layercam/b_02/b_02_layercam_gb.webp"]
    /\ src_attributes (Gallery.row_html r)
       = ["Chinese/b_02.PNG"; "layercam/b_02/b_02_layercam_gb.webp"].
Proof.
  destruct (Gallery.build_rows example_fs) as [rows|e] eqn:E.
  - pose proof (fun r => proj1 (resolved_slots_are_shown example_fs) rows r E) as H.
    vm_compute in E. apply Ok_inj in E. subst rows.
    eexists _, _. split; [reflexivity|].
    split; [right; left; reflexivity|]. split; [reflexivity|].
    rewrite (proj1 (H _ (or_intror (or_introl eq_refl)))).
    vm_compute. reflexivity.
  - vm_compute in E. discriminate E.
Defined.

(** An empty reference, which no builder makes, would show no image. *)
Example empty_reference_example :
  src_attributes (Gallery.method_cell "LayerCAM" "A" (Some "")) = []
  /\ src_attributes (Gallery.method_cell "LayerCAM" "A" (Some "layercam/A/x.png"))
     = ["layercam/A/x.png"].
Proof. split; vm_compute; reflexivity. Qed.


(** * The errors of the operating system *)

(** ** Paths whose names fit *)

Lemma os_walk_fits (p : list string) (c : cursor) :
  fits p = true -> Os.walk c p = Ok (walk c p).
Proof.
  revert c. induction p as [|x p IH]; intros c H; [reflexivity|].
  cbn [fits forallb] in H. apply andb_true_iff in H. destruct H as [Hx Hp].
  apply negb_true_iff in Hx. cbn [Os.walk walk].
  destruct (snd c) as [d|es] eqn:Ec.
  - unfold step. now rewrite Ec.
  - rewrite Hx. destruct (step c x) as [c'|]; [now apply IH | reflexivity].
Qed.

Lemma os_stat_fits (fs : node) (p : path) :
  fits p = true -> Os.stat fs p = Ok (Path.stat fs p).
Proof. intros H. unfold Os.stat, Path.stat. now rewrite (os_walk_fits p _ H). Qed.

Lemma os_exists_fits (fs : node) (p : path) :
  fits p = true -> Os.exists_ fs p = Ok (Path.exists_ fs p).
Proof. intros H. unfold Os.exists_, Path.exists_. now rewrite (os_stat_fits fs p H). Qed.

Lemma os_is_file_fits (fs : node) (p : path) :
  fits p = true -> Os.is_file fs p = Ok (Path.is_file fs p).
Proof. intros H. unfold Os.is_file, Path.is_file. now rewrite (os_stat_fits fs p H). Qed.

Lemma os_is_dir_fits (fs : node) (p : path) :
  fits p = true -> Os.is_dir fs p = Ok (Path.is_dir fs p).
Proof. intros H. unfold Os.is_dir, Path.is_dir. now rewrite (os_stat_fits fs p H). Qed.

Lemma os_iterdir_fits (fs : node) (p : path) :
  fits p = true -> Os.iterdir fs p = Path.iterdir fs p.
Proof.
  intros H. unfold Os.iterdir, Path.iterdir. rewrite (os_stat_fits fs p H).
  reflexivity.
Qed.

Lemma os_filter_pure {A : Type} (f_ : A -> result bool) (f : A -> bool) (l : list A) :
  (forall a, In a l -> f_ a = Ok (f a)) -> Os.filter_ f_ l = Ok (filter f l).
Proof.
  induction l as [|a l IH]; intros H; [reflexivity|]. cbn [Os.filter_ filter].
  rewrite (H a (or_introl eq_refl)). cbn [bind].
  rewrite IH by (intros b Hb; apply H; now right). reflexivity.
Qed.

Lemma os_for_each_pure {A B : Type} (f_ : A -> result B) (f : A -> B) (l : list A) :
  (forall a, In a l -> f_ a = Ok (f a)) -> Os.for_each f_ l = Ok (map f l).
Proof.
  induction l as [|a l IH]; intros H; [reflexivity|]. cbn [Os.for_each map].
  rewrite (H a (or_introl eq_refl)). cbn [bind].
  rewrite IH by (intros b Hb; apply H; now right). reflexivity.
Qed.

Lemma fits_app (p q : list string) : fits (p ++ q) = fits p && fits q.
Proof. apply forallb_app. Qed.

Lemma names_fit_lookup (es : list (string * node)) (x : string) (n : node) :
  names_fit (Dir es) = true -> lookup_entry x es = Some n -> names_fit n = true.
Proof.
  intros H E. apply lookup_entry_In in E. cbn [names_fit] in H.
  rewrite forallb_forall in H. specialize (H _ E). cbn [snd] in H.
  now apply andb_true_iff in H.
Qed.

Lemma names_fit_step (c c' : cursor) (x : string) :
  names_fit_cursor c -> step c x = Some c' -> names_fit_cursor c'.
Proof.
  intros [Hn Ha]. unfold step. destruct (snd c) as [d|es] eqn:Ec; [discriminate|].
  destruct (String.eqb x "."); [intros [= <-]; split; [now rewrite Ec | exact Ha]|].
  destruct (String.eqb x "..").
  - destruct (fst c) as [|a anc] eqn:Ef.
    + intros [= <-]. split; [now rewrite Ec | now rewrite Ef].
    + intros [= <-]. inversion Ha; subst. now split.
  - destruct (lookup_entry x es) as [n|] eqn:El; [|discriminate].
    intros [= <-]. split; cbn [fst snd].
    + now apply (names_fit_lookup es x).
    + now constructor.
Qed.

Lemma names_fit_walk (p : list string) (c c' : cursor) :
  names_fit_cursor c -> walk c p = Some c' -> names_fit_cursor c'.
Proof.
  revert c. induction p as [|x p IH]; intros c Hc; cbn [walk].
  - now intros [= <-].
  - destruct (step c x) as [c1|] eqn:E; [|discriminate].
    apply IH. now apply (names_fit_step c c1 x).
Qed.

Lemma names_fit_stat (fs : node) (p : path) (n : node) :
  names_fit fs = true -> Path.stat fs p = Some n -> names_fit n = true.
Proof.
  intros H. unfold Path.stat.
  destruct (walk ([], fs) p) as [c|] eqn:E; [|discriminate].
  intros [= <-]. apply (names_fit_walk p ([], fs) c); [|exact E].
  split; [exact H | constructor].
Qed.

Lemma fits_children (fs : node) (d : path) (es : list (string * node)) (p : path) :
  names_fit fs = true -> fits d = true -> Path.stat fs d = Some (Dir es) ->
  In p (map (fun e => d ++ [fst e]) es) -> fits p = true.
Proof.
  intros Hfs Hd Es Hp. apply in_map_iff in Hp. destruct Hp as [e [<- He]].
  rewrite fits_app, Hd. cbn [fits forallb andb].
  pose proof (names_fit_stat fs d _ Hfs Es) as H. cbn [names_fit] in H.
  rewrite forallb_forall in H. specialize (H e He).
  apply andb_true_iff in H. now rewrite (proj1 H).
Qed.

(** On a tree whose names fit, enumeration is as without the raise. *)
Lemma os_list_images_fits (fs : node) (d : path) :
  names_fit fs = true -> fits d = true -> Os.list_images fs d = list_images fs d.
Proof.
  intros Hfs Hd. unfold Os.list_images, list_images.
  rewrite (os_exists_fits fs d Hd). cbn [bind].
  destruct (negb (Path.exists_ fs d)); [reflexivity|].
  rewrite (os_iterdir_fits fs d Hd). unfold Path.iterdir.
  destruct (Path.stat fs d) as [[data|es]|] eqn:Es; cbn [bind]; try reflexivity.
  rewrite (os_filter_pure _ (image_filter fs)); [reflexivity|].
  intros p Hp. unfold Os.image_filter, image_filter.
  now rewrite (os_is_file_fits fs p (fits_children fs d es p Hfs Hd Es Hp)).
Qed.

Lemma os_list_dirs_fits (fs : node) (d : path) :
  names_fit fs = true -> fits d = true -> Os.list_dirs fs d = list_dirs fs d.
Proof.
  intros Hfs Hd. unfold Os.list_dirs, list_dirs.
  rewrite (os_exists_fits fs d Hd). cbn [bind].
  destruct (negb (Path.exists_ fs d)); [reflexivity|].
  rewrite (os_iterdir_fits fs d Hd). unfold Path.iterdir.
  destruct (Path.stat fs d) as [[data|es]|] eqn:Es; cbn [bind]; try reflexivity.
  rewrite (os_filter_pure _ (Path.is_dir fs)); [reflexivity|].
  intros p Hp. apply os_is_dir_fits. exact (fits_children fs d es p Hfs Hd Es Hp).
Qed.

(** ** Candidate names that fit *)

Lemma split_slash_length (s : string) :
  Forall (fun x => String.length x <= String.length s) (Str.split_slash s).
Proof.
  induction s as [|c s IH]; cbn [Str.split_slash].
  - constructor; [apply Nat.le_refl | constructor].
  - destruct (Ascii.eqb c Str.slash).
    + constructor; [apply Nat.le_0_l|].
      eapply Forall_impl; [|exact IH]. cbn. intros x Hx. lia.
    + destruct (Str.split_slash s) as [|w ws].
      * constructor; [cbn; lia | constructor].
      * inversion IH; subst. constructor; [cbn; lia|].
        eapply Forall_impl; [|eassumption]. cbn. intros x Hx. lia.
Qed.

Lemma fits_parse_parts (s : string) :
  Os.too_long s = false -> fits (Path.parse_parts s) = true.
Proof.
  intros H. unfold fits. apply forallb_forall. intros x Hx.
  unfold Path.parse_parts in Hx. apply filter_In in Hx. destruct Hx as [Hx _].
  pose proof (split_slash_length s) as L. rewrite Forall_forall in L.
  specialize (L x Hx). unfold Os.too_long in *. apply negb_true_iff.
  apply Nat.ltb_ge. apply Nat.ltb_ge in H. lia.
Qed.

Lemma fits_joinpath (d : path) (s : string) :
  fits d = true -> Os.too_long s = false -> fits (Path.joinpath d s) = true.
Proof.
  intros Hd Hs. unfold Path.joinpath. now rewrite fits_app, Hd, fits_parse_parts.
Qed.

Lemma os_probe_exts_fits (fs : node) (d : path) (root : string) (exts : list string) :
  fits d = true ->
  (forall ext, In ext exts -> Os.too_long (root ++ ext) = false) ->
  Os.probe_exts fs d root exts = Ok (probe_exts fs d root exts).
Proof.
  intros Hd. induction exts as [|ext exts IH]; intros H; [reflexivity|].
  cbn [Os.probe_exts probe_exts].
  rewrite (os_exists_fits fs _ (fits_joinpath d _ Hd (H ext (or_introl eq_refl)))).
  cbn [bind]. destruct (Path.exists_ fs _); [reflexivity|].
  apply IH. intros e He. apply H. now right.
Qed.

Lemma os_pick_loop_fits (fs : node) (d : path) (roots : list string)
    (results : list (option string)) :
  fits d = true ->
  (forall root ext, In root roots -> In ext EXTS -> Os.too_long (root ++ ext) = false) ->
  GalleryOs.pick_loop fs d roots results = Ok (Gallery.pick_loop fs d roots results).
Proof.
  intros Hd. revert results. induction roots as [|root roots IH];
    intros results H; [reflexivity|].
  cbn [GalleryOs.pick_loop Gallery.pick_loop].
  rewrite (os_probe_exts_fits fs d root EXTS Hd)
    by (intros ext He; apply H; [now left | exact He]).
  cbn [bind]. apply IH. intros r e Hr He. apply H; [now right | exact He].
Qed.

Lemma os_single_loop_fits (fs : node) (d : path) (roots : list string) :
  fits d = true ->
  (forall root ext, In root roots -> In ext EXTS -> Os.too_long (root ++ ext) = false) ->
  ResNet50Os.single_loop fs d roots = Ok (ResNet50.single_loop fs d roots).
Proof.
  intros Hd. induction roots as [|root roots IH]; intros H; [reflexivity|].
  cbn [ResNet50Os.single_loop ResNet50.single_loop].
  rewrite (os_probe_exts_fits fs d root EXTS Hd)
    by (intros ext He; apply H; [now left | exact He]).
  cbn [bind]. destruct (probe_exts fs d root EXTS); [reflexivity|].
  apply IH. intros r e Hr He. apply H; [now right | exact He].
Qed.

Lemma candidate_names_fit (b m root ext : string) :
  fits (candidate_names b) = true -> In m METHODS ->
  In root (roots_of b m) -> In ext EXTS -> Os.too_long (root ++ ext) = false.
Proof.
  intros H Hm Hr He. unfold fits in H. rewrite forallb_forall in H.
  apply negb_true_iff. apply H. unfold candidate_names.
  apply in_flat_map. exists m. split; [exact Hm|].
  apply in_flat_map. exists root. split; [exact Hr|].
  apply in_map_iff. now exists ext.
Qed.

Lemma length_append (a b : string) :
  String.length (a ++ b) = String.length a + String.length b.
Proof. induction a as [|c a IH]; cbn; [reflexivity | now rewrite IH]. Qed.

Lemma candidate_names_key (b : string) :
  fits (candidate_names b) = true -> Os.too_long b = false.
Proof.
  intros H.
  pose proof (candidate_names_fit b "layercam" (b ++ "_" ++ "layercam" ++ "_cam") ".png" H
                (or_introl eq_refl) (or_introl eq_refl) (or_introl eq_refl)) as L.
  unfold Os.too_long in *. apply Nat.ltb_ge. apply Nat.ltb_ge in L.
  rewrite !length_append in L. lia.
Qed.

Lemma os_pick_method_images_fits (fs : node) (md : path) (b m : string) :
  fits md = true -> fits (candidate_names b) = true -> In m METHODS ->
  GalleryOs.pick_method_images fs (Path.joinpath md b) b m
  = Ok (Gallery.pick_method_images fs (Path.joinpath md b) b m).
Proof.
  intros Hmd Hb Hm.
  pose proof (fits_joinpath md b Hmd (candidate_names_key b Hb)) as Hd.
  unfold GalleryOs.pick_method_images, Gallery.pick_method_images.
  rewrite (os_exists_fits fs _ Hd). cbn [bind].
  destruct (negb _); [reflexivity|]. apply os_pick_loop_fits; [exact Hd|].
  intros root ext. now apply candidate_names_fit.
Qed.

Lemma os_pick_single_image_fits (fs : node) (md : path) (b m : string) :
  fits md = true -> fits (candidate_names b) = true -> In m METHODS ->
  ResNet50Os.pick_single_image fs (Path.joinpath md b) b m
  = Ok (ResNet50.pick_single_image fs (Path.joinpath md b) b m).
Proof.
  intros Hmd Hb Hm.
  pose proof (fits_joinpath md b Hmd (candidate_names_key b Hb)) as Hd.
  unfold ResNet50Os.pick_single_image, ResNet50.pick_single_image.
  rewrite (os_exists_fits fs _ Hd). cbn [bind].
  destruct (negb _); [reflexivity|]. apply os_single_loop_fits; [exact Hd|].
  intros root ext. now apply candidate_names_fit.
Qed.

Lemma os_method_slots_fits (fs : node) (dirs : list string) (md : path) (b m : string) :
  fits md = true -> fits (candidate_names b) = true -> In m METHODS ->
  GalleryOs.method_slots fs dirs md b m = Ok (Gallery.method_slots fs dirs md b m).
Proof.
  intros Hmd Hb Hm. unfold GalleryOs.method_slots, Gallery.method_slots.
  destruct (in_set b dirs); [|reflexivity]. now apply os_pick_method_images_fits.
Qed.

Lemma os_build_row1_fits (fs : node) (ld sd hd : list string) (src : path) :
  candidates_fit src = true ->
  GalleryOs.build_row fs ld sd hd src = Ok (Gallery.build_row fs ld sd hd src).
Proof.
  intros H. unfold candidates_fit in H. unfold GalleryOs.build_row, Gallery.build_row.
  cbv zeta.
  rewrite !os_method_slots_fits;
    try exact H; try reflexivity; cbn [METHODS In]; tauto.
Qed.

Lemma os_build_section_fits (fs : node) (b section : string) :
  fits (candidate_names b) = true -> In section ResNet50.SECTIONS ->
  ResNet50Os.build_section fs b section = Ok (ResNet50.build_section fs b section).
Proof.
  intros H Hs. unfold ResNet50Os.build_section, ResNet50.build_section. cbv zeta.
  assert (Hsec : forall m, In m METHODS ->
            fits (Path.joinpath (Path.joinpath ResNet50.BASE_DIR section) m) = true).
  { intros m Hm. cbn [ResNet50.SECTIONS In] in Hs. cbn [METHODS In] in Hm.
    destruct Hs as [<-|[<-|[<-|[<-|[]]]]]; destruct Hm as [<-|[<-|[<-|[]]]];
      reflexivity. }
  rewrite !os_pick_single_image_fits;
    try exact H; try (apply Hsec); cbn [METHODS In]; try tauto.
Qed.

Lemma os_build_row2_fits (fs : node) (src : path) :
  candidates_fit src = true ->
  ResNet50Os.build_row fs src = Ok (ResNet50.build_row fs src).
Proof.
  intros H. unfold ResNet50Os.build_row, ResNet50.build_row. cbv zeta.
  rewrite (os_for_each_pure _ (ResNet50.build_section fs (Path.stem src)));
    [reflexivity|].
  intros s Hs. now apply os_build_section_fits.
Qed.

(** The builders on a tree whose names fit, when the candidate names of
    every enumerated source image fit as well. *)
Lemma os_build_rows2_fits (fs : node) (imgs : list path) :
  names_fit fs = true -> list_images fs CHINESE_DIR = Ok imgs ->
  Forall (fun src => candidates_fit src = true) imgs ->
  ResNet50Os.build_rows fs = ResNet50.build_rows fs.
Proof.
  intros Hfs Himgs Hc. unfold ResNet50Os.build_rows, ResNet50.build_rows.
  rewrite (os_list_images_fits fs CHINESE_DIR Hfs eq_refl), Himgs. cbn [bind].
  apply os_for_each_pure. rewrite Forall_forall in Hc.
  intros src Hsrc. apply os_build_row2_fits. now apply Hc.
Qed.

Lemma os_build_rows1_fits (fs : node) (imgs : list path) :
  names_fit fs = true -> list_images fs CHINESE_DIR = Ok imgs ->
  Forall (fun src => candidates_fit src = true) imgs ->
  GalleryOs.build_rows fs = Gallery.build_rows fs.
Proof.
  intros Hfs Himgs Hc. unfold GalleryOs.build_rows, Gallery.build_rows.
  rewrite (os_list_images_fits fs CHINESE_DIR Hfs eq_refl), Himgs. cbn [bind].
  rewrite (os_list_dirs_fits fs Gallery.LAYERCAM_DIR Hfs eq_refl).
  rewrite (os_list_dirs_fits fs Gallery.SCORECAM_DIR Hfs eq_refl).
  rewrite (os_list_dirs_fits fs Gallery.HIRESCAM_DIR Hfs eq_refl).
  destruct (list_dirs fs Gallery.LAYERCAM_DIR) as [ld|]; [|reflexivity].
  destruct (list_dirs fs Gallery.SCORECAM_DIR) as [sd|]; [|reflexivity].
  destruct (list_dirs fs Gallery.HIRESCAM_DIR) as [hd|]; [|reflexivity].
  cbn [bind]. apply os_for_each_pure. rewrite Forall_forall in Hc.
  intros src Hsrc. apply os_build_row1_fits. now apply Hc.
Qed.

Lemma candidates_fit_bound (src : path) :
  candidates_fit src = true <-> String.length (Path.stem src) <= 234.
Proof.
  unfold candidates_fit. generalize (Path.stem src). intros b. split.
  - intros H.
    pose proof (candidate_names_fit b "layercam" (b ++ "_" ++ "layercam" ++ "_cam_gb")
                  ".jpeg" H (or_introl eq_refl) (or_intror (or_introl eq_refl))
                  (or_intror (or_intror (or_introl eq_refl)))) as L.
    unfold Os.too_long in L. apply Nat.ltb_ge in L.
    rewrite !length_append in L. cbn [String.length] in L. unfold Os.NAME_MAX in L.
    lia.
  - intros H. unfold fits. apply forallb_forall. intros x Hx.
    apply negb_true_iff. unfold Os.too_long, Os.NAME_MAX. apply Nat.ltb_ge.
    cbn in Hx.
    repeat (destruct Hx as [<-|Hx];
            [rewrite !length_append; cbn [String.length]; lia|]).
    destruct Hx.
Qed.




(** The builders without the raise answer for [long_name_fs]; they are the
    code only while names fit. *)
Example long_name_example :
  candidates_fit ["Chinese"; (long_key ++ ".png")%string] = false
  /\ exists rows, Gallery.build_rows long_name_fs = Ok rows.
Proof. split; [vm_compute; reflexivity | eexists; vm_compute; reflexivity]. Qed.

(** ** Errors of the row builders *)

Lemma os_build_rows_no_images (fs : node) (e : exn) :
  names_fit fs = true -> list_images fs CHINESE_DIR = Err e ->
  ResNet50Os.build_rows fs = Err e /\ ResNet50.build_rows fs = Err e
  /\ GalleryOs.build_rows fs = Err e /\ Gallery.build_rows fs = Err e.
Proof.
  intros Hfs E.
  unfold ResNet50Os.build_rows, ResNet50.build_rows, GalleryOs.build_rows,
    Gallery.build_rows.
  rewrite (os_list_images_fits fs CHINESE_DIR Hfs eq_refl), E. now cbn [bind].
Qed.

(** X4.  On a tree whose names fit [NAME_MAX] and in which no candidate
    file name of a source image is beyond it, the row builders fail in one
    way only.  Pipeline 2 raises exactly when [Chinese] is a regular file,
    pipeline 1 exactly when one of [Chinese], [layercam], [scorecam],
    [hirescam] is; the error is then [NotADirectoryError], from [iterdir]
    behind the existence test.  Nothing that is missing, and nothing below
    these four, makes them fail. *)
Theorem build_rows_errors (fs : node) (e : exn) :
  names_fit fs = true ->
  (forall imgs, Os.list_images fs CHINESE_DIR = Ok imgs ->
     Forall (fun src => candidates_fit src = true) imgs) ->
  (ResNet50Os.build_rows fs = Err e <->
     e = NotADirectoryError /\ Path.is_file fs CHINESE_DIR = true)
  /\ (GalleryOs.build_rows fs = Err e <->
        e = NotADirectoryError
        /\ (Path.is_file fs CHINESE_DIR = true
            \/ Path.is_file fs Gallery.LAYERCAM_DIR = true
            \/ Path.is_file fs Gallery.SCORECAM_DIR = true
            \/ Path.is_file fs Gallery.HIRESCAM_DIR = true)).
Proof.
  intros Hfs Hfit.
  rewrite (os_list_images_fits fs CHINESE_DIR Hfs eq_refl) in Hfit.
  destruct (list_images fs CHINESE_DIR) as [imgs|e0] eqn:E.
  - rewrite (os_build_rows2_fits fs imgs Hfs E (Hfit imgs eq_refl)).
    rewrite (os_build_rows1_fits fs imgs Hfs E (Hfit imgs eq_refl)).
    apply build_rows_err.
  - destruct (os_build_rows_no_images fs e0 Hfs E) as [-> [<- [-> <-]]].
    apply build_rows_err.
Qed.

Lemma build_rows_errors_witness :
  names_fit method_file_fs = true
  /\ (forall imgs, Os.list_images method_file_fs CHINESE_DIR = Ok imgs ->
        Forall (fun src => candidates_fit src = true) imgs)
  /\ GalleryOs.build_rows method_file_fs = Err NotADirectoryError.
Proof.
  assert (F : forall imgs, Os.list_images method_file_fs CHINESE_DIR = Ok imgs ->
                Forall (fun src => candidates_fit src = true) imgs).
  { intros imgs E. apply Ok_inj in E. subst imgs. repeat constructor. }
  split; [reflexivity|]. split; [exact F|].
  apply (proj2 (build_rows_errors method_file_fs NotADirectoryError eq_refl F)).
  split; [reflexivity|]. right. left. reflexivity.
Defined.
